(** * fasthttp: a shallow embedding of the request/response core

    The development follows [src/fasthttp/fasthttp.hpp]: the utility
    functions [toLower] and [trim], then the classes [URL], [UrlEncoder],
    [Cookie], [HttpResponse], [HttpRequest] and [RequestBuilder], each in a
    module of the same name.  A [std::string] is a list of bytes, a
    [size_t] is an integer modulo [2^64], a [std::map] is a finite map, and
    a member function that may throw returns a [result]. *)

From Stdlib Require Import ZArith Ascii String List Lia Bool.
From Stdlib Require Import DecimalString.
From Stdlib Require Import Decimal DecimalPos DecimalN.
From stdpp Require Import base option list strings gmap fin_maps.
From stdpp Require Import sorting.

Import ListNotations.

(** ** Characters and strings *)

Abbreviation char := ascii (only parsing).
Abbreviation std_string := (list ascii) (only parsing).

(** String literals of the source are written as Rocq string literals. *)
Definition lit (s : string) : std_string := list_ascii_of_string s.
Coercion lit : string >-> list.

(** The value of a [char] as the (signed) integer the comparisons of the
    source see, and as an [unsigned char]. *)
Definition uchar_val (c : char) : Z := Z.of_N (N_of_ascii c).
Definition char_val (c : char) : Z :=
  if (uchar_val c <? 128)%Z then uchar_val c else (uchar_val c - 256)%Z.

(** [static_cast<char>(n)] for an [int] n. *)
Definition char_of_int (n : Z) : char := ascii_of_N (Z.to_N (n mod 256)).

Definition char_eqb (a b : char) : bool := Ascii.eqb a b.
Definition char_in_range (lo hi c : char) : bool :=
  (char_val lo <=? char_val c)%Z && (char_val c <=? char_val hi)%Z.

(** Control characters that have no literal in Rocq. *)
Definition TAB : char := "009"%char.
Definition LF  : char := "010"%char.
Definition VT  : char := "011"%char.
Definition FF  : char := "012"%char.
Definition CR  : char := "013"%char.
Definition SP  : char := " "%char.

(** ** [size_t]

    Sizes and positions are integers; [npos] is the largest [size_t].  A
    position of a [std::string] plus a small constant stays far below
    [2^64], so such sums are written as they stand; the subtraction of
    [URL::parse] that can fall below zero is written with [wrap]. *)

Definition size_t_modulus : Z := 2 ^ 64.
Definition wrap (z : Z) : Z := z mod size_t_modulus.
Definition npos : Z := size_t_modulus - 1.

(** ** Exceptions and results *)

Inductive exn : Type := invalid_argument | out_of_range.

(** What a call does: it returns a value or throws.  [OutOfFuel] is the
    answer of a loop of the model whose iteration budget was too small; the
    theorems show that the budgets used below are never exhausted. *)
Inductive result (A : Type) : Type :=
| Ok (a : A)
| Throw (e : exn)
| OutOfFuel.
Arguments Ok {A} a.
Arguments Throw {A} e.
Arguments OutOfFuel {A}.

Definition bind {A B : Type} (m : result A) (k : A -> result B) : result B :=
  match m with
  | Ok a => k a
  | Throw e => Throw e
  | OutOfFuel => OutOfFuel
  end.

Notation "'do' x <- m ; k" := (bind m (fun x => k))
  (at level 10, x name, m at level 100, k at level 200).

Definition returns {A : Type} (m : result A) : Prop := exists a, m = Ok a.

(** ** The [std::string] operations the source uses *)

Definition str_size (s : std_string) : Z := Z.of_nat (length s).

(** [s[i]]; every use in the source is in range. *)
Definition str_at (s : std_string) (i : Z) : char :=
  match s !! Z.to_nat i with
  | Some c => c
  | None => "000"%char
  end.

(** [s.substr(pos, n)]: throws when [pos > size()], and otherwise keeps
    at most [n] characters from [pos]. *)
Definition substr (s : std_string) (pos n : Z) : result std_string :=
  if (str_size s <? pos)%Z then Throw out_of_range
  else Ok (take (Z.to_nat (Z.min n (str_size s - pos))) (drop (Z.to_nat pos) s)).

(** [s.substr(pos)], the count defaulting to [npos]. *)
Definition substr_from (s : std_string) (pos : Z) : result std_string :=
  substr s pos npos.

Fixpoint index_char (c : char) (s : std_string) : option nat :=
  match s with
  | [] => None
  | x :: s' => if char_eqb x c then Some O else S <$> index_char c s'
  end.

Fixpoint prefixb (p s : std_string) : bool :=
  match p, s with
  | [], _ => true
  | _ :: _, [] => false
  | a :: p', b :: s' => char_eqb a b && prefixb p' s'
  end.

Fixpoint index_str (p s : std_string) : option nat :=
  if prefixb p s then Some O
  else match s with
       | [] => None
       | _ :: s' => S <$> index_str p s'
       end.

Definition pos_of (o : option nat) : Z :=
  match o with
  | Some i => Z.of_nat i
  | None => npos
  end.

(** [s.find(c)] and [s.find(p)]. *)
Definition find_char (s : std_string) (c : char) : Z := pos_of (index_char c s).
Definition find_str (s p : std_string) : Z := pos_of (index_str p s).

Definition mem_char (c : char) (set : std_string) : bool :=
  existsb (char_eqb c) set.
Arguments mem_char : simpl never.

Fixpoint index_first_not_of (set s : std_string) : option nat :=
  match s with
  | [] => None
  | x :: s' => if mem_char x set then S <$> index_first_not_of set s' else Some O
  end.

Fixpoint index_last_not_of (set s : std_string) : option nat :=
  match s with
  | [] => None
  | x :: s' =>
      match index_last_not_of set s' with
      | Some i => Some (S i)
      | None => if mem_char x set then None else Some O
      end
  end.

Definition find_first_not_of (s set : std_string) : Z :=
  pos_of (index_first_not_of set s).
Definition find_last_not_of (s set : std_string) : Z :=
  pos_of (index_last_not_of set s).

Definition str_eqb (a b : std_string) : bool := bool_decide (a = b).

(** ** The C library and stream primitives the source calls *)

(** [isspace] in the C locale. *)
Definition isspace (c : char) : bool :=
  mem_char c [SP; TAB; LF; VT; FF; CR].

Definition digit_val (c : char) : option Z :=
  if char_in_range "0" "9" c then Some (uchar_val c - 48)%Z else None.

Definition xdigit_val (c : char) : option Z :=
  if char_in_range "0" "9" c then Some (uchar_val c - 48)%Z
  else if char_in_range "a" "f" c then Some (uchar_val c - 87)%Z
  else if char_in_range "A" "F" c then Some (uchar_val c - 55)%Z
  else None.

Fixpoint skip_space (s : std_string) : std_string :=
  match s with
  | c :: s' => if isspace c then skip_space s' else s
  | [] => []
  end.

(** An optional sign: [true] for a minus. *)
Definition take_sign (s : std_string) : bool * std_string :=
  match s with
  | c :: s' =>
      if char_eqb c "-" then (true, s')
      else if char_eqb c "+" then (false, s')
      else (false, s)
  | [] => (false, [])
  end.

(** The longest run of digits in [base] at the head of [s]: how many there
    are and their value. *)
Fixpoint read_digits (dv : char -> option Z) (base : Z) (acc : Z) (n : nat)
    (s : std_string) : nat * Z :=
  match s with
  | c :: s' =>
      match dv c with
      | Some d => read_digits dv base (acc * base + d)%Z (S n) s'
      | None => (n, acc)
      end
  | [] => (n, acc)
  end.

(** The subject sequence of [strtol]/[strtoull] in base 10: white space,
    an optional sign, at least one digit; the rest is ignored. *)
Definition parse_decimal (s : std_string) : option (bool * Z) :=
  let '(neg, s1) := take_sign (skip_space s) in
  match read_digits digit_val 10 0 O s1 with
  | (O, _) => None
  | (_, m) => Some (neg, m)
  end.

Definition INT_MAX : Z := 2147483647.
Definition INT_MIN : Z := -2147483648.
Definition ULLONG_MAX : Z := 18446744073709551615.

(** [std::stoi(s)]. *)
Definition stoi (s : std_string) : result Z :=
  match parse_decimal s with
  | None => Throw invalid_argument
  | Some (neg, m) =>
      let v := if neg then (- m)%Z else m in
      if (INT_MIN <=? v)%Z && (v <=? INT_MAX)%Z then Ok v else Throw out_of_range
  end.

(** [std::stoull(s)]: a minus sign negates in the unsigned type. *)
Definition stoull (s : std_string) : result Z :=
  match parse_decimal s with
  | None => Throw invalid_argument
  | Some (neg, m) =>
      if (m <=? ULLONG_MAX)%Z then Ok (if neg then wrap (- m) else m)
      else Throw out_of_range
  end.

(** [std::istringstream iss(s); iss >> std::hex >> v] for an [int] v:
    [Some v] when the extraction succeeds, [None] when it sets failbit.
    Leading white space is skipped, a sign and a [0x] prefix are accepted,
    and the digits are read as far as they go. *)
Definition strip_0x (s : std_string) : std_string :=
  match s with
  | z :: x :: s' =>
      if char_eqb z "0" && (char_eqb x "x" || char_eqb x "X") then s' else s
  | _ => s
  end.

Definition extract_hex_int (s : std_string) : option Z :=
  let '(neg, s1) := take_sign (skip_space s) in
  match read_digits xdigit_val 16 0 O (strip_0x s1) with
  | (O, _) => None
  | (_, m) =>
      let v := if neg then (- m)%Z else m in
      if (INT_MIN <=? v)%Z && (v <=? INT_MAX)%Z then Some v else None
  end.

(** [os << std::hex << std::uppercase << std::setw(w) << n] with fill
    character [fill], for [0 <= n]. *)
Definition hex_digit_upper (d : Z) : char :=
  if (d <? 10)%Z then ascii_of_N (Z.to_N (48 + d)) else ascii_of_N (Z.to_N (55 + d)).

Fixpoint hex_upper_pos (p : positive) (n : Z) (acc : std_string) : std_string :=
  if (n =? 0)%Z then acc
  else match p with
       | xH => hex_digit_upper (n mod 16) :: acc
       | xO p' | xI p' =>
           hex_upper_pos p' (n / 16) (hex_digit_upper (n mod 16) :: acc)
       end.

Definition hex_upper (n : Z) : std_string :=
  if (n =? 0)%Z then ["0"%char] else hex_upper_pos (Z.to_pos n) n [].

Definition pad_left (w : nat) (fill : char) (s : std_string) : std_string :=
  replicate (w - length s) fill ++ s.

(** [std::to_string(n)] for an unsigned n. *)
Definition to_string (n : Z) : std_string :=
  lit (NilZero.string_of_uint (N.to_uint (Z.to_N n))).

(** [std::getline(is, item, delim)] on the unread part of a string stream:
    [None] when nothing is left (the call fails), else the item and what
    remains after the delimiter. *)
Fixpoint getline_split (delim : char) (s : std_string) : std_string * std_string :=
  match s with
  | [] => ([], [])
  | c :: s' =>
      if char_eqb c delim then ([], s')
      else let '(item, rest) := getline_split delim s' in (c :: item, rest)
  end.

Definition getline (iss : std_string) (delim : char) : option (std_string * std_string) :=
  match iss with
  | [] => None
  | _ => Some (getline_split delim iss)
  end.

(** [std::to_string(n)] for a signed n. *)
Definition to_string_int (n : Z) : std_string :=
  if (n <? 0)%Z then "-"%char :: to_string (- n) else to_string n.

(** ** [int] arithmetic

    The result of an [int] operation, brought back into the range of a
    32-bit two's complement integer. *)
Definition int_wrap (z : Z) : Z := ((z + 2 ^ 31) mod 2 ^ 32 - 2 ^ 31)%Z.

(** ** Iteration over a [std::map<std::string, std::string>]

    The entries are visited in the order of their keys, which
    [std::string] compares byte by byte as unsigned values. *)
Fixpoint str_ltb (a b : std_string) : bool :=
  match a, b with
  | _, [] => false
  | [], _ :: _ => true
  | x :: a', y :: b' =>
      (uchar_val x <? uchar_val y)%Z
      || ((uchar_val x =? uchar_val y)%Z && str_ltb a' b')
  end.

Definition key_le (p q : list ascii * list ascii) : Prop :=
  str_ltb (fst q) (fst p) = false.

Global Instance key_le_dec (p q : list ascii * list ascii) : Decision (key_le p q).
Proof. unfold key_le. apply _. Defined.

Definition map_items (m : gmap (list ascii) (list ascii))
    : list (list ascii * list ascii) :=
  merge_sort key_le (map_to_list m).

(** ** Utility functions *)

Definition tolower (c : char) : char :=
  if char_in_range "A" "Z" c then char_of_int (uchar_val c + 32) else c.

Definition toLower (str : std_string) : std_string := map tolower str.

Definition WHITESPACE : std_string := [SP; TAB; CR; LF].

Definition trim (str : std_string) : result std_string :=
  let start := find_first_not_of str WHITESPACE in
  if (start =? npos)%Z then Ok []
  else
    let end_ := find_last_not_of str WHITESPACE in
    substr str start (end_ - start + 1).

(** ** UrlEncoder *)

Module UrlEncoder.

Definition isAlphaNumeric (c : char) : bool :=
  char_in_range "a" "z" c || char_in_range "A" "Z" c || char_in_range "0" "9" c.

Definition unreserved (c : char) : bool :=
  isAlphaNumeric c || char_eqb c "-" || char_eqb c "_" || char_eqb c "."
  || char_eqb c "~".

(** What one iteration of the loop of [encode] appends. *)
Definition encode_char (c : char) : std_string :=
  if unreserved c then [c]
  else "%"%char :: pad_left 2 "0" (hex_upper (uchar_val c)).

Definition encode (value : std_string) : std_string :=
  flat_map encode_char value.

(** The loop of [decode]: [i] is the index, [decoded] the output so far. *)
Fixpoint decode_loop (fuel : nat) (value : std_string) (i : Z)
    (decoded : std_string) : result std_string :=
  if (i <? str_size value)%Z then
    match fuel with
    | O => OutOfFuel
    | S fuel' =>
        if char_eqb (str_at value i) "%" then
          if (i + 2 <? str_size value)%Z then
            do hex <- substr value (i + 1) 2;
            match extract_hex_int hex with
            | Some hexValue =>
                decode_loop fuel' value (i + 2 + 1) (decoded ++ [char_of_int hexValue])
            | None =>
                decode_loop fuel' value (i + 1) (decoded ++ [str_at value i])
            end
          else decode_loop fuel' value (i + 1) (decoded ++ [str_at value i])
        else if char_eqb (str_at value i) "+" then
          decode_loop fuel' value (i + 1) (decoded ++ [SP])
        else decode_loop fuel' value (i + 1) (decoded ++ [str_at value i])
    end
  else Ok decoded.

Definition decode (value : std_string) : result std_string :=
  decode_loop (length value) value 0 [].

(** The loop of [buildQueryString] over the entries still to be written. *)
Fixpoint buildQueryString_loop (params : list (list ascii * list ascii))
    (first : bool) (oss : std_string) : std_string :=
  match params with
  | [] => oss
  | param :: rest =>
      let oss := if negb first then oss ++ lit "&" else oss in
      buildQueryString_loop rest false
        (oss ++ encode (fst param) ++ lit "=" ++ encode (snd param))
  end.

Definition buildQueryString (params : gmap (list ascii) (list ascii)) : std_string :=
  buildQueryString_loop (map_items params) true [].

End UrlEncoder.


(** ** URL *)

Module URL.

Record t : Type := mk {
  scheme : std_string;
  host : std_string;
  port : Z;
  path : std_string;
  query : std_string;
  fragment : std_string
}.

(** [URL() : port(80) {}] *)
Definition init : t := mk [] [] 80 [] [] [].

Definition set_scheme (v : std_string) (u : t) : t :=
  mk v (host u) (port u) (path u) (query u) (fragment u).
Definition set_host (v : std_string) (u : t) : t :=
  mk (scheme u) v (port u) (path u) (query u) (fragment u).
Definition set_port (v : Z) (u : t) : t :=
  mk (scheme u) (host u) v (path u) (query u) (fragment u).
Definition set_path (v : std_string) (u : t) : t :=
  mk (scheme u) (host u) (port u) v (query u) (fragment u).
Definition set_query (v : std_string) (u : t) : t :=
  mk (scheme u) (host u) (port u) (path u) v (fragment u).
Definition set_fragment (v : std_string) (u : t) : t :=
  mk (scheme u) (host u) (port u) (path u) (query u) v.

(** "Parse scheme": the updated [result] and [temp]. *)
Definition parse_scheme (res : t) (temp : std_string) : result (t * std_string) :=
  let schemePos := find_str temp "://" in
  if negb (schemePos =? npos)%Z then
    do sch <- substr temp 0 schemePos;
    let res := set_scheme sch res in
    do temp' <- substr_from temp (schemePos + 3);
    if str_eqb (scheme res) "https" then Ok (set_port 443 res, temp')
    else Ok (res, temp')
  else Ok (res, temp).

(** The authority [hostPort] of the text that follows the scheme. *)
Definition host_port (temp : std_string) : result std_string :=
  let pathPos := find_char temp "/" in
  if negb (pathPos =? npos)%Z then substr temp 0 pathPos else Ok temp.

(** "Parse host and port". *)
Definition parse_authority (res : t) (hostPort : std_string) : result t :=
  let portPos := find_char hostPort ":" in
  if negb (portPos =? npos)%Z then
    do h <- substr hostPort 0 portPos;
    let res := set_host h res in
    do p <- substr_from hostPort (portPos + 1);
    do n <- stoi p;
    Ok (set_port n res)
  else Ok (set_host hostPort res).

(** "Parse path, query, and fragment". *)
Definition parse_path (res : t) (temp : std_string) : result t :=
  let pathPos := find_char temp "/" in
  if negb (pathPos =? npos)%Z then
    do temp <- substr_from temp pathPos;
    let queryPos := find_char temp "?" in
    let fragmentPos := find_char temp "#" in
    if negb (queryPos =? npos)%Z then
      do p <- substr temp 0 queryPos;
      let res := set_path p res in
      if negb (fragmentPos =? npos)%Z then
        do q <- substr temp (queryPos + 1) (wrap (fragmentPos - queryPos - 1));
        let res := set_query q res in
        do f <- substr_from temp (fragmentPos + 1);
        Ok (set_fragment f res)
      else
        do q <- substr_from temp (queryPos + 1);
        Ok (set_query q res)
    else if negb (fragmentPos =? npos)%Z then
      do p <- substr temp 0 fragmentPos;
      let res := set_path p res in
      do f <- substr_from temp (fragmentPos + 1);
      Ok (set_fragment f res)
    else Ok (set_path temp res)
  else Ok (set_path "/" res).

Definition parse (url : std_string) : result t :=
  do st <- parse_scheme init url;
  let res := fst st in
  let temp := snd st in
  do hostPort <- host_port temp;
  do res <- parse_authority res hostPort;
  parse_path res temp.

(** The authority segment of a URL, as [parse] isolates it. *)
Definition authority (url : std_string) : result std_string :=
  do st <- parse_scheme init url;
  host_port (snd st).

End URL.

(** ** Cookie *)

Module Cookie.

Record t : Type := mk {
  name : std_string;
  value : std_string;
  domain : std_string;
  path : std_string;
  secure : bool;
  httpOnly : bool;
  sameSite : std_string
}.

(** [Cookie() : secure(false), httpOnly(false) {}] *)
Definition init : t := mk [] [] [] [] false false [].

(** [Cookie(name, value)] *)
Definition make (name value : std_string) : t := mk name value [] [] false false [].

Definition set_name_value (n v : std_string) (c : t) : t :=
  mk n v (domain c) (path c) (secure c) (httpOnly c) (sameSite c).
Definition set_domain (v : std_string) (c : t) : t :=
  mk (name c) (value c) v (path c) (secure c) (httpOnly c) (sameSite c).
Definition set_path (v : std_string) (c : t) : t :=
  mk (name c) (value c) (domain c) v (secure c) (httpOnly c) (sameSite c).
Definition set_secure (v : bool) (c : t) : t :=
  mk (name c) (value c) (domain c) (path c) v (httpOnly c) (sameSite c).
Definition set_httpOnly (v : bool) (c : t) : t :=
  mk (name c) (value c) (domain c) (path c) (secure c) v (sameSite c).
Definition set_sameSite (v : std_string) (c : t) : t :=
  mk (name c) (value c) (domain c) (path c) (secure c) (httpOnly c) v.

(** "Parse name=value first": the body of the [if] on the first item. *)
Definition parse_name_value (item : std_string) (cookie : t) : result t :=
  let equalPos := find_char item "=" in
  if negb (equalPos =? npos)%Z then
    do n <- substr item 0 equalPos;
    do n <- trim n;
    do v <- substr_from item (equalPos + 1);
    do v <- trim v;
    Ok (set_name_value n v cookie)
  else Ok cookie.

(** "Parse attributes": the body of the [while] loop. *)
Definition parse_attribute (item : std_string) (cookie : t) : result t :=
  do item <- trim item;
  if (find_str item "Domain=" =? 0)%Z then
    do v <- substr_from item 7; Ok (set_domain v cookie)
  else if (find_str item "Path=" =? 0)%Z then
    do v <- substr_from item 5; Ok (set_path v cookie)
  else if str_eqb item "Secure" then Ok (set_secure true cookie)
  else if str_eqb item "HttpOnly" then Ok (set_httpOnly true cookie)
  else if (find_str item "SameSite=" =? 0)%Z then
    do v <- substr_from item 9; Ok (set_sameSite v cookie)
  else Ok cookie.

(** The [while (std::getline(iss, item, ';'))] loop on the unread part
    [iss] of the stream. *)
Fixpoint parse_attributes (fuel : nat) (iss : std_string) (cookie : t) : result t :=
  match getline iss ";" with
  | None => Ok cookie
  | Some (item, iss') =>
      match fuel with
      | O => OutOfFuel
      | S fuel' =>
          do cookie <- parse_attribute item cookie;
          parse_attributes fuel' iss' cookie
      end
  end.

Definition parse (cookieString : std_string) : result t :=
  let cookie := init in
  match getline cookieString ";" with
  | Some (item, iss) =>
      do cookie <- parse_name_value item cookie;
      parse_attributes (length cookieString) iss cookie
  | None => parse_attributes (length cookieString) cookieString cookie
  end.

Definition toString (c : t) : std_string :=
  let oss := name c ++ lit "=" ++ value c in
  let oss := if negb (bool_decide (domain c = [])) then oss ++ lit "; Domain=" ++ domain c
             else oss in
  let oss := if negb (bool_decide (path c = [])) then oss ++ lit "; Path=" ++ path c
             else oss in
  let oss := if secure c then oss ++ lit "; Secure" else oss in
  let oss := if httpOnly c then oss ++ lit "; HttpOnly" else oss in
  let oss := if negb (bool_decide (sameSite c = [])) then oss ++ lit "; SameSite=" ++ sameSite c
             else oss in
  oss.

End Cookie.

(** ** Enumerations *)

Inductive Method : Type :=
| GET | POST | PUT | DELETE_METHOD | HEAD | OPTIONS | PATCH | TRACE | CONNECT.

Inductive ContentType : Type :=
| TextPlain | TextHtml | ApplicationJson | ApplicationXml
| ApplicationFormUrlencoded | MultipartFormData | ApplicationOctetStream
| ImagePng | ImageJpeg | ImageGif.

Definition getContentTypeString (type : ContentType) : std_string :=
  match type with
  | TextPlain => lit "text/plain"
  | TextHtml => lit "text/html"
  | ApplicationJson => lit "application/json"
  | ApplicationXml => lit "application/xml"
  | ApplicationFormUrlencoded => lit "application/x-www-form-urlencoded"
  | MultipartFormData => lit "multipart/form-data"
  | ApplicationOctetStream => lit "application/octet-stream"
  | ImagePng => lit "image/png"
  | ImageJpeg => lit "image/jpeg"
  | ImageGif => lit "image/gif"
  end.

(** [try { m } catch (...) { h }] *)
Definition try_catch_all {A : Type} (m : result A) (h : result A) : result A :=
  match m with
  | Throw _ => h
  | r => r
  end.

(** ** FormData *)

Module FormData.

Record t : Type := mk {
  fields_ : gmap (list ascii) (list ascii);
  boundary_ : std_string
}.

(** [FormData()]: [now] is the reading
    [steady_clock::now().time_since_epoch().count()]. *)
Definition make (now : Z) : t :=
  mk ∅ (lit "----FastHTTPBoundary" ++ to_string_int now).

Definition addField (name value : std_string) (f : t) : t :=
  mk (<[name := value]> (fields_ f)) (boundary_ f).

Definition getBoundary (f : t) : std_string := boundary_ f.

Definition getContentType (f : t) : std_string :=
  lit "multipart/form-data; boundary=" ++ boundary_ f.

Definition CRLF : std_string := [CR; LF].
Definition DQUOTE : char := "034"%char.

(** What the loop of [encode] writes for one field. *)
Definition encode_field (boundary : std_string) (field : list ascii * list ascii)
    : std_string :=
  lit "--" ++ boundary ++ CRLF
  ++ lit "Content-Disposition: form-data; name=" ++ [DQUOTE] ++ fst field
  ++ [DQUOTE] ++ CRLF ++ CRLF
  ++ snd field ++ CRLF.

Definition encode (f : t) : std_string :=
  flat_map (encode_field (boundary_ f)) (map_items (fields_ f))
  ++ lit "--" ++ boundary_ f ++ lit "--" ++ CRLF.

End FormData.

(** ** HttpResponse *)

Module HttpResponse.

Record t : Type := mk {
  statusCode_ : Z;
  statusMessage_ : std_string;
  headers_ : gmap (list ascii) (list ascii);
  body_ : std_string;
  cookies_ : list Cookie.t
}.

(** [HttpResponse() : statusCode_(0) {}] *)
Definition init : t := mk 0 [] ∅ [] [].

Definition setBody (body : std_string) (r : t) : t :=
  mk (statusCode_ r) (statusMessage_ r) (headers_ r) body (cookies_ r).

Definition setHeader (key value : std_string) (r : t) : result t :=
  let lowerKey := toLower key in
  let r := mk (statusCode_ r) (statusMessage_ r)
              (<[lowerKey := value]> (headers_ r)) (body_ r) (cookies_ r) in
  if str_eqb lowerKey "set-cookie" then
    do c <- Cookie.parse value;
    Ok (mk (statusCode_ r) (statusMessage_ r) (headers_ r) (body_ r)
           (cookies_ r ++ [c]))
  else Ok r.

Definition getHeader (key : std_string) (r : t) : std_string :=
  match headers_ r !! toLower key with
  | Some v => v
  | None => []
  end.

Definition hasHeader (key : std_string) (r : t) : bool :=
  bool_decide (is_Some (headers_ r !! toLower key)).

(** The loop of [getCookie] and of [hasCookie] over [cookies_]. *)
Fixpoint find_cookie (name : std_string) (cookies : list Cookie.t) : option Cookie.t :=
  match cookies with
  | [] => None
  | cookie :: rest =>
      if str_eqb (Cookie.name cookie) name then Some cookie
      else find_cookie name rest
  end.

Definition getCookie (name : std_string) (r : t) : Cookie.t :=
  match find_cookie name (cookies_ r) with
  | Some cookie => cookie
  | None => Cookie.init
  end.

Definition hasCookie (name : std_string) (r : t) : bool :=
  match find_cookie name (cookies_ r) with
  | Some _ => true
  | None => false
  end.

Definition getContentLength (r : t) : result Z :=
  let lengthStr := getHeader "content-length" r in
  if negb (bool_decide (lengthStr = [])) then
    try_catch_all (stoull lengthStr) (Ok 0%Z)
  else Ok (str_size (body_ r)).

Definition getCookiesByName (name : std_string) (r : t) : list Cookie.t :=
  filter (fun cookie => Cookie.name cookie = name) (cookies_ r).

Definition isSuccess (r : t) : bool :=
  (200 <=? statusCode_ r)%Z && (statusCode_ r <? 300)%Z.
Definition isRedirect (r : t) : bool :=
  (300 <=? statusCode_ r)%Z && (statusCode_ r <? 400)%Z.
Definition isClientError (r : t) : bool :=
  (400 <=? statusCode_ r)%Z && (statusCode_ r <? 500)%Z.
Definition isServerError (r : t) : bool :=
  (500 <=? statusCode_ r)%Z && (statusCode_ r <? 600)%Z.
Definition isInformational (r : t) : bool :=
  (100 <=? statusCode_ r)%Z && (statusCode_ r <? 200)%Z.

Definition getStatusCategory (r : t) : std_string :=
  if isInformational r then lit "Informational"
  else if isSuccess r then lit "Success"
  else if isRedirect r then lit "Redirect"
  else if isClientError r then lit "Client Error"
  else if isServerError r then lit "Server Error"
  else lit "Unknown".

Definition getContentType (r : t) : std_string := getHeader "content-type" r.
Definition getContentEncoding (r : t) : std_string := getHeader "content-encoding" r.

Definition isJson (r : t) : bool :=
  negb (find_str (getContentType r) "application/json" =? npos)%Z.
Definition isXml (r : t) : bool :=
  negb (find_str (getContentType r) "application/xml" =? npos)%Z
  || negb (find_str (getContentType r) "text/xml" =? npos)%Z.
Definition isHtml (r : t) : bool :=
  negb (find_str (getContentType r) "text/html" =? npos)%Z.

End HttpResponse.

(** ** base64Encode

    [HttpRequest] and [RequestBuilder] each have a private copy of this
    function, with the same text; [val] and [valb] are [int]s, and the
    shift [val << 8] keeps the low 32 bits. *)

Definition BASE64_CHARS : std_string :=
  lit "ABCDEFGHIJKLMNOPQRSTUVWXYZabcdefghijklmnopqrstuvwxyz0123456789+/".

(** [while (valb >= 0) { encoded.push_back(chars[(val >> valb) & 0x3F]);
    valb -= 6; }]: the final [valb] and [encoded]. *)
Fixpoint base64_while (fuel : nat) (val valb : Z) (encoded : std_string)
    : result (Z * std_string) :=
  if (0 <=? valb)%Z then
    match fuel with
    | O => OutOfFuel
    | S fuel' =>
        base64_while fuel' val (int_wrap (valb - 6))
          (encoded ++ [str_at BASE64_CHARS (Z.land (Z.shiftr val valb) 63)])
    end
  else Ok (valb, encoded).

(** The [for (unsigned char c : input)] loop. *)
Fixpoint base64_for (input : std_string) (val valb : Z) (encoded : std_string)
    : result (Z * Z * std_string) :=
  match input with
  | [] => Ok (val, valb, encoded)
  | c :: rest =>
      let val := int_wrap (int_wrap (Z.shiftl val 8) + uchar_val c) in
      let valb := int_wrap (valb + 8) in
      do st <- base64_while (Z.to_nat (valb + 1)) val valb encoded;
      base64_for rest val (fst st) (snd st)
  end.

(** [while (encoded.size() % 4) encoded.push_back('=');] *)
Fixpoint base64_pad (fuel : nat) (encoded : std_string) : result std_string :=
  if negb (str_size encoded mod 4 =? 0)%Z then
    match fuel with
    | O => OutOfFuel
    | S fuel' => base64_pad fuel' (encoded ++ ["="%char])
    end
  else Ok encoded.

Definition base64Encode (input : std_string) : result std_string :=
  do st <- base64_for input 0 (-6) [];
  let val := fst (fst st) in
  let valb := snd (fst st) in
  let encoded := snd st in
  let encoded :=
    if (-6 <? valb)%Z then
      encoded ++ [str_at BASE64_CHARS
                    (Z.land (Z.shiftr (int_wrap (Z.shiftl val 8)) (int_wrap (valb + 8))) 63)]
    else encoded in
  base64_pad 4 encoded.

(** ** HttpRequest *)

Module HttpRequest.

Record t : Type := mk {
  method_ : Method;
  url_ : std_string;
  headers_ : gmap (list ascii) (list ascii);
  body_ : std_string;
  timeout_ : Z;
  cookies_ : list Cookie.t
}.

(** [HttpRequest(method, url)], with [timeout_(30000)]. *)
Definition make (method : Method) (url : std_string) : t :=
  mk method url ∅ [] 30000 [].

Definition setBody (body : std_string) (r : t) : t :=
  mk (method_ r) (url_ r) (headers_ r) body (timeout_ r) (cookies_ r).

Definition setTimeout (timeoutMs : Z) (r : t) : t :=
  mk (method_ r) (url_ r) (headers_ r) (body_ r) timeoutMs (cookies_ r).

Definition setHeader (key value : std_string) (r : t) : t :=
  mk (method_ r) (url_ r) (<[key := value]> (headers_ r)) (body_ r)
     (timeout_ r) (cookies_ r).

Definition getHeader (key : std_string) (r : t) : std_string :=
  match headers_ r !! key with
  | Some v => v
  | None => []
  end.

Definition hasHeader (key : std_string) (r : t) : bool :=
  bool_decide (is_Some (headers_ r !! key)).

Definition setMethod (method : Method) (r : t) : t :=
  mk method (url_ r) (headers_ r) (body_ r) (timeout_ r) (cookies_ r).

Definition setUrl (url : std_string) (r : t) : t :=
  mk (method_ r) url (headers_ r) (body_ r) (timeout_ r) (cookies_ r).

Definition addHeader (key value : std_string) (r : t) : t := setHeader key value r.

Definition addCookie (cookie : Cookie.t) (r : t) : t :=
  mk (method_ r) (url_ r) (headers_ r) (body_ r) (timeout_ r) (cookies_ r ++ [cookie]).

(** The overload [addCookie(name, value)]. *)
Definition addCookieNV (name value : std_string) (r : t) : t :=
  addCookie (Cookie.make name value) r.

(** The overload [setContentType(const std::string&)]. *)
Definition setContentTypeString (contentType : std_string) (r : t) : t :=
  setHeader "Content-Type" contentType r.

Definition setContentType (type : ContentType) (r : t) : t :=
  setContentTypeString (getContentTypeString type) r.

Definition setJsonContent (r : t) : t := setContentType ApplicationJson r.
Definition setFormContent (r : t) : t := setContentType ApplicationFormUrlencoded r.

Definition setBasicAuth (username password : std_string) (r : t) : result t :=
  let credentials := username ++ lit ":" ++ password in
  do encoded <- base64Encode credentials;
  Ok (setHeader "Authorization" (lit "Basic " ++ encoded) r).

Definition setBearerToken (token : std_string) (r : t) : t :=
  setHeader "Authorization" (lit "Bearer " ++ token) r.

End HttpRequest.

(** ** RequestBuilder *)

Module RequestBuilder.

Record t : Type := mk {
  method_ : Method;
  url_ : std_string;
  headers_ : gmap (list ascii) (list ascii);
  body_ : std_string;
  timeout_ : Z;
  cookies_ : list Cookie.t
}.

(** [RequestBuilder(method, url)], with [timeout_(30000)]. *)
Definition make (method : Method) (url : std_string) : t :=
  mk method url ∅ [] 30000 [].

Definition addHeader (key value : std_string) (b : t) : t :=
  mk (method_ b) (url_ b) (<[key := value]> (headers_ b)) (body_ b)
     (timeout_ b) (cookies_ b).

Definition setContentType (type : ContentType) (b : t) : t :=
  addHeader "Content-Type" (getContentTypeString type) b.

Definition setBody (body : std_string) (b : t) : t :=
  let b := mk (method_ b) (url_ b) (headers_ b) body (timeout_ b) (cookies_ b) in
  if negb (bool_decide (body = [])) then
    addHeader "Content-Length" (to_string (str_size body)) b
  else b.

Definition setJsonBody (json : std_string) (b : t) : t :=
  setBody json (setContentType ApplicationJson b).

Definition setTimeout (timeoutMs : Z) (b : t) : t :=
  mk (method_ b) (url_ b) (headers_ b) (body_ b) timeoutMs (cookies_ b).

Definition addCookie (cookie : Cookie.t) (b : t) : t :=
  mk (method_ b) (url_ b) (headers_ b) (body_ b) (timeout_ b)
     (cookies_ b ++ [cookie]).

(** The overload [addCookie(name, value)]. *)
Definition addCookieNV (name value : std_string) (b : t) : t :=
  addCookie (Cookie.make name value) b.

(** The loop of [build] that writes [cookieHeader]: [i] is the index of
    the first of the cookies still to be written. *)
Fixpoint cookie_header_loop (cookies : list Cookie.t) (i : Z)
    (cookieHeader : std_string) : std_string :=
  match cookies with
  | [] => cookieHeader
  | c :: rest =>
      let cookieHeader :=
        if (0 <? i)%Z then cookieHeader ++ lit "; " else cookieHeader in
      cookie_header_loop rest (i + 1)
        (cookieHeader ++ Cookie.name c ++ lit "=" ++ Cookie.value c)
  end.

Definition build (b : t) : HttpRequest.t :=
  let request := HttpRequest.make (method_ b) (url_ b) in
  let request :=
    map_fold (fun key value req => HttpRequest.setHeader key value req)
             request (headers_ b) in
  let request :=
    if negb (bool_decide (cookies_ b = [])) then
      HttpRequest.setHeader "Cookie" (cookie_header_loop (cookies_ b) 0 []) request
    else request in
  let request := HttpRequest.setBody (body_ b) request in
  HttpRequest.setTimeout (timeout_ b) request.

Definition setFormData (formData : FormData.t) (b : t) : t :=
  setBody (FormData.encode formData)
          (addHeader "Content-Type" (FormData.getContentType formData) b).

Definition setFormUrlEncoded (params : gmap (list ascii) (list ascii)) (b : t) : t :=
  setBody (UrlEncoder.buildQueryString params)
          (setContentType ApplicationFormUrlencoded b).

Definition addQueryParam (key value : std_string) (b : t) : t :=
  let separator :=
    if negb (find_char (url_ b) "?" =? npos)%Z then lit "&" else lit "?" in
  mk (method_ b)
     (url_ b ++ separator ++ UrlEncoder.encode key ++ lit "=" ++ UrlEncoder.encode value)
     (headers_ b) (body_ b) (timeout_ b) (cookies_ b).

Definition addQueryParams (params : gmap (list ascii) (list ascii)) (b : t) : t :=
  fold_left (fun b param => addQueryParam (fst param) (snd param) b)
            (map_items params) b.

Definition setBasicAuth (username password : std_string) (b : t) : result t :=
  let credentials := username ++ lit ":" ++ password in
  do encoded <- base64Encode credentials;
  Ok (addHeader "Authorization" (lit "Basic " ++ encoded) b).

Definition setBearerToken (token : std_string) (b : t) : t :=
  addHeader "Authorization" (lit "Bearer " ++ token) b.

End RequestBuilder.

(** ** HttpClient *)

Module HttpClient.

(** The body of the [while (std::getline(iss, line))] loop of
    [parseHeaders]. *)
Definition parse_header_line (line : std_string) (response : HttpResponse.t)
    : result HttpResponse.t :=
  do line <- trim line;
  if bool_decide (line = []) then Ok response
  else
    let colonPos := find_char line ":" in
    if negb (colonPos =? npos)%Z then
      do k <- substr line 0 colonPos;
      do key <- trim k;
      do v <- substr_from line (colonPos + 1);
      do value <- trim v;
      HttpResponse.setHeader key value response
    else Ok response.

Fixpoint parse_header_lines (fuel : nat) (iss : std_string)
    (response : HttpResponse.t) : result HttpResponse.t :=
  match getline iss LF with
  | None => Ok response
  | Some (line, iss') =>
      match fuel with
      | O => OutOfFuel
      | S fuel' =>
          do response <- parse_header_line line response;
          parse_header_lines fuel' iss' response
      end
  end.

Definition parseHeaders (headerText : std_string) (response : HttpResponse.t)
    : result HttpResponse.t :=
  parse_header_lines (length headerText) headerText response.

End HttpClient.

(** * Specification-level definitions

    The definitions of this part restate, in the words of the
    specification, what the functions above are expected to compute; the
    theorems compare the two. *)

(** The unreserved set [[A-Za-z0-9\-_.~]]. *)
Definition unreserved_set : std_string :=
  lit "ABCDEFGHIJKLMNOPQRSTUVWXYZabcdefghijklmnopqrstuvwxyz0123456789-_.~".

Definition UPPER_HEX : std_string := lit "0123456789ABCDEF".

Definition upper_hex_digit (d : Z) : char :=
  match UPPER_HEX !! Z.to_nat d with
  | Some c => c
  | None => "0"%char
  end.

(** [%XX] for a byte: the two uppercase hex digits of its value. *)
Definition percent_XX (c : char) : std_string :=
  ["%"%char; upper_hex_digit (uchar_val c / 16); upper_hex_digit (uchar_val c mod 16)].

Definition encode_spec (s : std_string) : std_string :=
  flat_map (fun c => if mem_char c unreserved_set then [c] else percent_XX c) s.

(** The loop of [UrlEncoder::decode] read on the part of the input not yet
    consumed. *)
Fixpoint decode_rest (s : std_string) : std_string :=
  match s with
  | [] => []
  | c :: rest =>
      if char_eqb c "%" then
        match rest with
        | a :: b :: rest' =>
            match extract_hex_int [a; b] with
            | Some hexValue => char_of_int hexValue :: decode_rest rest'
            | None => c :: decode_rest rest
            end
        | _ => c :: decode_rest rest
        end
      else if char_eqb c "+" then SP :: decode_rest rest
      else c :: decode_rest rest
  end.

(** Trimming surrounding white space (space, tab, CR, LF). *)
Definition is_trim_space (c : char) : bool := mem_char c WHITESPACE.

Fixpoint strip_left (s : std_string) : std_string :=
  match s with
  | c :: s' => if is_trim_space c then strip_left s' else s
  | [] => []
  end.

Fixpoint strip_right (s : std_string) : std_string :=
  match s with
  | [] => []
  | c :: s' =>
      match strip_right s' with
      | [] => if is_trim_space c then [] else [c]
      | t => c :: t
      end
  end.

Definition trim_spec (s : std_string) : std_string := strip_right (strip_left s).

(** Splitting on a delimiter: the segments between its occurrences. *)
Fixpoint split_on (d : char) (s : std_string) : list std_string :=
  match s with
  | [] => [[]]
  | c :: s' =>
      if char_eqb c d then [] :: split_on d s'
      else match split_on d s' with
           | seg :: segs => (c :: seg) :: segs
           | [] => [[c]]
           end
  end.

(** [Some] of the suffix when [p] is a prefix of [s]. *)
Definition strip_prefix (p s : std_string) : option std_string :=
  if prefixb p s then Some (drop (length p) s) else None.

(** The first segment, [name=value], both sides trimmed; a segment with no
    ['='] sets nothing. *)
Definition name_value_spec (seg : std_string) (c : Cookie.t) : Cookie.t :=
  match index_char "=" seg with
  | Some i =>
      Cookie.set_name_value (trim_spec (take i seg)) (trim_spec (drop (S i) seg)) c
  | None => c
  end.

(** A later segment, trimmed: one of the prefixes [Domain=], [Path=],
    [SameSite=], or one of the flags [Secure], [HttpOnly], compared as they
    are written; anything else is ignored. *)
Definition attribute_spec (c : Cookie.t) (seg : std_string) : Cookie.t :=
  let item := trim_spec seg in
  match strip_prefix "Domain=" item with
  | Some v => Cookie.set_domain v c
  | None =>
  match strip_prefix "Path=" item with
  | Some v => Cookie.set_path v c
  | None =>
  match strip_prefix "SameSite=" item with
  | Some v => Cookie.set_sameSite v c
  | None =>
      if str_eqb item "Secure" then Cookie.set_secure true c
      else if str_eqb item "HttpOnly" then Cookie.set_httpOnly true c
      else c
  end end end.

Definition cookie_parse_spec (s : std_string) : Cookie.t :=
  match split_on ";" s with
  | first :: rest => fold_left attribute_spec rest (name_value_spec first Cookie.init)
  | [] => Cookie.init
  end.

(** A sequence of [setHeader] calls on a response, first call first. *)
Definition set_headers (kvs : list (list ascii * list ascii)) (r : HttpResponse.t)
    : result HttpResponse.t :=
  fold_left (fun acc kv => do r <- acc; HttpResponse.setHeader (fst kv) (snd kv) r)
            kvs (Ok r).

(** What such a sequence is expected to store: every value under its
    lowercased key, a later one replacing an earlier one ... *)
Definition stored_headers (kvs : list (list ascii * list ascii))
    (m : gmap (list ascii) (list ascii)) : gmap (list ascii) (list ascii) :=
  fold_left (fun m kv => <[toLower (fst kv) := snd kv]> m) kvs m.

(** ... and one parsed cookie for every [set-cookie] among them, in order. *)
Definition is_set_cookie (kv : list ascii * list ascii) : bool :=
  str_eqb (toLower (fst kv)) "set-cookie".

Definition parsed_cookies (kvs : list (list ascii * list ascii)) : list Cookie.t :=
  flat_map (fun kv => match Cookie.parse (snd kv) with
                      | Ok c => [c]
                      | _ => []
                      end)
           (filter (fun kv => is_set_cookie kv = true) kvs).

(** The facts about one byte that the round trip needs, as a test that
    can be run on each of the 256 bytes. *)
Definition encode_char_check (c : char) : bool :=
  if mem_char c unreserved_set then
    str_eqb (UrlEncoder.encode_char c) [c]
    && negb (char_eqb c "%") && negb (char_eqb c "+")
  else
    str_eqb (UrlEncoder.encode_char c) (percent_XX c)
    && bool_decide (extract_hex_int (tail (percent_XX c)) = Some (uchar_val c)).

(** The [Cookie] request header: [name=value] pairs joined with ["; "]. *)
Definition cookie_pair (c : Cookie.t) : std_string :=
  Cookie.name c ++ lit "=" ++ Cookie.value c.

Fixpoint join_with (sep : std_string) (parts : list (list ascii)) : std_string :=
  match parts with
  | [] => []
  | p :: rest =>
      match rest with
      | [] => p
      | _ :: _ => p ++ sep ++ join_with sep rest
      end
  end.

Definition cookie_header_spec (cookies : list Cookie.t) : std_string :=
  join_with "; " (map cookie_pair cookies).

(** A sequence of [addCookie] calls on a builder, first call first. *)
Definition add_cookies (cs : list Cookie.t) (b : RequestBuilder.t) : RequestBuilder.t :=
  fold_left (fun b c => RequestBuilder.addCookie c b) cs b.

(** The 256 bytes, for the facts that are checked byte by byte. *)
Definition all_chars : list ascii := map ascii_of_nat (seq 0 256).

Definition for_all_chars (p : char -> bool) : bool := forallb p all_chars.

(** A well-formed escape: two hex digits are read as the byte they name. *)
Definition well_formed_escape_check (a b : char) : bool :=
  match xdigit_val a, xdigit_val b with
  | Some x, Some y => bool_decide (extract_hex_int [a; b] = Some (16 * x + y)%Z)
  | _, _ => true
  end.

Definition tolower_idempotent_check (c : char) : bool :=
  char_eqb (tolower (tolower c)) (tolower c).

(** What [encode] may emit for one byte: unreserved bytes and ['%'], one
    byte or three. *)
Definition encode_char_alphabet_check (c : char) : bool :=
  forallb (fun ch => mem_char ch unreserved_set || char_eqb ch "%")
          (UrlEncoder.encode_char c)
  && (Nat.leb 1 (length (UrlEncoder.encode_char c)))
  && (Nat.leb (length (UrlEncoder.encode_char c)) 3).

(** Only white space that [trim] removes. *)
Definition all_space (s : std_string) : Prop := forallb is_trim_space s = true.

(** One entry of a query string, and a sequence of [addQueryParam] calls
    on a builder, first call first. *)
Definition query_pair (kv : list ascii * list ascii) : std_string :=
  UrlEncoder.encode (fst kv) ++ lit "=" ++ UrlEncoder.encode (snd kv).

Definition add_query_params (kvs : list (list ascii * list ascii))
    (b : RequestBuilder.t) : RequestBuilder.t :=
  fold_left (fun b kv => RequestBuilder.addQueryParam (fst kv) (snd kv) b) kvs b.

(** Base64 as RFC 4648 describes it: three bytes give four characters of
    the alphabet, each for six bits; one or two bytes left over give two
    or three characters and are padded with ['='] to four. *)
Definition base64_char (n : Z) : char := str_at BASE64_CHARS n.

Fixpoint base64_spec (s : std_string) : std_string :=
  match s with
  | [] => []
  | a :: s1 =>
      let x := uchar_val a in
      match s1 with
      | [] => [base64_char (x / 4); base64_char (x mod 4 * 16); "="%char; "="%char]
      | b :: s2 =>
          let y := uchar_val b in
          match s2 with
          | [] => [base64_char (x / 4); base64_char (x mod 4 * 16 + y / 16);
                   base64_char (y mod 16 * 4); "="%char]
          | c :: rest =>
              let z := uchar_val c in
              [base64_char (x / 4); base64_char (x mod 4 * 16 + y / 16);
               base64_char (y mod 16 * 4 + z / 64); base64_char (z mod 64)]
              ++ base64_spec rest
          end
      end
  end.

(** One step of the accumulator of [base64Encode]: [val = (val << 8) + c]. *)
Definition base64_shift_in (val : Z) (c : char) : Z :=
  int_wrap (int_wrap (Z.shiftl val 8) + uchar_val c).

(** What [base64Encode] does after its [for] loop. *)
Definition base64_finish (st : Z * Z * std_string) : result std_string :=
  let val := fst (fst st) in
  let valb := snd (fst st) in
  let encoded := snd st in
  let encoded :=
    if (-6 <? valb)%Z then
      encoded ++ [str_at BASE64_CHARS
                    (Z.land (Z.shiftr (int_wrap (Z.shiftl val 8)) (int_wrap (valb + 8))) 63)]
    else encoded in
  base64_pad 4 encoded.

(** The cookies that [toString] and [parse] carry unchanged: no field
    holds a [';'], the name holds no ['='], name and value have no white
    space around them and the attribute values none at their end. *)
Definition cookie_well_formed (c : Cookie.t) : Prop :=
  ~ In ";"%char (Cookie.name c) /\ ~ In "="%char (Cookie.name c)
  /\ trim_spec (Cookie.name c) = Cookie.name c
  /\ ~ In ";"%char (Cookie.value c) /\ trim_spec (Cookie.value c) = Cookie.value c
  /\ ~ In ";"%char (Cookie.domain c) /\ strip_right (Cookie.domain c) = Cookie.domain c
  /\ ~ In ";"%char (Cookie.path c) /\ strip_right (Cookie.path c) = Cookie.path c
  /\ ~ In ";"%char (Cookie.sameSite c)
  /\ strip_right (Cookie.sameSite c) = Cookie.sameSite c.

(** The attributes that [toString] writes after [name=value]. *)
Definition cookie_attrs (c : Cookie.t) : list (list ascii) :=
  (if bool_decide (Cookie.domain c = []) then [] else [lit "Domain=" ++ Cookie.domain c])
  ++ (if bool_decide (Cookie.path c = []) then [] else [lit "Path=" ++ Cookie.path c])
  ++ (if Cookie.secure c then [lit "Secure"] else [])
  ++ (if Cookie.httpOnly c then [lit "HttpOnly"] else [])
  ++ (if bool_decide (Cookie.sameSite c = []) then []
      else [lit "SameSite=" ++ Cookie.sameSite c]).

(** A block of response headers as it comes off the wire: a status line,
    one [key: value] line per header and an empty line, each ended by
    CR LF. *)
Definition header_line (kv : list ascii * list ascii) : std_string :=
  fst kv ++ lit ": " ++ snd kv ++ [CR; LF].

Definition header_text (status : std_string) (kvs : list (list ascii * list ascii))
    : std_string :=
  status ++ [CR; LF] ++ flat_map header_line kvs ++ [CR; LF].

(** Keys and values that such a block carries unchanged: no line feed, no
    [':'] in the key, no white space around either. *)
Definition header_field_ok (kv : list ascii * list ascii) : Prop :=
  ~ In ":"%char (fst kv) /\ ~ In LF (fst kv) /\ trim_spec (fst kv) = fst kv
  /\ ~ In LF (snd kv) /\ trim_spec (snd kv) = snd kv.

(** The value of a sequence of decimal digits read from the left, as
    [strtol] accumulates it. *)
Fixpoint uint_val (acc : Z) (d : Decimal.uint) : Z :=
  match d with
  | Decimal.Nil => acc
  | Decimal.D0 d => uint_val (acc * 10 + 0) d
  | Decimal.D1 d => uint_val (acc * 10 + 1) d
  | Decimal.D2 d => uint_val (acc * 10 + 2) d
  | Decimal.D3 d => uint_val (acc * 10 + 3) d
  | Decimal.D4 d => uint_val (acc * 10 + 4) d
  | Decimal.D5 d => uint_val (acc * 10 + 5) d
  | Decimal.D6 d => uint_val (acc * 10 + 6) d
  | Decimal.D7 d => uint_val (acc * 10 + 7) d
  | Decimal.D8 d => uint_val (acc * 10 + 8) d
  | Decimal.D9 d => uint_val (acc * 10 + 9) d
  end.

(** A URL written out from its parts, with an explicit port. *)
Definition url_text (u : URL.t) : std_string :=
  URL.scheme u ++ lit "://" ++ URL.host u ++ lit ":" ++ to_string (URL.port u)
  ++ URL.path u ++ lit "?" ++ URL.query u ++ lit "#" ++ URL.fragment u.

(** The parts that can be told apart again: no [':'] in the scheme, no
    [':'] or ['/'] in the host, a port that an [int] holds, a path that
    begins with ['/'] and has no ['?'] or ['#'], no ['#'] in the query. *)
Definition url_well_formed (u : URL.t) : Prop :=
  ~ In ":"%char (URL.scheme u)
  /\ ~ In ":"%char (URL.host u) /\ ~ In "/"%char (URL.host u)
  /\ (0 <= URL.port u <= INT_MAX)%Z
  /\ (exists rest, URL.path u = "/"%char :: rest)
  /\ ~ In "?"%char (URL.path u) /\ ~ In "#"%char (URL.path u)
  /\ ~ In "#"%char (URL.query u).

(** The same URL without query and fragment, as a builder is given it. *)
Definition url_base (u : URL.t) : std_string :=
  URL.scheme u ++ lit "://" ++ URL.host u ++ lit ":" ++ to_string (URL.port u)
  ++ URL.path u.

(** What [parseHeaders] may change in a response: nothing but the header
    map and the cookie list, which only grow, and every key that is new
    in the map is in lower case. *)
Definition response_extends (r r' : HttpResponse.t) : Prop :=
  HttpResponse.statusCode_ r' = HttpResponse.statusCode_ r
  /\ HttpResponse.statusMessage_ r' = HttpResponse.statusMessage_ r
  /\ HttpResponse.body_ r' = HttpResponse.body_ r
  /\ (exists cs, HttpResponse.cookies_ r' = HttpResponse.cookies_ r ++ cs)
  /\ (forall k, is_Some (HttpResponse.headers_ r !! k) ->
                is_Some (HttpResponse.headers_ r' !! k))
  /\ (forall k, is_Some (HttpResponse.headers_ r' !! k) ->
                is_Some (HttpResponse.headers_ r !! k) \/ toLower k = k).

(** ** The URL algorithm of the specification

    The four steps of section 4.2, each in the words of the
    specification, over the position of the first occurrence of a
    separator. *)

(** Step 1: if ["://"] occurs, everything before it is the scheme, and
    the scheme and the separator are consumed. *)
Definition url_scheme_spec (url : std_string) : std_string :=
  match index_str "://" url with
  | Some i => take i url
  | None => []
  end.

Definition url_remainder_spec (url : std_string) : std_string :=
  match index_str "://" url with
  | Some i => drop (i + 3) url
  | None => url
  end.

(** The default port is 443 when the scheme equals ["https"] and 80
    otherwise. *)
Definition default_port_spec (scheme : std_string) : Z :=
  if str_eqb scheme "https" then 443%Z else 80%Z.

(** Step 2: the authority is the remainder up to its first ['/'], or the
    whole remainder when it has none. *)
Definition url_authority_spec (url : std_string) : std_string :=
  match index_char "/" (url_remainder_spec url) with
  | Some i => take i (url_remainder_spec url)
  | None => url_remainder_spec url
  end.

(** The authority is split on its first [':']: the left part is the host,
    and the right part, if present, is parsed as an integer and overrides
    the default port. *)
Definition url_host_spec (url : std_string) : std_string :=
  match index_char ":" (url_authority_spec url) with
  | Some i => take i (url_authority_spec url)
  | None => url_authority_spec url
  end.

Definition url_port_spec (url : std_string) : result Z :=
  match index_char ":" (url_authority_spec url) with
  | Some i => stoi (drop (S i) (url_authority_spec url))
  | None => Ok (default_port_spec (url_scheme_spec url))
  end.

(** Steps 3 and 4: the remainder from its first ['/'] onward, if it has
    one. *)
Definition url_tail_spec (url : std_string) : option std_string :=
  match index_char "/" (url_remainder_spec url) with
  | Some i => Some (drop i (url_remainder_spec url))
  | None => None
  end.

(** Step 3, on that text: path, query and fragment from the first ['?']
    and the first ['#'].  With both, the path is the text before ['?'];
    if ['#'] appears after ['?'] the query is the text between them and
    the fragment the text after ['#'], otherwise the query is the text
    after ['?'] to the end, and nothing is said of a fragment. *)
Definition path_parts_spec (rest : std_string)
    : std_string * std_string * std_string :=
  match index_char "?" rest, index_char "#" rest with
  | Some q, Some h =>
      if q <? h
      then (take q rest, take (h - q - 1) (drop (S q) rest), drop (S h) rest)
      else (take q rest, drop (S q) rest, [])
  | Some q, None => (take q rest, drop (S q) rest, [])
  | None, Some h => (take h rest, [], drop (S h) rest)
  | None, None => (rest, [], [])
  end.

(** Step 3 as the code has it: the fragment is the text after the first
    ['#'] also when that ['#'] stands before the first ['?']. *)
Definition path_parts_amended (rest : std_string)
    : std_string * std_string * std_string :=
  match index_char "?" rest, index_char "#" rest with
  | Some q, Some h =>
      if q <? h
      then (take q rest, take (h - q - 1) (drop (S q) rest), drop (S h) rest)
      else (take q rest, drop (S q) rest, drop (S h) rest)
  | Some q, None => (take q rest, drop (S q) rest, [])
  | None, Some h => (take h rest, [], drop (S h) rest)
  | None, None => (rest, [], [])
  end.

(** The whole algorithm, over a reading of step 3; step 4 gives the path
    ["/"] when the remainder has no ['/']. *)
Definition url_parse_with
    (parts : std_string -> std_string * std_string * std_string)
    (url : std_string) : result URL.t :=
  do port <- url_port_spec url;
  let pqf := match url_tail_spec url with
             | Some rest => parts rest
             | None => (lit "/", [], [])
             end in
  Ok (URL.mk (url_scheme_spec url) (url_host_spec url) port
             (fst (fst pqf)) (snd (fst pqf)) (snd pqf)).

Definition url_parse_spec : std_string -> result URL.t :=
  url_parse_with path_parts_spec.

Definition url_parse_amended : std_string -> result URL.t :=
  url_parse_with path_parts_amended.

(** The URLs on which the two readings of step 3 differ: both ['?'] and
    ['#'] are found after the authority, and the first ['#'] does not
    stand after the first ['?']. *)
Definition fragment_before_query (url : std_string) : bool :=
  match url_tail_spec url with
  | Some rest =>
      match index_char "?" rest, index_char "#" rest with
      | Some q, Some h => negb (q <? h)
      | _, _ => false
      end
  | None => false
  end.

(** * Lemmas and theorems *)

(** ** Strings *)

Lemma char_eqb_eq (a b : char) : char_eqb a b = true <-> a = b.
Proof. apply Ascii.eqb_eq. Qed.

Lemma char_eqb_refl (a : char) : char_eqb a a = true.
Proof. apply Ascii.eqb_refl. Qed.

Lemma all_chars_complete (c : char) : In c all_chars.
Proof.
  unfold all_chars. rewrite <- (ascii_nat_embedding c).
  apply in_map, in_seq. pose proof (nat_ascii_bounded c). lia.
Qed.

Lemma for_all_chars_spec (p : char -> bool) :
  for_all_chars p = true -> forall c, p c = true.
Proof.
  unfold for_all_chars. rewrite forallb_forall.
  intros H c. apply H, all_chars_complete.
Qed.

Lemma str_size_nonneg (s : std_string) : (0 <= str_size s)%Z.
Proof. unfold str_size. lia. Qed.

Lemma str_size_app (s t : std_string) :
  str_size (s ++ t) = (str_size s + str_size t)%Z.
Proof. unfold str_size. rewrite length_app. lia. Qed.

Lemma str_at_middle (pre : std_string) (c : char) (suf : std_string) :
  str_at (pre ++ c :: suf) (str_size pre) = c.
Proof.
  unfold str_at, str_size. rewrite Nat2Z.id.
  by rewrite list_lookup_middle.
Qed.

Lemma substr_middle (pre mid suf : std_string) :
  substr (pre ++ mid ++ suf) (str_size pre) (str_size mid) = Ok mid.
Proof.
  unfold substr. rewrite !str_size_app.
  pose proof (str_size_nonneg mid). pose proof (str_size_nonneg suf).
  pose proof (str_size_nonneg pre).
  destruct (Z.ltb_spec (str_size pre + (str_size mid + str_size suf)) (str_size pre)); [lia|].
  f_equal. replace (Z.min _ _) with (str_size mid) by lia.
  unfold str_size. rewrite !Nat2Z.id, drop_app_length.
  by rewrite take_app_length.
Qed.

(** ** UrlEncoder *)

(** The index loop of [decode] from position [|pre|] computes [decode_rest]
    of what is left, when the fuel covers it. *)
Lemma decode_loop_rest (n : nat) :
  forall (suf pre decoded : std_string) (fuel : nat),
    length suf <= n -> length suf <= fuel ->
    UrlEncoder.decode_loop fuel (pre ++ suf) (str_size pre) decoded
    = Ok (decoded ++ decode_rest suf).
Proof.
  induction n as [n IH] using lt_wf_ind.
  intros suf pre decoded fuel Hn Hfuel.
  destruct suf as [|c rest].
  - rewrite app_nil_r. destruct fuel; simpl;
      rewrite Z.ltb_irrefl; by rewrite app_nil_r.
  - destruct fuel as [|fuel]; [simpl in Hfuel; lia|].
    cbn [UrlEncoder.decode_loop].
    assert (Hlt : (str_size pre <? str_size (pre ++ c :: rest))%Z = true).
    { apply Z.ltb_lt. rewrite str_size_app. unfold str_size; simpl; lia. }
    rewrite Hlt, str_at_middle.
    assert (Hnext : forall acc, 
      UrlEncoder.decode_loop fuel (pre ++ c :: rest) (str_size pre + 1) acc
      = Ok (acc ++ decode_rest rest)).
    { intros acc. 
      replace (pre ++ c :: rest) with ((pre ++ [c]) ++ rest) by by rewrite <- app_assoc.
      replace (str_size pre + 1)%Z with (str_size (pre ++ [c]))
        by (rewrite str_size_app; reflexivity).
      apply (IH (length rest)); simpl in *; lia. }
    cbn [decode_rest].
    destruct (char_eqb c "%") eqn:Hpct.
    + destruct rest as [|a [|b rest']].
      * assert (Hshort : (str_size pre + 2 <? str_size (pre ++ [c]))%Z = false).
        { apply Z.ltb_ge. rewrite str_size_app. unfold str_size; simpl; lia. }
        rewrite Hshort, Hnext. by rewrite <- app_assoc.
      * assert (Hshort : (str_size pre + 2 <? str_size (pre ++ [c; a]))%Z = false).
        { apply Z.ltb_ge. rewrite str_size_app. unfold str_size; simpl; lia. }
        rewrite Hshort, Hnext. by rewrite <- app_assoc.
      * assert (Hlong : (str_size pre + 2 <? str_size (pre ++ c :: a :: b :: rest'))%Z = true).
        { apply Z.ltb_lt. rewrite str_size_app. unfold str_size; simpl; lia. }
        rewrite Hlong.
        assert (Hsub : substr (pre ++ c :: a :: b :: rest') (str_size pre + 1) 2 = Ok [a; b]).
        { replace (pre ++ c :: a :: b :: rest') with ((pre ++ [c]) ++ [a; b] ++ rest')
            by by rewrite <- app_assoc.
          replace (str_size pre + 1)%Z with (str_size (pre ++ [c]))
            by (rewrite str_size_app; reflexivity).
          apply (substr_middle (pre ++ [c]) [a; b] rest'). }
        rewrite Hsub. cbn [bind].
        destruct (extract_hex_int [a; b]) as [hexValue|].
        -- replace (pre ++ c :: a :: b :: rest') with ((pre ++ [c; a; b]) ++ rest')
             by by rewrite <- app_assoc.
           replace (str_size pre + 2 + 1)%Z with (str_size (pre ++ [c; a; b]))
             by (rewrite str_size_app; unfold str_size; simpl; lia).
           rewrite (IH (length rest')); simpl in *; try lia.
           by rewrite <- app_assoc.
        -- rewrite Hnext. by rewrite <- app_assoc.
    + destruct (char_eqb c "+"); rewrite Hnext; by rewrite <- app_assoc.
Qed.

Lemma decode_eq_rest (s : std_string) :
  UrlEncoder.decode s = Ok (decode_rest s).
Proof.
  unfold UrlEncoder.decode.
  apply (decode_loop_rest (length s) s [] [] (length s)); lia.
Qed.

(** What [encode] emits for one byte, and that [decode] reads it back. *)
Lemma encode_char_check_all (c : char) : encode_char_check c = true.
Proof. revert c. apply for_all_chars_spec. vm_compute. reflexivity. Qed.

Lemma encode_char_cases (c : char) :
  (mem_char c unreserved_set = true
   /\ UrlEncoder.encode_char c = [c]
   /\ char_eqb c "%" = false /\ char_eqb c "+" = false)
  \/ (mem_char c unreserved_set = false
      /\ UrlEncoder.encode_char c = percent_XX c
      /\ extract_hex_int (tail (percent_XX c)) = Some (uchar_val c)).
Proof.
  pose proof (encode_char_check_all c) as H. unfold encode_char_check, str_eqb in H.
  destruct (mem_char c unreserved_set); [left|right].
  - apply andb_true_iff in H as [[H1 H2]%andb_true_iff H3].
    apply bool_decide_eq_true in H1. apply negb_true_iff in H2, H3. done.
  - apply andb_true_iff in H as [H1 H2].
    apply bool_decide_eq_true in H1, H2. done.
Qed.

Lemma char_of_int_uchar_val (c : char) : char_of_int (uchar_val c) = c.
Proof.
  apply char_eqb_eq. revert c. apply for_all_chars_spec. vm_compute. reflexivity.
Qed.

Lemma decode_rest_encode_char (c : char) (t : std_string) :
  decode_rest (UrlEncoder.encode_char c ++ t) = c :: decode_rest t.
Proof.
  destruct (encode_char_cases c) as [(_ & -> & Hp & Hs)|(_ & -> & Hx)].
  - cbn [app decode_rest]. by rewrite Hp, Hs.
  - unfold percent_XX in *. cbn [tail] in Hx.
    cbn [app decode_rest]. rewrite char_eqb_refl, Hx.
    by rewrite char_of_int_uchar_val.
Qed.

Lemma decode_rest_encode (s : std_string) :
  decode_rest (UrlEncoder.encode s) = s.
Proof.
  induction s as [|c s IH]; [reflexivity|].
  unfold UrlEncoder.encode in *. cbn [flat_map].
  by rewrite decode_rest_encode_char, IH.
Qed.

Lemma encode_eq_spec (s : std_string) : UrlEncoder.encode s = encode_spec s.
Proof.
  unfold UrlEncoder.encode, encode_spec.
  induction s as [|c s IH]; [reflexivity|].
  cbn [flat_map]. rewrite IH. f_equal.
  destruct (encode_char_cases c) as [(-> & -> & _)|(-> & -> & _)]; reflexivity.
Qed.

(** The escapes that [decode] treats as the specification says: one with
    two hex digits, and one cut short by the end of the input. *)
Lemma extract_hex_int_two_digits (a b : char) (x y : Z) :
  xdigit_val a = Some x -> xdigit_val b = Some y ->
  extract_hex_int [a; b] = Some (16 * x + y)%Z.
Proof.
  intros Ha Hb.
  assert (H : for_all_chars (fun a => for_all_chars (well_formed_escape_check a)) = true)
    by (vm_compute; reflexivity).
  pose proof (for_all_chars_spec _ (for_all_chars_spec _ H a) b) as Hab.
  unfold well_formed_escape_check in Hab. rewrite Ha, Hb in Hab.
  by apply bool_decide_eq_true in Hab.
Qed.

Lemma decode_well_formed_escape (a b : char) (x y : Z) (t : std_string) :
  xdigit_val a = Some x -> xdigit_val b = Some y ->
  UrlEncoder.decode ("%"%char :: a :: b :: t)
  = Ok (char_of_int (16 * x + y) :: decode_rest t).
Proof.
  intros Ha Hb. rewrite decode_eq_rest. cbn [decode_rest].
  by rewrite char_eqb_refl, (extract_hex_int_two_digits a b x y).
Qed.

Lemma decode_short_escape (t : std_string) :
  length t < 2 ->
  UrlEncoder.decode ("%"%char :: t) = Ok ("%"%char :: decode_rest t).
Proof.
  intros Ht. rewrite decode_eq_rest.
  destruct t as [|a [|b t]]; [reflexivity|reflexivity|simpl in Ht; lia].
Qed.

(** C1: for every byte sequence [s], [decode (encode s)] returns [s];
    [encode] keeps each byte of the unreserved set [[A-Za-z0-9-_.~]] and
    writes every other byte as [%XX] with uppercase hex digits. *)
Theorem C1_decode_encode_roundtrip (s : std_string) :
  UrlEncoder.decode (UrlEncoder.encode s) = Ok s
  /\ UrlEncoder.encode s = encode_spec s.
Proof.
  split.
  - by rewrite decode_eq_rest, decode_rest_encode.
  - apply encode_eq_spec.
Qed.

(** ** Results *)

Lemma returns_Ok {A : Type} (a : A) : returns (Ok a).
Proof. by exists a. Qed.

Lemma returns_bind {A B : Type} (m : result A) (k : A -> result B) :
  returns m -> (forall a, m = Ok a -> returns (k a)) -> returns (bind m k).
Proof. intros [a ->] Hk. simpl. by apply Hk. Qed.

Lemma not_returns_Throw {A : Type} (e : exn) : ~ returns (@Throw A e).
Proof. by intros [a Ha]. Qed.

(** ** Positions *)

Lemma index_char_lt (c : char) (s : std_string) (i : nat) :
  index_char c s = Some i -> i < length s.
Proof.
  revert i. induction s as [|x s IH]; intros i; simpl; [done|].
  destruct (char_eqb x c).
  - intros [= <-]. lia.
  - destruct (index_char c s) as [j|]; simpl; [|done].
    intros [= <-]. specialize (IH j eq_refl). lia.
Qed.

Lemma prefixb_length (p s : std_string) :
  prefixb p s = true -> length p <= length s.
Proof.
  revert s. induction p as [|a p IH]; intros [|b s]; simpl; try done; try lia.
  intros [_ H]%andb_true_iff. apply IH in H. lia.
Qed.

Lemma index_str_bound (p s : std_string) (i : nat) :
  index_str p s = Some i -> i + length p <= length s.
Proof.
  revert i. induction s as [|x s IH]; intros i; simpl.
  - destruct (prefixb p []) eqn:Hp; [|done].
    intros [= <-]. by apply prefixb_length in Hp.
  - destruct (prefixb p (x :: s)) eqn:Hp.
    + intros [= <-]. by apply prefixb_length in Hp.
    + destruct (index_str p s) as [j|]; simpl; [|done].
      intros [= <-]. specialize (IH j eq_refl). lia.
Qed.

Lemma index_first_not_of_lt (set s : std_string) (i : nat) :
  index_first_not_of set s = Some i -> i < length s.
Proof.
  revert i. induction s as [|x s IH]; intros i; simpl; [done|].
  destruct (mem_char x set).
  - destruct (index_first_not_of set s) as [j|]; simpl; [|done].
    intros [= <-]. specialize (IH j eq_refl). lia.
  - intros [= <-]. lia.
Qed.

Lemma find_char_found (s : std_string) (c : char) :
  find_char s c <> npos -> (0 <= find_char s c < str_size s)%Z.
Proof.
  unfold find_char, pos_of, str_size.
  destruct (index_char c s) as [i|] eqn:Hi; [|done].
  intros _. apply index_char_lt in Hi. lia.
Qed.

Lemma find_str_found (s p : std_string) :
  find_str s p <> npos ->
  (0 <= find_str s p /\ find_str s p + str_size p <= str_size s)%Z.
Proof.
  unfold find_str, pos_of, str_size.
  destruct (index_str p s) as [i|] eqn:Hi; [|done].
  intros _. apply index_str_bound in Hi. lia.
Qed.

Lemma find_first_not_of_found (s set : std_string) :
  find_first_not_of s set <> npos ->
  (0 <= find_first_not_of s set < str_size s)%Z.
Proof.
  unfold find_first_not_of, pos_of, str_size.
  destruct (index_first_not_of set s) as [i|] eqn:Hi; [|done].
  intros _. apply index_first_not_of_lt in Hi. lia.
Qed.

Lemma substr_in_range (s : std_string) (pos n : Z) :
  (pos <= str_size s)%Z ->
  substr s pos n
  = Ok (take (Z.to_nat (Z.min n (str_size s - pos))) (drop (Z.to_nat pos) s)).
Proof.
  intros H. unfold substr.
  by destruct (Z.ltb_spec (str_size s) pos); [lia|].
Qed.

Lemma substr_returns (s : std_string) (pos n : Z) :
  (pos <= str_size s)%Z -> returns (substr s pos n).
Proof. intros H. rewrite substr_in_range by done. apply returns_Ok. Qed.

Lemma neqb_npos (z : Z) : negb (z =? npos)%Z = true -> z <> npos.
Proof. intros H%negb_true_iff. by apply Z.eqb_neq. Qed.

(** ** [trim] never throws *)

Lemma trim_returns (str : std_string) : returns (trim str).
Proof.
  unfold trim.
  destruct (Z.eqb_spec (find_first_not_of str WHITESPACE) npos) as [|Hne];
    [apply returns_Ok|].
  apply substr_returns. apply find_first_not_of_found in Hne. lia.
Qed.

(** ** URL *)

Lemma parse_scheme_returns (res : URL.t) (temp : std_string) :
  returns (URL.parse_scheme res temp).
Proof.
  unfold URL.parse_scheme.
  destruct (negb (find_str temp "://" =? npos)%Z) eqn:Hpos; [|apply returns_Ok].
  apply neqb_npos, find_str_found in Hpos. change (str_size (lit "://")) with 3%Z in Hpos.
  apply returns_bind; [apply substr_returns; lia|]. intros sch _.
  apply returns_bind; [apply substr_returns; lia|]. intros temp' _.
  destruct (str_eqb _ _); apply returns_Ok.
Qed.

Lemma host_port_returns (temp : std_string) : returns (URL.host_port temp).
Proof.
  unfold URL.host_port.
  destruct (negb (find_char temp "/" =? npos)%Z) eqn:Hpos; [|apply returns_Ok].
  apply neqb_npos, find_char_found in Hpos. apply substr_returns; lia.
Qed.

Lemma parse_path_returns (res : URL.t) (temp : std_string) :
  returns (URL.parse_path res temp).
Proof.
  unfold URL.parse_path.
  destruct (negb (find_char temp "/" =? npos)%Z) eqn:Hpos; [|apply returns_Ok].
  apply neqb_npos, find_char_found in Hpos.
  apply returns_bind; [apply substr_returns; lia|]. intros rest _.
  destruct (negb (find_char rest "?" =? npos)%Z) eqn:Hq;
    destruct (negb (find_char rest "#" =? npos)%Z) eqn:Hf;
    try apply neqb_npos, find_char_found in Hq;
    try apply neqb_npos, find_char_found in Hf;
    repeat first [ apply returns_Ok
                 | apply returns_bind; [apply substr_returns; lia|]; intros ? _ ].
Qed.

(** [parse_authority] returns exactly when there is no [':'] or
    [std::stoi] accepts what follows the first one. *)
Lemma parse_authority_returns (res : URL.t) (hostPort : std_string) :
  returns (URL.parse_authority res hostPort)
  <-> (find_char hostPort ":" = npos
       \/ exists p, substr_from hostPort (find_char hostPort ":" + 1) = Ok p
                    /\ returns (stoi p)).
Proof.
  unfold URL.parse_authority.
  destruct (Z.eqb_spec (find_char hostPort ":") npos) as [Heq|Hne]; simpl.
  - split; [by left|intros _; apply returns_Ok].
  - pose proof (find_char_found _ _ Hne) as Hr.
    rewrite (substr_in_range hostPort 0) by lia. simpl.
    unfold substr_from. rewrite (substr_in_range hostPort (_ + 1)) by lia. simpl.
    split.
    + intros Hret. right. eexists; split; [reflexivity|].
      destruct (stoi _) as [n| |]; [apply returns_Ok|by destruct Hret..].
    + intros [?|(p & [= <-] & [n Hn])]; [done|]. rewrite Hn. apply returns_Ok.
Qed.

Lemma URL_parse_returns (url : std_string) :
  exists a, URL.authority url = Ok a
    /\ (returns (URL.parse url)
        <-> (find_char a ":" = npos
             \/ exists p, substr_from a (find_char a ":" + 1) = Ok p
                          /\ returns (stoi p))).
Proof.
  unfold URL.authority, URL.parse.
  destruct (parse_scheme_returns URL.init url) as [[res temp] ->]. simpl.
  destruct (host_port_returns temp) as [a ->]. simpl.
  exists a. split; [done|].
  rewrite <- (parse_authority_returns res a).
  destruct (URL.parse_authority res a) as [res'| |]; simpl.
  - split; intros _; [apply returns_Ok|apply parse_path_returns].
  - split; by intros [? ?].
  - split; by intros [? ?].
Qed.

(** ** Cookie: [parse] never throws *)

Lemma find_str_zero (s p : std_string) :
  (find_str s p =? 0)%Z = prefixb p s.
Proof.
  unfold find_str, pos_of.
  destruct s as [|x s]; simpl; destruct (prefixb p _); try done.
  by destruct (index_str p s).
Qed.

Lemma getline_split_length (d : char) (s : std_string) :
  length (fst (getline_split d s)) <= length s
  /\ length (snd (getline_split d s)) <= pred (length s).
Proof.
  induction s as [|c s IH]; simpl; [lia|].
  destruct (char_eqb c d); simpl; [lia|].
  destruct (getline_split d s) as [item rest]; simpl in *. lia.
Qed.

Lemma parse_name_value_returns (item : std_string) (cookie : Cookie.t) :
  returns (Cookie.parse_name_value item cookie).
Proof.
  unfold Cookie.parse_name_value.
  destruct (negb (find_char item "=" =? npos)%Z) eqn:Hpos; [|apply returns_Ok].
  apply neqb_npos, find_char_found in Hpos.
  apply returns_bind; [apply substr_returns; lia|]. intros n _.
  apply returns_bind; [apply trim_returns|]. intros n' _.
  apply returns_bind; [apply substr_returns; lia|]. intros v _.
  apply returns_bind; [apply trim_returns|]. intros v' _.
  apply returns_Ok.
Qed.

Lemma substr_from_prefix_returns (item p : std_string) :
  (find_str item p =? 0)%Z = true -> returns (substr_from item (str_size p)).
Proof.
  rewrite find_str_zero. intros H%prefixb_length.
  apply substr_returns. unfold str_size. lia.
Qed.

Lemma parse_attribute_returns (item : std_string) (cookie : Cookie.t) :
  returns (Cookie.parse_attribute item cookie).
Proof.
  unfold Cookie.parse_attribute.
  apply returns_bind; [apply trim_returns|]. intros it _.
  destruct (find_str it "Domain=" =? 0)%Z eqn:Hd.
  { apply returns_bind; [apply (substr_from_prefix_returns it "Domain=" Hd)|].
    intros; apply returns_Ok. }
  destruct (find_str it "Path=" =? 0)%Z eqn:Hp.
  { apply returns_bind; [apply (substr_from_prefix_returns it "Path=" Hp)|].
    intros; apply returns_Ok. }
  destruct (str_eqb it "Secure"); [apply returns_Ok|].
  destruct (str_eqb it "HttpOnly"); [apply returns_Ok|].
  destruct (find_str it "SameSite=" =? 0)%Z eqn:Hs; [|apply returns_Ok].
  apply returns_bind; [apply (substr_from_prefix_returns it "SameSite=" Hs)|].
  intros; apply returns_Ok.
Qed.

Lemma parse_attributes_returns (fuel : nat) :
  forall (iss : std_string) (cookie : Cookie.t),
    length iss <= fuel -> returns (Cookie.parse_attributes fuel iss cookie).
Proof.
  induction fuel as [|fuel IH]; intros iss cookie Hfuel.
  - destruct iss; [apply returns_Ok|simpl in Hfuel; lia].
  - destruct iss as [|c iss]; [apply returns_Ok|].
    cbn [Cookie.parse_attributes getline].
    pose proof (getline_split_length ";" (c :: iss)) as [_ Hrest].
    destruct (getline_split ";" (c :: iss)) as [item rest].
    apply returns_bind; [apply parse_attribute_returns|]. intros cookie' _.
    apply IH. simpl in *. lia.
Qed.

Lemma Cookie_parse_returns (cookieString : std_string) :
  returns (Cookie.parse cookieString).
Proof.
  unfold Cookie.parse.
  destruct cookieString as [|c s]; [apply returns_Ok|].
  cbn [getline].
  pose proof (getline_split_length ";" (c :: s)) as [_ Hrest].
  destruct (getline_split ";" (c :: s)) as [item rest].
  apply returns_bind; [apply parse_name_value_returns|]. intros cookie _.
  apply parse_attributes_returns. simpl in *. lia.
Qed.

(** C2 (as amended): [UrlEncoder::decode] and [Cookie::parse] return a
    result for every input string ([UrlEncoder::encode] is a function of
    the model with no failure or fuel at all); [URL::parse] returns a
    result exactly when its authority has no [':'] or [std::stoi] accepts
    the text after the first [':'], and it lets the exception of
    [std::stoi] escape otherwise. *)
Theorem C2_parsers_total_except_port (s : std_string) :
  returns (UrlEncoder.decode s)
  /\ (exists e, UrlEncoder.encode s = e /\ returns (UrlEncoder.decode e))
  /\ returns (Cookie.parse s)
  /\ exists a, URL.authority s = Ok a
       /\ (returns (URL.parse s)
           <-> (find_char a ":" = npos
                \/ exists p, substr_from a (find_char a ":" + 1) = Ok p
                             /\ returns (stoi p))).
Proof.
  split; [rewrite decode_eq_rest; apply returns_Ok|].
  split; [eexists; split; [reflexivity|]; rewrite decode_eq_rest; apply returns_Ok|].
  split; [apply Cookie_parse_returns|].
  apply URL_parse_returns.
Qed.

(** C2 as stated fails: a port that is not a number makes [URL::parse]
    throw [std::invalid_argument]. *)
Lemma C2_counterexample_nonnumeric_port :
  URL.parse "http://example.com:abc/index.html" = Throw invalid_argument
  /\ ~ returns (URL.parse "http://example.com:abc/index.html").
Proof.
  assert (H : URL.parse "http://example.com:abc/index.html" = Throw invalid_argument)
    by (vm_compute; reflexivity).
  split; [exact H|]. rewrite H. apply not_returns_Throw.
Qed.

(** C3: at the escape [%4G], whose second character is not a hex digit,
    [decode] does not copy the three characters through: the stream
    extraction reads the single digit [4], so the output is the byte 4 and
    the [G] is lost; likewise the ['+'] of [%+1] is read as a sign and is
    not turned into a space. *)
Theorem C3_decode_accepts_one_digit_escape :
  UrlEncoder.decode "%4G" = Ok [char_of_int 4]
  /\ UrlEncoder.decode "%4G" <> Ok (lit "%4G")
  /\ UrlEncoder.decode "%+1" = Ok [char_of_int 1]
  /\ UrlEncoder.decode "%+1" <> Ok (lit "% 1").
Proof. vm_compute. repeat split; discriminate. Qed.

(** ** [trim] removes the surrounding white space *)

Lemma strip_left_first (s : std_string) :
  match index_first_not_of WHITESPACE s with
  | Some i => strip_left s = drop i s
  | None => strip_left s = []
  end.
Proof.
  induction s as [|x s IH]; simpl; [done|].
  unfold is_trim_space. destruct (mem_char x WHITESPACE); [|done].
  by destruct (index_first_not_of WHITESPACE s).
Qed.

Lemma strip_right_last (s : std_string) :
  match index_last_not_of WHITESPACE s with
  | Some j => strip_right s = take (S j) s
  | None => strip_right s = []
  end.
Proof.
  induction s as [|x s IH]; simpl; [done|].
  unfold is_trim_space.
  destruct (index_last_not_of WHITESPACE s) as [j|] eqn:Hlast.
  - rewrite IH. by destruct s.
  - rewrite IH. by destruct (mem_char x WHITESPACE).
Qed.

Lemma index_last_not_of_lt (set s : std_string) (j : nat) :
  index_last_not_of set s = Some j -> j < length s.
Proof.
  revert j. induction s as [|x s IH]; intros j; simpl; [done|].
  destruct (index_last_not_of set s) as [k|].
  - intros [= <-]. specialize (IH k eq_refl). lia.
  - destruct (mem_char x set); [done|]. intros [= <-]. lia.
Qed.

Lemma index_last_after_first (set s : std_string) (i : nat) :
  index_first_not_of set s = Some i ->
  exists j, index_last_not_of set s = Some j /\ i <= j
            /\ index_last_not_of set (drop i s) = Some (j - i).
Proof.
  revert i. induction s as [|x s IH]; intros i; cbn [index_first_not_of]; [done|].
  destruct (mem_char x set) eqn:Hx.
  - destruct (index_first_not_of set s) as [i'|]; cbn [fmap option_fmap option_map]; [|done].
    intros [= <-]. destruct (IH i' eq_refl) as (j & Hj & Hle & Hd).
    exists (S j). cbn [index_last_not_of drop]. rewrite Hj.
    split; [done|]. split; [lia|]. by rewrite Hd.
  - intros [= <-]. cbn [drop].
    destruct (index_last_not_of set (x :: s)) as [j|] eqn:Hj.
    + exists j. rewrite Nat.sub_0_r. split; [done|]. split; [lia|done].
    + exfalso. cbn [index_last_not_of] in Hj. rewrite Hx in Hj.
      by destruct (index_last_not_of set s).
Qed.

Lemma trim_eq_spec (s : std_string) :
  (str_size s < npos)%Z -> trim s = Ok (trim_spec s).
Proof.
  intros Hsize. unfold trim, trim_spec, find_first_not_of, find_last_not_of.
  pose proof (strip_left_first s) as Hleft.
  destruct (index_first_not_of WHITESPACE s) as [i|] eqn:Hi; simpl.
  - pose proof (index_first_not_of_lt _ _ _ Hi) as Hlt.
    destruct (index_last_after_first _ _ _ Hi) as (j & Hj & Hle & Hd).
    pose proof (index_last_not_of_lt _ _ _ Hj) as Hjlt.
    rewrite Hj. simpl. unfold str_size in Hsize.
    destruct (Z.eqb_spec (Z.of_nat i) npos) as [|_]; [lia|].
    rewrite substr_in_range by (unfold str_size; lia).
    f_equal. rewrite Hleft.
    pose proof (strip_right_last (drop i s)) as Hright. rewrite Hd in Hright.
    rewrite Hright. unfold str_size. rewrite Nat2Z.id. f_equal. lia.
  - rewrite ?Z.eqb_refl. by rewrite Hleft.
Qed.

Lemma strip_left_length (s : std_string) : length (strip_left s) <= length s.
Proof.
  induction s as [|x s IH]; simpl; [lia|].
  destruct (is_trim_space x); simpl; lia.
Qed.

Lemma strip_right_length (s : std_string) : length (strip_right s) <= length s.
Proof.
  induction s as [|x s IH]; simpl; [lia|].
  destruct (strip_right s); [destruct (is_trim_space x)|]; simpl in *; lia.
Qed.

Lemma trim_spec_length (s : std_string) : length (trim_spec s) <= length s.
Proof.
  unfold trim_spec. pose proof (strip_right_length (strip_left s)).
  pose proof (strip_left_length s). lia.
Qed.

(** ** Cookie: [parse] against the description of the specification *)

Lemma substr_from_drop (s : std_string) (k : nat) :
  (str_size s < npos)%Z -> k <= length s ->
  substr_from s (Z.of_nat k) = Ok (drop k s).
Proof.
  intros Hsize Hk. unfold substr_from.
  rewrite substr_in_range by (unfold str_size; lia).
  f_equal. rewrite Nat2Z.id. apply take_ge. rewrite length_drop.
  unfold str_size in *. lia.
Qed.

Lemma substr_zero_take (s : std_string) (k : nat) :
  k <= length s -> substr s 0 (Z.of_nat k) = Ok (take k s).
Proof.
  intros Hk. rewrite substr_in_range by apply str_size_nonneg.
  f_equal. simpl. f_equal. unfold str_size. lia.
Qed.

Lemma parse_name_value_eq_spec (item : std_string) (cookie : Cookie.t) :
  (str_size item < npos)%Z ->
  Cookie.parse_name_value item cookie = Ok (name_value_spec item cookie).
Proof.
  intros Hsize. unfold Cookie.parse_name_value, name_value_spec, find_char.
  destruct (index_char "=" item) as [i|] eqn:Hi; simpl.
  - pose proof (index_char_lt _ _ _ Hi) as Hlt. unfold str_size in Hsize.
    destruct (Z.eqb_spec (Z.of_nat i) npos) as [|_]; [lia|]. simpl.
    rewrite substr_zero_take by lia. simpl.
    rewrite trim_eq_spec by (unfold str_size; rewrite length_take; lia). simpl.
    replace (Z.of_nat i + 1)%Z with (Z.of_nat (S i)) by lia.
    rewrite substr_from_drop by (unfold str_size; lia). simpl.
    rewrite trim_eq_spec by (unfold str_size; rewrite length_drop; lia).
    reflexivity.
  - done.
Qed.

Lemma parse_attribute_eq_spec (item : std_string) (cookie : Cookie.t) :
  (str_size item < npos)%Z ->
  Cookie.parse_attribute item cookie = Ok (attribute_spec cookie item).
Proof.
  intros Hsize. unfold Cookie.parse_attribute, attribute_spec, strip_prefix.
  rewrite trim_eq_spec by done. cbn [bind].
  pose proof (trim_spec_length item) as Hlen.
  set (it := trim_spec item) in *.
  assert (Hit : (str_size it < npos)%Z) by (unfold str_size in *; lia).
  rewrite !find_str_zero.
  destruct (prefixb "Domain=" it) eqn:Hd.
  { apply prefixb_length in Hd.
    rewrite (substr_from_drop it 7 Hit ltac:(done) : substr_from it 7 = _). reflexivity. }
  destruct (prefixb "Path=" it) eqn:Hp.
  { apply prefixb_length in Hp.
    rewrite (substr_from_drop it 5 Hit ltac:(done) : substr_from it 5 = _). reflexivity. }
  unfold str_eqb.
  destruct (decide (it = lit "Secure")) as [->|Hs].
  { reflexivity. }
  rewrite (bool_decide_eq_false_2 _ Hs).
  destruct (decide (it = lit "HttpOnly")) as [->|Hh].
  { reflexivity. }
  rewrite (bool_decide_eq_false_2 _ Hh).
  destruct (prefixb "SameSite=" it) eqn:Hss; [|reflexivity].
  apply prefixb_length in Hss.
  rewrite (substr_from_drop it 9 Hit ltac:(done) : substr_from it 9 = _). reflexivity.
Qed.

Lemma attribute_spec_empty (cookie : Cookie.t) : attribute_spec cookie [] = cookie.
Proof. reflexivity. Qed.

(** One [getline] yields the first segment of [split_on]; when it found no
    delimiter nothing is left. *)
Lemma split_on_getline (d : char) (s : std_string) :
  split_on d s = fst (getline_split d s) :: split_on d (snd (getline_split d s))
  \/ (split_on d s = [fst (getline_split d s)] /\ snd (getline_split d s) = []).
Proof.
  induction s as [|c s IH]; simpl; [by right|].
  destruct (char_eqb c d); simpl; [by left|].
  destruct (getline_split d s) as [item rest]; simpl in *.
  destruct IH as [->|[-> ->]]; [by left|by right].
Qed.

Lemma parse_attributes_eq_spec (fuel : nat) :
  forall (iss : std_string) (cookie : Cookie.t),
    length iss <= fuel -> (str_size iss < npos)%Z ->
    Cookie.parse_attributes fuel iss cookie
    = Ok (fold_left attribute_spec (split_on ";" iss) cookie).
Proof.
  induction fuel as [|fuel IH]; intros iss cookie Hfuel Hsize.
  - destruct iss; [reflexivity|simpl in Hfuel; lia].
  - destruct iss as [|c iss]; [reflexivity|].
    cbn [Cookie.parse_attributes getline].
    pose proof (getline_split_length ";" (c :: iss)) as [Hitem Hrest].
    pose proof (split_on_getline ";" (c :: iss)) as Hsplit.
    destruct (getline_split ";" (c :: iss)) as [item rest]. simpl fst in *. simpl snd in *.
    unfold str_size in Hsize.
    rewrite parse_attribute_eq_spec by (unfold str_size; lia). cbn [bind].
    destruct Hsplit as [->|[-> ->]].
    + cbn [fold_left]. apply IH; [simpl in *; lia|unfold str_size; simpl in *; lia].
    + destruct fuel; reflexivity.
Qed.

Lemma Cookie_parse_eq_spec (s : std_string) :
  (str_size s < npos)%Z -> Cookie.parse s = Ok (cookie_parse_spec s).
Proof.
  intros Hsize. unfold Cookie.parse, cookie_parse_spec.
  destruct s as [|c s]; [reflexivity|].
  cbn [getline].
  pose proof (getline_split_length ";" (c :: s)) as [Hitem Hrest].
  pose proof (split_on_getline ";" (c :: s)) as Hsplit.
  destruct (getline_split ";" (c :: s)) as [item rest]. simpl fst in *. simpl snd in *.
  unfold str_size in Hsize.
  rewrite parse_name_value_eq_spec by (unfold str_size; lia). cbn [bind].
  destruct Hsplit as [->|[-> ->]].
  - apply parse_attributes_eq_spec; [simpl in *; lia|unfold str_size; simpl in *; lia].
  - reflexivity.
Qed.

(** C6: for every Set-Cookie string (a [std::string], so shorter than
    [npos]), [Cookie::parse] returns the cookie described by the
    specification: the string is split on [';'], the first segment gives
    the trimmed name and value, each later trimmed segment is compared as
    written with the prefixes [Domain=], [Path=], [SameSite=] and the flags
    [Secure], [HttpOnly], and any other segment is ignored; the example of
    the specification evaluates as stated. *)
Theorem C6_cookie_parse_spec (s : std_string) :
  (str_size s < npos)%Z ->
  Cookie.parse s = Ok (cookie_parse_spec s)
  /\ Cookie.parse "sid=abc123; Domain=example.com; Path=/; Secure; HttpOnly"
     = Ok (Cookie.mk "sid" "abc123" "example.com" "/" true true "").
Proof.
  intros Hsize. split; [by apply Cookie_parse_eq_spec|].
  vm_compute. reflexivity.
Qed.

Lemma C6_cookie_parse_spec_witness :
  Cookie.parse " theme = dark ; Path=/app;secure; SameSite=Lax ;HttpOnly;"
  = Ok (Cookie.mk "theme" "dark" "" "/app" false true "Lax").
Proof.
  destruct (C6_cookie_parse_spec
              " theme = dark ; Path=/app;secure; SameSite=Lax ;HttpOnly;") as [H _].
  - vm_compute. reflexivity.
  - rewrite H. vm_compute. reflexivity.
Defined.

(** ** URL: the algorithm of the specification *)

Ltac step_bind :=
  match goal with
  | |- context [bind ?m _] =>
      let E := fresh "E" in destruct m eqn:E; cbn [bind]; try discriminate
  end.

Lemma parse_path_keeps (res res' : URL.t) (temp : std_string) :
  URL.parse_path res temp = Ok res' ->
  URL.scheme res' = URL.scheme res /\ URL.port res' = URL.port res
  /\ URL.host res' = URL.host res.
Proof.
  unfold URL.parse_path.
  destruct (negb (find_char temp "/" =? npos)%Z); [|by intros [= <-]].
  step_bind.
  destruct (negb (find_char a "?" =? npos)%Z);
    destruct (negb (find_char a "#" =? npos)%Z);
    repeat step_bind; by intros [= <-].
Qed.

Lemma index_char_In (c : char) (s : std_string) (i : nat) :
  index_char c s = Some i -> In c s.
Proof.
  revert i. induction s as [|x s IH]; intros i; simpl; [done|].
  destruct (char_eqb x c) eqn:E.
  - intros _. left. by apply char_eqb_eq.
  - destruct (index_char c s) as [j|]; simpl; [|done].
    intros _. right. by apply (IH j).
Qed.

Lemma find_char_index (s : std_string) (c : char) :
  (str_size s < npos)%Z ->
  match index_char c s with
  | Some i => find_char s c = Z.of_nat i /\ (find_char s c =? npos)%Z = false
              /\ i < length s
  | None => find_char s c = npos /\ (find_char s c =? npos)%Z = true
  end.
Proof.
  intros Hsize. unfold find_char.
  destruct (index_char c s) as [i|] eqn:Hi; cbn [pos_of].
  - apply index_char_lt in Hi. unfold str_size in Hsize.
    repeat split; [|done]. apply Z.eqb_neq. lia.
  - split; [done|]. apply Z.eqb_refl.
Qed.

Lemma substr_take_drop (s : std_string) (k n : nat) :
  k + n <= length s ->
  substr s (Z.of_nat k) (Z.of_nat n) = Ok (take n (drop k s)).
Proof.
  intros Hk. rewrite substr_in_range by (unfold str_size; lia).
  f_equal. rewrite Nat2Z.id. f_equal. unfold str_size. lia.
Qed.

Lemma substr_to_end (s : std_string) (k : nat) (n : Z) :
  k <= length s -> (str_size s - Z.of_nat k <= n)%Z ->
  substr s (Z.of_nat k) n = Ok (drop k s).
Proof.
  intros Hk Hn. rewrite substr_in_range by (unfold str_size; lia).
  f_equal. rewrite Nat2Z.id. apply take_ge. rewrite length_drop.
  unfold str_size in *. lia.
Qed.

Lemma parse_scheme_eq_spec (url : std_string) :
  (str_size url < npos)%Z ->
  URL.parse_scheme URL.init url
  = Ok (URL.mk (url_scheme_spec url) [] (default_port_spec (url_scheme_spec url))
               [] [] [],
        url_remainder_spec url).
Proof.
  intros Hsize.
  unfold URL.parse_scheme, find_str, url_scheme_spec, url_remainder_spec,
    default_port_spec.
  destruct (index_str "://" url) as [i|] eqn:Hi; cbn [pos_of].
  - pose proof (index_str_bound _ _ _ Hi) as Hb.
    change (length (lit "://")) with 3 in Hb. unfold str_size in Hsize.
    destruct (Z.eqb_spec (Z.of_nat i) npos) as [|_]; [lia|]. cbn [negb].
    rewrite substr_zero_take by lia. cbn [bind].
    replace (Z.of_nat i + 3)%Z with (Z.of_nat (i + 3)) by lia.
    rewrite substr_from_drop by (unfold str_size; lia). cbn [bind].
    cbn [URL.scheme URL.set_scheme].
    by destruct (str_eqb (take i url) "https").
  - rewrite Z.eqb_refl. reflexivity.
Qed.

Lemma remainder_size (url : std_string) :
  (str_size url < npos)%Z -> (str_size (url_remainder_spec url) < npos)%Z.
Proof.
  unfold url_remainder_spec, str_size.
  destruct (index_str "://" url); [rewrite length_drop|]; lia.
Qed.

Lemma host_port_eq_spec (temp : std_string) :
  (str_size temp < npos)%Z ->
  URL.host_port temp
  = Ok (match index_char "/" temp with
        | Some i => take i temp
        | None => temp
        end).
Proof.
  intros Hsize. unfold URL.host_port.
  pose proof (find_char_index temp "/" Hsize) as H.
  destruct (index_char "/" temp) as [i|].
  - destruct H as (-> & _ & Hi).
    destruct (Z.eqb_spec (Z.of_nat i) npos) as [|_];
      [unfold str_size in Hsize; lia|]. cbn [negb].
    apply substr_zero_take. lia.
  - destruct H as (_ & ->). reflexivity.
Qed.

Lemma parse_authority_eq_spec (res : URL.t) (hostPort : std_string) :
  (str_size hostPort < npos)%Z ->
  URL.parse_authority res hostPort
  = match index_char ":" hostPort with
    | Some i =>
        do n <- stoi (drop (S i) hostPort);
        Ok (URL.set_port n (URL.set_host (take i hostPort) res))
    | None => Ok (URL.set_host hostPort res)
    end.
Proof.
  intros Hsize. unfold URL.parse_authority.
  pose proof (find_char_index hostPort ":" Hsize) as H.
  destruct (index_char ":" hostPort) as [i|].
  - destruct H as (-> & _ & Hi).
    destruct (Z.eqb_spec (Z.of_nat i) npos) as [|_];
      [unfold str_size in Hsize; lia|]. cbn [negb].
    rewrite substr_zero_take by lia. cbn [bind].
    replace (Z.of_nat i + 1)%Z with (Z.of_nat (S i)) by lia.
    by rewrite substr_from_drop by (done || lia).
  - destruct H as (_ & ->). reflexivity.
Qed.

Lemma path_parts_eq_amended (res : URL.t) (rest : std_string) :
  (str_size rest < npos)%Z ->
  URL.query res = [] -> URL.fragment res = [] ->
  (let queryPos := find_char rest "?" in
   let fragmentPos := find_char rest "#" in
   if negb (queryPos =? npos)%Z then
     do p <- substr rest 0 queryPos;
     let res := URL.set_path p res in
     if negb (fragmentPos =? npos)%Z then
       do q <- substr rest (queryPos + 1) (wrap (fragmentPos - queryPos - 1));
       let res := URL.set_query q res in
       do f <- substr_from rest (fragmentPos + 1);
       Ok (URL.set_fragment f res)
     else
       do q <- substr_from rest (queryPos + 1);
       Ok (URL.set_query q res)
   else if negb (fragmentPos =? npos)%Z then
     do p <- substr rest 0 fragmentPos;
     let res := URL.set_path p res in
     do f <- substr_from rest (fragmentPos + 1);
     Ok (URL.set_fragment f res)
   else Ok (URL.set_path rest res))
  = Ok (URL.mk (URL.scheme res) (URL.host res) (URL.port res)
               (fst (fst (path_parts_amended rest)))
               (snd (fst (path_parts_amended rest)))
               (snd (path_parts_amended rest))).
Proof.
  intros Hsize Hq Hf. cbv zeta. unfold path_parts_amended.
  pose proof (find_char_index rest "?" Hsize) as HQ.
  pose proof (find_char_index rest "#" Hsize) as HH.
  assert (Hn : (npos = 2 ^ 64 - 1)%Z) by reflexivity.
  unfold str_size in Hsize.
  destruct (index_char "?" rest) as [q|], (index_char "#" rest) as [h|].
  - destruct HQ as (-> & -> & Hql), HH as (-> & -> & Hhl). cbn [negb].
    rewrite substr_zero_take by lia. cbn [bind].
    replace (Z.of_nat h + 1)%Z with (Z.of_nat (S h)) by lia.
    replace (Z.of_nat q + 1)%Z with (Z.of_nat (S q)) by lia.
    rewrite (substr_from_drop rest (S h)) by (unfold str_size; lia).
    destruct (Nat.ltb_spec q h) as [Hlt|Hge].
    + assert (Hw : wrap (Z.of_nat h - Z.of_nat q - 1) = Z.of_nat (h - q - 1)).
      { unfold wrap, size_t_modulus. rewrite Z.mod_small; lia. }
      rewrite Hw, substr_take_drop by lia. cbn [bind]. reflexivity.
    + rewrite substr_to_end; [cbn [bind]; reflexivity|lia|].
      unfold wrap, size_t_modulus, str_size.
      replace (Z.of_nat h - Z.of_nat q - 1)%Z
        with (-1 * 2 ^ 64 + (2 ^ 64 + Z.of_nat h - Z.of_nat q - 1))%Z by lia.
      rewrite Z.add_comm, Z.mod_add by lia. rewrite Z.mod_small; lia.
  - destruct HQ as (-> & -> & Hql), HH as (_ & ->). cbn [negb].
    rewrite substr_zero_take by lia. cbn [bind].
    replace (Z.of_nat q + 1)%Z with (Z.of_nat (S q)) by lia.
    rewrite substr_from_drop by (unfold str_size; lia). cbn [bind].
    unfold URL.set_query, URL.set_path. cbn. by rewrite Hf.
  - destruct HQ as (_ & ->), HH as (-> & -> & Hhl). cbn [negb].
    rewrite substr_zero_take by lia. cbn [bind].
    replace (Z.of_nat h + 1)%Z with (Z.of_nat (S h)) by lia.
    rewrite substr_from_drop by (unfold str_size; lia). cbn [bind].
    unfold URL.set_fragment, URL.set_path. cbn. by rewrite Hq.
  - destruct HQ as (_ & ->), HH as (_ & ->). cbn [negb].
    unfold URL.set_path. cbn. by rewrite Hq, Hf.
Qed.

Lemma parse_path_eq_amended (res : URL.t) (temp : std_string) :
  (str_size temp < npos)%Z ->
  URL.query res = [] -> URL.fragment res = [] ->
  URL.parse_path res temp
  = Ok (let pqf := match index_char "/" temp with
                   | Some i => path_parts_amended (drop i temp)
                   | None => (lit "/", [], [])
                   end in
        URL.mk (URL.scheme res) (URL.host res) (URL.port res)
               (fst (fst pqf)) (snd (fst pqf)) (snd pqf)).
Proof.
  intros Hsize Hq Hf. unfold URL.parse_path.
  pose proof (find_char_index temp "/" Hsize) as H.
  destruct (index_char "/" temp) as [i|].
  - destruct H as (-> & _ & Hi).
    destruct (Z.eqb_spec (Z.of_nat i) npos) as [|_];
      [unfold str_size in Hsize; lia|]. cbn [negb].
    rewrite substr_from_drop by (done || lia). cbn [bind].
    apply path_parts_eq_amended; [|done..].
    unfold str_size in *. rewrite length_drop. lia.
  - destruct H as (_ & ->). cbn [negb]. unfold URL.set_path. cbn.
    by rewrite Hq, Hf.
Qed.

Lemma URL_parse_eq_amended (url : std_string) :
  (str_size url < npos)%Z -> URL.parse url = url_parse_amended url.
Proof.
  intros Hsize. unfold URL.parse.
  rewrite parse_scheme_eq_spec by done. cbn [bind fst snd].
  pose proof (remainder_size url Hsize) as Hrem.
  rewrite host_port_eq_spec by done. cbn [bind].
  fold (url_authority_spec url).
  assert (Ha : (str_size (url_authority_spec url) < npos)%Z).
  { unfold url_authority_spec, str_size in *.
    destruct (index_char "/" (url_remainder_spec url)); [rewrite length_take|]; lia. }
  rewrite parse_authority_eq_spec by done.
  unfold url_parse_amended, url_parse_with, url_port_spec, url_host_spec,
    url_tail_spec.
  destruct (index_char ":" (url_authority_spec url)) as [i|].
  - destruct (stoi (drop (S i) (url_authority_spec url))) as [n| |]; cbn [bind];
      [|done..].
    rewrite parse_path_eq_amended by done.
    by destruct (index_char "/" (url_remainder_spec url)).
  - cbn [bind]. rewrite parse_path_eq_amended by done.
    by destruct (index_char "/" (url_remainder_spec url)).
Qed.

Lemma url_parse_spec_amended (url : std_string) :
  fragment_before_query url = false -> url_parse_spec url = url_parse_amended url.
Proof.
  unfold fragment_before_query, url_parse_spec, url_parse_amended, url_parse_with.
  destruct (url_tail_spec url) as [rest|]; [|done].
  unfold path_parts_spec, path_parts_amended.
  destruct (index_char "?" rest) as [q|], (index_char "#" rest) as [h|]; try done.
  by destruct (q <? h).
Qed.

(** C4 (as amended): [URL::parse] on the two URLs of the specification
    yields the stated parts, and on every URL it computes the algorithm of
    the specification with step 3 as the code has it: the fragment is the
    text after the first ['#'] also when that ['#'] stands before the
    first ['?'].  On every other URL this is the algorithm as the
    specification words it.  In particular the scheme is the text before
    the first ["://"], the host is the authority up to its first [':'],
    and the port is 443 when the scheme equals ["https"] and 80 otherwise,
    unless the authority has a [':'], in which case it is the integer
    read from the text after the first one. *)
Theorem C4_url_parse_algorithm :
  URL.parse "https://api.example.com:8080/v1/users?page=1&limit=10#section"
  = Ok (URL.mk "https" "api.example.com" 8080 "/v1/users" "page=1&limit=10" "section")
  /\ URL.parse "http://example.com" = Ok (URL.mk "http" "example.com" 80 "/" "" "")
  /\ forall url : std_string,
       (str_size url < npos)%Z ->
       URL.parse url = url_parse_amended url
       /\ (fragment_before_query url = false -> URL.parse url = url_parse_spec url)
       /\ forall u : URL.t,
            URL.parse url = Ok u ->
            URL.scheme u = url_scheme_spec url
            /\ URL.host u = url_host_spec url
            /\ url_port_spec url = Ok (URL.port u)
            /\ (~ In ":"%char (url_authority_spec url) ->
                URL.port u = (if str_eqb (URL.scheme u) "https" then 443 else 80)%Z).
Proof.
  split; [vm_compute; reflexivity|].
  split; [vm_compute; reflexivity|].
  intros url Hsize. pose proof (URL_parse_eq_amended url Hsize) as Heq.
  split; [done|].
  split; [intros Hfq; by rewrite url_parse_spec_amended|].
  intros u. rewrite Heq. unfold url_parse_amended, url_parse_with.
  destruct (url_port_spec url) as [n| |] eqn:Hport; cbn [bind]; try discriminate.
  intros [= <-]. cbn [URL.scheme URL.host URL.port].
  repeat split. intros Hno. unfold url_port_spec in Hport.
  destruct (index_char ":" (url_authority_spec url)) as [i|] eqn:Hi.
  - destruct Hno. apply index_char_In in Hi. done.
  - by injection Hport as <-.
Qed.

Lemma C4_url_parse_algorithm_witness :
  URL.parse "https://example.com:8443/a/b?x=1#top"
  = url_parse_spec "https://example.com:8443/a/b?x=1#top"
  /\ url_parse_spec "https://example.com:8443/a/b?x=1#top"
     = Ok (URL.mk "https" "example.com" 8443 "/a/b" "x=1" "top").
Proof.
  destruct C4_url_parse_algorithm as (_ & _ & H).
  destruct (H (lit "https://example.com:8443/a/b?x=1#top")) as (_ & Hspec & _).
  - vm_compute. reflexivity.
  - split; [apply Hspec; vm_compute; reflexivity|].
    vm_compute. reflexivity.
Defined.

(** C4 as stated fails: in ["example.com/a#b?c"] the first ['#'] stands
    before the first ['?'].  Step 3 of the specification gives the query
    ["c"] and no fragment; the code gives the same path and query and the
    fragment ["b?c"]. *)
Lemma C4_counterexample_fragment_before_query :
  URL.parse "example.com/a#b?c" = Ok (URL.mk "" "example.com" 80 "/a#b" "c" "b?c")
  /\ url_parse_spec "example.com/a#b?c"
     = Ok (URL.mk "" "example.com" 80 "/a#b" "c" "")
  /\ URL.parse "example.com/a#b?c" <> url_parse_spec "example.com/a#b?c".
Proof.
  assert (H1 : URL.parse "example.com/a#b?c"
               = Ok (URL.mk "" "example.com" 80 "/a#b" "c" "b?c"))
    by (vm_compute; reflexivity).
  assert (H2 : url_parse_spec "example.com/a#b?c"
               = Ok (URL.mk "" "example.com" 80 "/a#b" "c" ""))
    by (vm_compute; reflexivity).
  split; [exact H1|]. split; [exact H2|]. rewrite H1, H2. discriminate.
Qed.

(** ** HttpResponse: headers and cookies *)

Lemma setHeader_spec (key value : std_string) (r : HttpResponse.t) :
  exists r', HttpResponse.setHeader key value r = Ok r'
    /\ HttpResponse.headers_ r' = <[toLower key := value]> (HttpResponse.headers_ r)
    /\ HttpResponse.cookies_ r'
       = HttpResponse.cookies_ r ++ parsed_cookies [(key, value)]
    /\ HttpResponse.statusCode_ r' = HttpResponse.statusCode_ r
    /\ HttpResponse.statusMessage_ r' = HttpResponse.statusMessage_ r
    /\ HttpResponse.body_ r' = HttpResponse.body_ r.
Proof.
  unfold HttpResponse.setHeader, parsed_cookies, is_set_cookie, filter.
  cbn [list_filter fst snd].
  destruct (str_eqb (toLower key) "set-cookie") eqn:Hk.
  - destruct (Cookie_parse_returns value) as [c Hc].
    rewrite decide_True by done. cbn [flat_map snd]. rewrite Hc. cbn [bind].
    eexists; split; [reflexivity|]. simpl. by repeat split.
  - rewrite decide_False by done. cbn [flat_map].
    eexists; split; [reflexivity|]. simpl. repeat split. by rewrite app_nil_r.
Qed.

Lemma parsed_cookies_app (kvs kvs' : list (list ascii * list ascii)) :
  parsed_cookies (kvs ++ kvs') = parsed_cookies kvs ++ parsed_cookies kvs'.
Proof. unfold parsed_cookies. by rewrite filter_app, flat_map_app. Qed.

Lemma parsed_cookies_length (kvs : list (list ascii * list ascii)) :
  length (parsed_cookies kvs) = length (filter (fun kv => is_set_cookie kv = true) kvs).
Proof.
  unfold parsed_cookies.
  induction (filter _ kvs) as [|kv l IH]; [reflexivity|].
  cbn [flat_map]. rewrite length_app, IH.
  by destruct (Cookie_parse_returns (snd kv)) as [c ->].
Qed.

Lemma set_headers_snoc (kvs : list (list ascii * list ascii))
    (kv : list ascii * list ascii) (r : HttpResponse.t) :
  set_headers (kvs ++ [kv]) r
  = (do r' <- set_headers kvs r; HttpResponse.setHeader (fst kv) (snd kv) r').
Proof. unfold set_headers. by rewrite fold_left_app. Qed.

Lemma set_headers_spec (kvs : list (list ascii * list ascii)) (r : HttpResponse.t) :
  exists r', set_headers kvs r = Ok r'
    /\ HttpResponse.headers_ r' = stored_headers kvs (HttpResponse.headers_ r)
    /\ HttpResponse.cookies_ r' = HttpResponse.cookies_ r ++ parsed_cookies kvs.
Proof.
  induction kvs as [|kv kvs IH] using rev_ind.
  - exists r. repeat split. by rewrite app_nil_r.
  - destruct IH as (r1 & Hr1 & Hh & Hc).
    destruct (setHeader_spec (fst kv) (snd kv) r1) as (r2 & Hr2 & Hh2 & Hc2 & _).
    exists r2. rewrite set_headers_snoc, Hr1. cbn [bind].
    split; [done|]. split.
    + unfold stored_headers in *. by rewrite fold_left_app, Hh2, Hh.
    + rewrite parsed_cookies_app, Hc2, Hc, <- app_assoc. by destruct kv.
Qed.

Lemma tolower_idempotent (c : char) : tolower (tolower c) = tolower c.
Proof.
  apply char_eqb_eq. revert c.
  apply (for_all_chars_spec tolower_idempotent_check). vm_compute. reflexivity.
Qed.

Lemma toLower_idempotent (s : std_string) : toLower (toLower s) = toLower s.
Proof.
  unfold toLower. induction s as [|c s IH]; [reflexivity|].
  cbn [map]. by rewrite tolower_idempotent, IH.
Qed.

(** Keys stay lowercase. *)
Lemma stored_headers_lowercase (kvs : list (list ascii * list ascii))
    (m : gmap (list ascii) (list ascii)) :
  (forall k : std_string, is_Some (m !! k) -> toLower k = k) ->
  forall k : std_string, is_Some (stored_headers kvs m !! k) -> toLower k = k.
Proof.
  revert m. induction kvs as [|kv kvs IH]; intros m Hm; [done|].
  unfold stored_headers in *. cbn [fold_left]. apply IH.
  intros k. destruct (decide (toLower (fst kv) = k)) as [<-|Hne].
  - intros _. apply toLower_idempotent.
  - rewrite lookup_insert_ne by done. apply Hm.
Qed.

(** C5: after any sequence of [setHeader] calls on a response, the header
    map holds each value under its lowercased key (so its keys stay
    lowercase), a later call replacing the value of an earlier one with the
    same lowercased key, and the cookie list is the old list followed by one
    [Cookie::parse]d cookie for every call whose lowercased key is
    ["set-cookie"]; [Set-Cookie: a=1] then [Set-Cookie: b=2] leaves two
    cookies. *)
Theorem C5_setHeader_lowercase_and_cookies
    (kvs : list (list ascii * list ascii)) (r : HttpResponse.t) :
  (exists r', set_headers kvs r = Ok r'
     /\ HttpResponse.headers_ r' = stored_headers kvs (HttpResponse.headers_ r)
     /\ ((forall k : std_string,
            is_Some (HttpResponse.headers_ r !! k) -> toLower k = k) ->
         forall k : std_string,
           is_Some (HttpResponse.headers_ r' !! k) -> toLower k = k)
     /\ HttpResponse.cookies_ r' = HttpResponse.cookies_ r ++ parsed_cookies kvs
     /\ length (HttpResponse.cookies_ r')
        = length (HttpResponse.cookies_ r)
          + length (filter (fun kv => is_set_cookie kv = true) kvs)
     /\ forall key value : std_string,
          exists r'', HttpResponse.setHeader key value r' = Ok r''
            /\ HttpResponse.headers_ r''
               = <[toLower key := value]> (HttpResponse.headers_ r')
            /\ HttpResponse.headers_ r'' !! toLower key = Some value)
  /\ exists r2, set_headers [(lit "Set-Cookie", lit "a=1"); (lit "Set-Cookie", lit "b=2")]
                            HttpResponse.init = Ok r2
       /\ HttpResponse.cookies_ r2 = [Cookie.make "a" "1"; Cookie.make "b" "2"]
       /\ HttpResponse.headers_ r2 !! lit "set-cookie" = Some (lit "b=2").
Proof.
  split.
  - destruct (set_headers_spec kvs r) as (r' & Hr' & Hh & Hc).
    exists r'. split; [done|]. split; [done|]. split; [|split; [done|split]].
    + rewrite Hh. apply stored_headers_lowercase.
    + by rewrite Hc, length_app, parsed_cookies_length.
    + intros key value.
      destruct (setHeader_spec key value r') as (r'' & Hr'' & Hh'' & _).
      exists r''. repeat split; try done.
      rewrite Hh''. apply lookup_insert_eq.
  - eexists. split; [vm_compute; reflexivity|]. split; [reflexivity|].
    vm_compute. reflexivity.
Qed.

Lemma C5_setHeader_lowercase_and_cookies_witness :
  exists r', set_headers [(lit "Content-Type", lit "text/html"); (lit "SET-COOKIE", lit "a=1")]
                         HttpResponse.init = Ok r'
    /\ (forall k : std_string,
          is_Some (HttpResponse.headers_ r' !! k) -> toLower k = k)
    /\ length (HttpResponse.cookies_ r') = 1.
Proof.
  destruct (C5_setHeader_lowercase_and_cookies
              [(lit "Content-Type", lit "text/html"); (lit "SET-COOKIE", lit "a=1")]
              HttpResponse.init) as ((r' & Hr' & _ & Hlow & _ & Hlen & _) & _).
  exists r'. split; [exact Hr'|]. split.
  - apply Hlow. intros k [v Hv]. cbn in Hv. rewrite lookup_empty in Hv. discriminate.
  - rewrite Hlen. vm_compute. reflexivity.
Defined.

(** ** HttpResponse: content length *)

Lemma toLower_content_length : toLower "content-length" = lit "content-length".
Proof. reflexivity. Qed.

Lemma stoull_no_fuel (s : std_string) : stoull s <> OutOfFuel.
Proof.
  unfold stoull. destruct (parse_decimal s) as [[neg m]|]; [|done].
  by destruct (m <=? ULLONG_MAX)%Z.
Qed.

(** C7 (as amended): [getContentLength] returns what [std::stoull] reads
    from a non-empty [content-length] value, returns 0 when [std::stoull]
    throws on a non-empty value, and returns the length of the body when
    the header is absent or its value is empty. *)
Theorem C7_getContentLength_cases (r : HttpResponse.t) :
  (forall v : std_string,
     HttpResponse.headers_ r !! lit "content-length" = Some v -> v <> [] ->
     (forall n, stoull v = Ok n -> HttpResponse.getContentLength r = Ok n)
     /\ (forall e, stoull v = Throw e -> HttpResponse.getContentLength r = Ok 0%Z))
  /\ (HttpResponse.headers_ r !! lit "content-length" = None
      \/ HttpResponse.headers_ r !! lit "content-length" = Some [] ->
      HttpResponse.getContentLength r = Ok (str_size (HttpResponse.body_ r)))
  /\ returns (HttpResponse.getContentLength r).
Proof.
  unfold HttpResponse.getContentLength, HttpResponse.getHeader.
  rewrite toLower_content_length.
  destruct (HttpResponse.headers_ r !! lit "content-length") as [v|] eqn:Hv.
  - destruct (decide (v = [])) as [->|Hne].
    + rewrite bool_decide_eq_true_2 by done. cbn [negb].
      split; [by intros v [= <-] Hv'|]. split; [done|apply returns_Ok].
    + rewrite bool_decide_eq_false_2 by done. cbn [negb].
      split; [|split].
      * intros v' [= <-] _. split; [by intros n ->|by intros e ->].
      * by intros [|[= ->]].
      * pose proof (stoull_no_fuel v).
        destruct (stoull v); [apply returns_Ok|apply returns_Ok|done].
  - rewrite bool_decide_eq_true_2 by done. cbn [negb].
    split; [done|]. split; [done|apply returns_Ok].
Qed.

Lemma C7_getContentLength_cases_witness :
  HttpResponse.getContentLength
    (HttpResponse.mk 200 "OK" {[ lit "content-length" := lit "42" ]} "hello" [])
  = Ok 42%Z.
Proof.
  destruct (C7_getContentLength_cases
              (HttpResponse.mk 200 "OK" {[ lit "content-length" := lit "42" ]} "hello" []))
    as (H & _ & _).
  destruct (H (lit "42")) as [Hok _].
  - vm_compute. reflexivity.
  - discriminate.
  - apply Hok. vm_compute. reflexivity.
Defined.

(** C7 as stated fails: with [Content-Length: abc] and the body
    ["hello"], the value cannot be read as a number, yet the answer is 0 and
    not the length 5 of the body. *)
Lemma C7_counterexample_unparsable_length :
  exists r, set_headers [(lit "Content-Length", lit "abc")]
                        (HttpResponse.setBody "hello" HttpResponse.init) = Ok r
    /\ stoull (HttpResponse.getHeader "content-length" r) = Throw invalid_argument
    /\ str_size (HttpResponse.body_ r) = 5%Z
    /\ HttpResponse.getContentLength r = Ok 0%Z
    /\ HttpResponse.getContentLength r <> Ok (str_size (HttpResponse.body_ r)).
Proof.
  eexists. split; [vm_compute; reflexivity|].
  vm_compute. repeat split; discriminate.
Qed.

(** ** RequestBuilder *)

Lemma setBody_body (b : RequestBuilder.t) (body : std_string) :
  RequestBuilder.body_ (RequestBuilder.setBody body b) = body.
Proof.
  unfold RequestBuilder.setBody. by destruct (negb (bool_decide (body = []))).
Qed.

Lemma setBody_headers (b : RequestBuilder.t) (body : std_string) :
  RequestBuilder.headers_ (RequestBuilder.setBody body b)
  = if bool_decide (body = []) then RequestBuilder.headers_ b
    else <[lit "Content-Length" := to_string (str_size body)]> (RequestBuilder.headers_ b).
Proof.
  unfold RequestBuilder.setBody. by destruct (bool_decide (body = [])).
Qed.

(** C8 (as amended): [setBody(b)] stores [b] as the body and, when [b] is
    not empty, sets [Content-Length] to [std::to_string] of its length; it
    changes no other header, so [Content-Type] is what it was; the shortcut
    [setJsonBody] is the one that sets [Content-Type] before it calls
    [setBody]. *)
Theorem C8_setBody_content_length (b : RequestBuilder.t) (body : std_string) :
  RequestBuilder.body_ (RequestBuilder.setBody body b) = body
  /\ (body <> [] ->
      RequestBuilder.headers_ (RequestBuilder.setBody body b)
      = <[lit "Content-Length" := to_string (str_size body)]> (RequestBuilder.headers_ b))
  /\ (body = [] ->
      RequestBuilder.headers_ (RequestBuilder.setBody body b) = RequestBuilder.headers_ b)
  /\ RequestBuilder.headers_ (RequestBuilder.setBody body b) !! lit "Content-Type"
     = RequestBuilder.headers_ b !! lit "Content-Type"
  /\ RequestBuilder.headers_ (RequestBuilder.setJsonBody body b) !! lit "Content-Type"
     = Some (lit "application/json")
  /\ RequestBuilder.body_ (RequestBuilder.setJsonBody body b) = body.
Proof.
  split; [apply setBody_body|].
  split; [intros H; rewrite setBody_headers; by rewrite bool_decide_eq_false_2|].
  split; [intros H; rewrite setBody_headers; by rewrite bool_decide_eq_true_2|].
  split; [|split].
  - rewrite setBody_headers. destruct (bool_decide (body = [])); [done|].
    by rewrite lookup_insert_ne.
  - unfold RequestBuilder.setJsonBody. rewrite setBody_headers.
    destruct (bool_decide (body = [])).
    + apply lookup_insert_eq.
    + rewrite lookup_insert_ne by done. apply lookup_insert_eq.
  - unfold RequestBuilder.setJsonBody. apply setBody_body.
Qed.

Lemma C8_setBody_content_length_witness :
  RequestBuilder.headers_ (RequestBuilder.setBody "hello" (RequestBuilder.make POST "http://h/"))
  = <[lit "Content-Length" := lit "5"]> ∅.
Proof.
  destruct (C8_setBody_content_length (RequestBuilder.make POST "http://h/") "hello")
    as (_ & H & _).
  apply H. discriminate.
Defined.

(** C8 as stated fails: [setBody] alone leaves the request without a
    [Content-Type] header. *)
Lemma C8_counterexample_no_content_type :
  RequestBuilder.headers_ (RequestBuilder.setBody "x" (RequestBuilder.make POST "http://h/"))
    !! lit "Content-Type" = None
  /\ RequestBuilder.headers_ (RequestBuilder.setBody "x" (RequestBuilder.make POST "http://h/"))
     = <[lit "Content-Length" := lit "1"]> ∅.
Proof.
  rewrite setBody_headers. rewrite bool_decide_eq_false_2 by discriminate.
  split; [|reflexivity].
  rewrite lookup_insert_ne by discriminate. apply lookup_empty.
Qed.

(** The header loop of [build] copies the map of the builder. *)
Lemma build_copies_headers (request : HttpRequest.t)
    (headers : gmap (list ascii) (list ascii)) :
  HttpRequest.headers_ request = ∅ ->
  HttpRequest.headers_
    (map_fold (fun key value req => HttpRequest.setHeader key value req) request headers)
  = headers.
Proof.
  intros Hempty.
  apply (map_fold_weak_ind (fun req m => HttpRequest.headers_ req = m)); [done|].
  intros i x m req _ Hreq. simpl. by rewrite Hreq.
Qed.

Lemma cookie_header_loop_next (cookies : list Cookie.t) :
  forall (i : Z) (cookieHeader : std_string),
    (0 < i)%Z ->
    RequestBuilder.cookie_header_loop cookies i cookieHeader
    = cookieHeader ++ flat_map (fun c => lit "; " ++ cookie_pair c) cookies.
Proof.
  induction cookies as [|c rest IH]; intros i acc Hi; simpl.
  - by rewrite app_nil_r.
  - destruct (Z.ltb_spec 0 i); [|lia].
    rewrite IH by lia. unfold cookie_pair. by rewrite <- !app_assoc.
Qed.

Lemma join_with_cons (sep p : std_string) (parts : list (list ascii)) :
  join_with sep (p :: parts) = p ++ flat_map (fun q => sep ++ q) parts.
Proof.
  revert p. induction parts as [|q parts IH]; intros p.
  - simpl. by rewrite app_nil_r.
  - cbn [join_with flat_map] in *. rewrite IH. by rewrite <- app_assoc.
Qed.

Lemma cookie_header_loop_eq_spec (cookies : list Cookie.t) :
  RequestBuilder.cookie_header_loop cookies 0 [] = cookie_header_spec cookies.
Proof.
  destruct cookies as [|c rest]; [reflexivity|].
  unfold cookie_header_spec. cbn [map]. rewrite join_with_cons.
  cbn [RequestBuilder.cookie_header_loop]. simpl (0 <? 0)%Z. cbv iota.
  rewrite cookie_header_loop_next by lia.
  unfold cookie_pair at 1. cbn [app]. f_equal.
  induction rest as [|d rest IH]; [reflexivity|].
  cbn [flat_map map]. by rewrite IH.
Qed.

Lemma add_cookies_cookies (cs : list Cookie.t) (b : RequestBuilder.t) :
  RequestBuilder.cookies_ (add_cookies cs b) = RequestBuilder.cookies_ b ++ cs.
Proof.
  revert b. induction cs as [|c cs IH]; intros b.
  - by rewrite app_nil_r.
  - unfold add_cookies in *. cbn [fold_left]. rewrite IH. simpl.
    by rewrite <- app_assoc.
Qed.

Lemma add_cookies_headers (cs : list Cookie.t) (b : RequestBuilder.t) :
  RequestBuilder.headers_ (add_cookies cs b) = RequestBuilder.headers_ b.
Proof.
  revert b. induction cs as [|c cs IH]; intros b; [done|].
  unfold add_cookies in *. cbn [fold_left]. by rewrite IH.
Qed.

Lemma build_headers (b : RequestBuilder.t) :
  HttpRequest.headers_ (RequestBuilder.build b)
  = if bool_decide (RequestBuilder.cookies_ b = []) then RequestBuilder.headers_ b
    else <[lit "Cookie" := cookie_header_spec (RequestBuilder.cookies_ b)]>
           (RequestBuilder.headers_ b).
Proof.
  unfold RequestBuilder.build.
  destruct (bool_decide (RequestBuilder.cookies_ b = [])); cbn [negb]; simpl.
  - by apply build_copies_headers.
  - rewrite build_copies_headers by done. by rewrite cookie_header_loop_eq_spec.
Qed.

(** C9: after one or more [addCookie] calls, [build()] gives a request
    whose ["Cookie"] header is the [name=value] pairs of all accumulated
    cookies, in the order they were added, joined with ["; "]; the other
    headers are those of the builder. *)
Theorem C9_build_cookie_header (b : RequestBuilder.t) (cs : list Cookie.t) :
  cs <> [] ->
  RequestBuilder.cookies_ (add_cookies cs b) = RequestBuilder.cookies_ b ++ cs
  /\ HttpRequest.getHeader "Cookie" (RequestBuilder.build (add_cookies cs b))
     = cookie_header_spec (RequestBuilder.cookies_ b ++ cs)
  /\ HttpRequest.hasHeader "Cookie" (RequestBuilder.build (add_cookies cs b)) = true
  /\ forall key : std_string,
       key <> lit "Cookie" ->
       HttpRequest.headers_ (RequestBuilder.build (add_cookies cs b)) !! key
       = RequestBuilder.headers_ b !! key.
Proof.
  intros Hcs. split; [apply add_cookies_cookies|].
  assert (Hh : HttpRequest.headers_ (RequestBuilder.build (add_cookies cs b))
               = <[lit "Cookie" := cookie_header_spec (RequestBuilder.cookies_ b ++ cs)]>
                   (RequestBuilder.headers_ b)).
  { rewrite build_headers, add_cookies_cookies, add_cookies_headers.
    rewrite bool_decide_eq_false_2; [done|].
    intros Happ. apply app_eq_nil in Happ as [_ ?]. done. }
  unfold HttpRequest.getHeader, HttpRequest.hasHeader. rewrite Hh.
  split; [by rewrite lookup_insert_eq|].
  split; [rewrite lookup_insert_eq; by apply bool_decide_eq_true_2|].
  intros key Hkey. by rewrite lookup_insert_ne.
Qed.

Lemma C9_build_cookie_header_witness :
  HttpRequest.getHeader "Cookie"
    (RequestBuilder.build
       (add_cookies [Cookie.make "sid" "abc"; Cookie.make "theme" "dark"]
                    (RequestBuilder.make GET "http://example.com/")))
  = lit "sid=abc; theme=dark".
Proof.
  destruct (C9_build_cookie_header (RequestBuilder.make GET "http://example.com/")
              [Cookie.make "sid" "abc"; Cookie.make "theme" "dark"]) as (_ & H & _).
  - discriminate.
  - rewrite H. reflexivity.
Defined.

(** ** HttpResponse: [getCookie] *)

Lemma find_cookie_absent (name : std_string) (cookies : list Cookie.t) :
  (forall c, In c cookies -> Cookie.name c <> name) ->
  HttpResponse.find_cookie name cookies = None.
Proof.
  induction cookies as [|c cookies IH]; intros Habs; [reflexivity|].
  cbn [HttpResponse.find_cookie]. unfold str_eqb.
  rewrite bool_decide_eq_false_2 by (apply Habs; by left).
  apply IH. intros c' Hc'. apply Habs. by right.
Qed.

(** C10: when no stored cookie has the name asked for, [getCookie] does
    not fail and returns the default-constructed cookie, all of whose
    strings are empty and both of whose flags are false; the same value is
    returned for a stored cookie that equals the default one (as after
    [Set-Cookie:] with an empty value), so the two cases cannot be told
    apart from the result. *)
Theorem C10_getCookie_absent_default (r : HttpResponse.t) (name : std_string) :
  (forall c, In c (HttpResponse.cookies_ r) -> Cookie.name c <> name) ->
  HttpResponse.getCookie name r = Cookie.mk [] [] [] [] false false []
  /\ HttpResponse.hasCookie name r = false
  /\ exists r1, HttpResponse.setHeader "Set-Cookie" "" HttpResponse.init = Ok r1
       /\ HttpResponse.hasCookie "" r1 = true
       /\ HttpResponse.hasCookie "" HttpResponse.init = false
       /\ HttpResponse.getCookie "" r1 = HttpResponse.getCookie "" HttpResponse.init.
Proof.
  intros Habs. unfold HttpResponse.getCookie, HttpResponse.hasCookie.
  rewrite (find_cookie_absent name _ Habs).
  split; [reflexivity|]. split; [reflexivity|].
  eexists. split; [vm_compute; reflexivity|]. by repeat split.
Qed.

Lemma C10_getCookie_absent_default_witness :
  HttpResponse.getCookie "theme"
    (HttpResponse.mk 200 "OK" ∅ [] [Cookie.make "sid" "abc"])
  = Cookie.init.
Proof.
  destruct (C10_getCookie_absent_default
              (HttpResponse.mk 200 "OK" ∅ [] [Cookie.make "sid" "abc"]) "theme")
    as (H & _).
  - intros c [<-|[]]. discriminate.
  - exact H.
Defined.

(** * Further properties of the code *)

(** ** UrlEncoder: what [encode] emits *)

Lemma encode_char_alphabet (c : char) :
  (forall ch, In ch (UrlEncoder.encode_char c) ->
              mem_char ch unreserved_set = true \/ ch = "%"%char)
  /\ 1 <= length (UrlEncoder.encode_char c) <= 3.
Proof.
  assert (H : encode_char_alphabet_check c = true).
  { revert c. apply for_all_chars_spec. vm_compute. reflexivity. }
  unfold encode_char_alphabet_check in H.
  apply andb_true_iff in H as [[H1 H2]%andb_true_iff H3].
  apply Nat.leb_le in H2, H3. split; [|lia].
  intros ch Hch. rewrite forallb_forall in H1. specialize (H1 ch Hch).
  apply orb_true_iff in H1 as [H1|H1]; [by left|right].
  symmetry. by apply char_eqb_eq.
Qed.

(** X1: [encode] writes only bytes of the unreserved set and ['%'], so its
    output never contains a space, ['+'], ['&'], ['='], ['?'] or ['#'];
    the output has at least as many bytes as the input and at most three
    times as many. *)
Theorem X1_encode_alphabet_and_length (s : std_string) :
  (forall ch, In ch (UrlEncoder.encode s) ->
              mem_char ch unreserved_set = true \/ ch = "%"%char)
  /\ (forall ch, In ch (lit " +&=?#/:;") -> ~ In ch (UrlEncoder.encode s))
  /\ length s <= length (UrlEncoder.encode s) <= 3 * length s.
Proof.
  assert (Halpha : forall ch, In ch (UrlEncoder.encode s) ->
                     mem_char ch unreserved_set = true \/ ch = "%"%char).
  { unfold UrlEncoder.encode. intros ch Hch.
    apply in_flat_map in Hch as (c & _ & Hc).
    by apply (encode_char_alphabet c). }
  split; [exact Halpha|]. split.
  - intros ch Hch Hin. specialize (Halpha ch Hin).
    cbn in Hch.
    repeat (destruct Hch as [<-|Hch];
            [destruct Halpha as [Hm|Hm]; [by vm_compute in Hm|discriminate]|]).
    destruct Hch.
  - clear Halpha. unfold UrlEncoder.encode.
    induction s as [|c s IH]; [simpl; lia|].
    cbn [flat_map]. rewrite length_app. cbn [length].
    pose proof (encode_char_alphabet c) as [_ Hlen]. lia.
Qed.

(** X2: [encode] is injective: two different byte strings never have the
    same encoding. *)
Theorem X2_encode_injective (s t : std_string) :
  UrlEncoder.encode s = UrlEncoder.encode t -> s = t.
Proof.
  intros H. rewrite <- (decode_rest_encode s), <- (decode_rest_encode t).
  by rewrite H.
Qed.

Lemma X2_encode_injective_witness : lit "a b" = lit "a b".
Proof.
  apply (X2_encode_injective (lit "a b") (lit "a b")). reflexivity.
Defined.

(** ** UrlEncoder: what [decode] keeps *)

Lemma decode_rest_plain (s : std_string) :
  (forall ch, In ch s -> ch <> "%"%char /\ ch <> "+"%char) ->
  decode_rest s = s.
Proof.
  induction s as [|c s IH]; intros Hs; [reflexivity|].
  cbn [decode_rest].
  destruct (Hs c (or_introl eq_refl)) as [Hp Hplus].
  destruct (char_eqb c "%") eqn:E1; [by apply char_eqb_eq in E1|].
  destruct (char_eqb c "+") eqn:E2; [by apply char_eqb_eq in E2|].
  f_equal. apply IH. intros ch Hch. apply Hs. by right.
Qed.

Lemma decode_rest_length (n : nat) :
  forall s : std_string, length s <= n -> length (decode_rest s) <= length s.
Proof.
  induction n as [|n IH]; intros s Hn.
  - destruct s; [simpl; lia|simpl in Hn; lia].
  - destruct s as [|c rest]; [simpl; lia|].
    cbn [decode_rest]. simpl in Hn.
    assert (Hrest : length (decode_rest rest) <= length rest) by (apply IH; lia).
    destruct (char_eqb c "%").
    + destruct rest as [|a [|b rest']]; try (simpl in *; lia).
      destruct (extract_hex_int [a; b]); [|simpl in *; lia].
      assert (length (decode_rest rest') <= length rest')
        by (apply IH; simpl in *; lia).
      simpl in *. lia.
    + destruct (char_eqb c "+"); simpl in *; lia.
Qed.

(** X3: [decode] returns for every input a string that is no longer than
    the input, and it returns the input itself when the input has neither
    ['%'] nor ['+']. *)
Theorem X3_decode_length_and_plain (s : std_string) :
  exists d, UrlEncoder.decode s = Ok d
    /\ length d <= length s
    /\ ((forall ch, In ch s -> ch <> "%"%char /\ ch <> "+"%char) -> d = s).
Proof.
  exists (decode_rest s). split; [apply decode_eq_rest|]. split.
  - by apply (decode_rest_length (length s)).
  - apply decode_rest_plain.
Qed.

Lemma X3_decode_length_and_plain_witness :
  UrlEncoder.decode "a-b_c" = Ok (lit "a-b_c").
Proof.
  destruct (X3_decode_length_and_plain (lit "a-b_c")) as (d & Hd & _ & Hplain).
  rewrite Hd. f_equal. apply Hplain.
  intros ch Hch. cbn in Hch.
  repeat (destruct Hch as [<-|Hch]; [split; discriminate|]). destruct Hch.
Defined.

(** ** HttpResponse: status classes *)

(** X4: the five status predicates split the codes from 100 to 599 into
    the five hundreds, no code is in two classes, and [getStatusCategory]
    names the class of the code and answers ["Unknown"] exactly for the
    codes below 100 or from 600 on. *)
Theorem X4_status_classes (r : HttpResponse.t) :
  let c := HttpResponse.statusCode_ r in
  (HttpResponse.getStatusCategory r = lit "Informational" <-> (100 <= c < 200)%Z)
  /\ (HttpResponse.getStatusCategory r = lit "Success" <-> (200 <= c < 300)%Z)
  /\ (HttpResponse.getStatusCategory r = lit "Redirect" <-> (300 <= c < 400)%Z)
  /\ (HttpResponse.getStatusCategory r = lit "Client Error" <-> (400 <= c < 500)%Z)
  /\ (HttpResponse.getStatusCategory r = lit "Server Error" <-> (500 <= c < 600)%Z)
  /\ (HttpResponse.getStatusCategory r = lit "Unknown" <-> (c < 100 \/ 600 <= c)%Z)
  /\ (HttpResponse.isSuccess r = true <-> (200 <= c < 300)%Z)
  /\ (HttpResponse.isSuccess r = true ->
      HttpResponse.isInformational r = false /\ HttpResponse.isRedirect r = false
      /\ HttpResponse.isClientError r = false /\ HttpResponse.isServerError r = false).
Proof.
  intros c. subst c.
  unfold HttpResponse.getStatusCategory, HttpResponse.isInformational,
    HttpResponse.isSuccess, HttpResponse.isRedirect, HttpResponse.isClientError,
    HttpResponse.isServerError.
  set (c := HttpResponse.statusCode_ r).
  assert (Hc : (c < 100 \/ 100 <= c < 200 \/ 200 <= c < 300 \/ 300 <= c < 400
                \/ 400 <= c < 500 \/ 500 <= c < 600 \/ 600 <= c)%Z) by lia.
  destruct Hc as [Hc|[Hc|[Hc|[Hc|[Hc|[Hc|Hc]]]]]];
    repeat match goal with
           | |- context [(?a <=? ?b)%Z] =>
               destruct (Z.leb_spec a b); try (exfalso; lia)
           | |- context [(?a <? ?b)%Z] =>
               destruct (Z.ltb_spec a b); try (exfalso; lia)
           end;
    cbn [andb];
    repeat split; intros; try lia; try discriminate; try reflexivity.
Qed.

Lemma X4_status_classes_witness :
  HttpResponse.isRedirect (HttpResponse.mk 204 "No Content" ∅ [] []) = false.
Proof.
  destruct (X4_status_classes (HttpResponse.mk 204 "No Content" ∅ [] []))
    as (_ & _ & _ & _ & _ & _ & _ & H).
  apply H. reflexivity.
Defined.

(** ** HttpResponse: cookies by name *)

Lemma find_cookie_filter (name : std_string) (cookies : list Cookie.t) :
  HttpResponse.find_cookie name cookies
  = head (filter (fun cookie => Cookie.name cookie = name) cookies).
Proof.
  induction cookies as [|c cookies IH]; [reflexivity|].
  cbn [HttpResponse.find_cookie]. unfold str_eqb. rewrite filter_cons.
  destruct (decide (Cookie.name c = name)) as [Heq|Hne].
  - by rewrite bool_decide_eq_true_2.
  - by rewrite bool_decide_eq_false_2.
Qed.

(** X5: [getCookie], [hasCookie] and [getCookiesByName] agree:
    [getCookiesByName] returns, in their stored order, exactly the cookies
    with the name asked for; [getCookie] returns the first of them, or the
    default cookie when there is none; [hasCookie] tells whether there is
    one. *)
Theorem X5_cookie_lookups_agree (name : std_string) (r : HttpResponse.t) :
  (forall c, In c (HttpResponse.getCookiesByName name r)
             <-> In c (HttpResponse.cookies_ r) /\ Cookie.name c = name)
  /\ HttpResponse.getCookie name r
     = hd Cookie.init (HttpResponse.getCookiesByName name r)
  /\ (HttpResponse.hasCookie name r = true
      <-> HttpResponse.getCookiesByName name r <> [])
  /\ (HttpResponse.hasCookie name r = true ->
      Cookie.name (HttpResponse.getCookie name r) = name).
Proof.
  unfold HttpResponse.getCookie, HttpResponse.hasCookie, HttpResponse.getCookiesByName.
  rewrite find_cookie_filter.
  split.
  { intros c. rewrite <- !list_elem_of_In. by rewrite list_elem_of_filter, (comm and). }
  destruct (filter _ (HttpResponse.cookies_ r)) as [|c l] eqn:Hf; cbn [head hd].
  - by repeat split.
  - repeat split; try done. intros _.
    assert (Hc : c ∈ filter (fun cookie => Cookie.name cookie = name)
                        (HttpResponse.cookies_ r)) by (rewrite Hf; left).
    by apply list_elem_of_filter in Hc as [Hc _].
Qed.

Lemma X5_cookie_lookups_agree_witness :
  Cookie.name (HttpResponse.getCookie "sid"
     (HttpResponse.mk 200 "OK" ∅ [] [Cookie.make "a" "1"; Cookie.make "sid" "x"]))
  = lit "sid".
Proof.
  destruct (X5_cookie_lookups_agree "sid"
     (HttpResponse.mk 200 "OK" ∅ [] [Cookie.make "a" "1"; Cookie.make "sid" "x"]))
    as (_ & _ & _ & H).
  apply H. reflexivity.
Defined.

(** ** HttpResponse: header names are not case sensitive *)

(** X6: after [setHeader(k, v)] on a response, [getHeader] answers [v]
    and [hasHeader] answers true for every spelling of the key that differs
    from [k] only in the case of its letters, and the answers for all other
    keys are what they were. *)
Theorem X6_response_headers_case_insensitive
    (key value : std_string) (r : HttpResponse.t) :
  exists r', HttpResponse.setHeader key value r = Ok r'
    /\ (forall key', toLower key' = toLower key ->
          HttpResponse.getHeader key' r' = value
          /\ HttpResponse.hasHeader key' r' = true)
    /\ (forall key', toLower key' <> toLower key ->
          HttpResponse.getHeader key' r' = HttpResponse.getHeader key' r
          /\ HttpResponse.hasHeader key' r' = HttpResponse.hasHeader key' r).
Proof.
  destruct (setHeader_spec key value r) as (r' & Hr' & Hh & _).
  exists r'. split; [done|].
  unfold HttpResponse.getHeader, HttpResponse.hasHeader. rewrite Hh.
  split; intros key' Hk.
  - rewrite Hk, lookup_insert_eq. split; [done|]. by apply bool_decide_eq_true_2.
  - by rewrite lookup_insert_ne.
Qed.

Lemma X6_response_headers_case_insensitive_witness :
  exists r', HttpResponse.setHeader "Content-Type" "text/html" HttpResponse.init = Ok r'
    /\ HttpResponse.getHeader "CONTENT-TYPE" r' = lit "text/html".
Proof.
  destruct (X6_response_headers_case_insensitive "Content-Type" "text/html"
              HttpResponse.init) as (r' & Hr' & Hsame & _).
  exists r'. split; [exact Hr'|]. apply Hsame. reflexivity.
Defined.

(** ** RequestBuilder: what [build] copies *)

(** X7: [build()] copies the method, the URL, the body and the timeout of
    the builder; it never fills the cookie list of the request, whose
    accumulated cookies are only written into the ["Cookie"] header; with
    no accumulated cookie the headers are those of the builder, and with
    one or more the ["Cookie"] header replaces any set with [addHeader]. *)
Theorem X7_build_copies (b : RequestBuilder.t) :
  HttpRequest.method_ (RequestBuilder.build b) = RequestBuilder.method_ b
  /\ HttpRequest.url_ (RequestBuilder.build b) = RequestBuilder.url_ b
  /\ HttpRequest.body_ (RequestBuilder.build b) = RequestBuilder.body_ b
  /\ HttpRequest.timeout_ (RequestBuilder.build b) = RequestBuilder.timeout_ b
  /\ HttpRequest.cookies_ (RequestBuilder.build b) = []
  /\ (RequestBuilder.cookies_ b = [] ->
      HttpRequest.headers_ (RequestBuilder.build b) = RequestBuilder.headers_ b)
  /\ (RequestBuilder.cookies_ b <> [] ->
      forall old : std_string,
        HttpRequest.headers_
          (RequestBuilder.build (RequestBuilder.addHeader "Cookie" old b))
        = HttpRequest.headers_ (RequestBuilder.build b)).
Proof.
  assert (Hfold : forall (P : HttpRequest.t -> Prop) request headers,
            P request ->
            (forall k v req, P req -> P (HttpRequest.setHeader k v req)) ->
            P (map_fold (fun key value req => HttpRequest.setHeader key value req)
                        request headers)).
  { intros P request headers H0 Hstep.
    apply (map_fold_weak_ind (fun req _ => P req)); [done|].
    intros i x m req _ Hreq. by apply Hstep. }
  unfold RequestBuilder.build.
  repeat split.
  - destruct (negb _); simpl;
      apply (Hfold (fun req => HttpRequest.method_ req = RequestBuilder.method_ b)); done.
  - destruct (negb _); simpl;
      apply (Hfold (fun req => HttpRequest.url_ req = RequestBuilder.url_ b)); done.
  - destruct (negb _); simpl;
      apply (Hfold (fun req => HttpRequest.cookies_ req = [])); done.
  - intros Hnil. fold (RequestBuilder.build b). rewrite build_headers.
    by rewrite bool_decide_eq_true_2.
  - intros Hne old. fold (RequestBuilder.build b).
    fold (RequestBuilder.build (RequestBuilder.addHeader "Cookie" old b)).
    rewrite !build_headers. cbn [RequestBuilder.addHeader RequestBuilder.cookies_
      RequestBuilder.headers_].
    rewrite bool_decide_eq_false_2 by done. apply insert_insert_eq.
Qed.

Lemma X7_build_copies_witness :
  HttpRequest.headers_
    (RequestBuilder.build
       (RequestBuilder.addHeader "Accept" "*/*" (RequestBuilder.make GET "http://h/")))
  = <[lit "Accept" := lit "*/*"]> ∅.
Proof.
  destruct (X7_build_copies
       (RequestBuilder.addHeader "Accept" "*/*" (RequestBuilder.make GET "http://h/")))
    as (_ & _ & _ & _ & _ & H & _).
  apply H. reflexivity.
Defined.

(** ** Strings: positions found *)

Lemma index_char_spec (c : char) (s : std_string) :
  match index_char c s with
  | Some i => exists tl, drop i s = c :: tl /\ ~ In c (take i s) /\ i < length s
  | None => ~ In c s
  end.
Proof.
  induction s as [|x s IH]; cbn [index_char]; [by intros []|].
  destruct (char_eqb x c) eqn:E.
  - apply char_eqb_eq in E as ->. exists s. repeat split; [by intros []|simpl; lia].
  - assert (Hne : x <> c) by (intros ->; by rewrite char_eqb_refl in E).
    destruct (index_char c s) as [i|]; cbn [fmap option_fmap option_map].
    + destruct IH as (tl & Hd & Hn & Hl). exists tl. cbn [drop take].
      repeat split; [done| |simpl; lia]. intros [?|?]; [done|by apply Hn].
    + intros [?|?]; [done|by apply IH].
Qed.

Lemma find_char_spec (s : std_string) (c : char) :
  (str_size s < npos)%Z ->
  (find_char s c = npos /\ ~ In c s)
  \/ (exists i tl, find_char s c = Z.of_nat i /\ find_char s c <> npos
                   /\ i < length s /\ drop i s = c :: tl /\ ~ In c (take i s)).
Proof.
  intros Hsize. unfold find_char. pose proof (index_char_spec c s) as H.
  destruct (index_char c s) as [i|]; cbn [pos_of]; [right|by left].
  destruct H as (tl & Hd & Hn & Hl). exists i, tl.
  unfold str_size in Hsize. repeat split; try done. lia.
Qed.

Lemma prefixb_spec (p s : std_string) :
  prefixb p s = true <-> exists post, s = p ++ post.
Proof.
  revert s. induction p as [|a p IH]; intros s; cbn [prefixb].
  - split; [intros _; by exists s|done].
  - destruct s as [|b s]; [split; [done|by intros [post ?]]|].
    rewrite andb_true_iff, char_eqb_eq, IH. split.
    + intros [-> [post ->]]. by exists post.
    + intros [post [= -> ->]]. split; [done|by exists post].
Qed.

Lemma index_str_spec (p s : std_string) :
  match index_str p s with
  | Some i => exists post, drop i s = p ++ post /\ i + length p <= length s
  | None => forall pre post, s <> pre ++ p ++ post
  end.
Proof.
  induction s as [|x s IH].
  - cbn [index_str]. destruct (prefixb p []) eqn:Hp.
    + apply prefixb_spec in Hp as [post Hp]. exists post. split; [done|].
      apply (f_equal length) in Hp. rewrite length_app in Hp. simpl in *. lia.
    + intros pre post Heq. destruct pre; [|done].
      assert (prefixb p [] = true) by (apply prefixb_spec; by exists post).
      congruence.
  - cbn [index_str]. destruct (prefixb p (x :: s)) eqn:Hp.
    + apply prefixb_spec in Hp as [post Hp]. exists post. split; [done|].
      apply (f_equal length) in Hp. rewrite length_app in Hp. simpl in *. lia.
    + destruct (index_str p s) as [i|]; cbn [fmap option_fmap option_map].
      * destruct IH as (post & Hd & Hl). exists post. split; [done|simpl; lia].
      * intros pre post Heq. destruct pre as [|y pre].
        -- assert (prefixb p (x :: s) = true) by (apply prefixb_spec; by exists post).
           congruence.
        -- injection Heq as -> ->. by apply (IH pre post).
Qed.

Lemma find_str_contains (s p : std_string) :
  (str_size s < npos)%Z ->
  negb (find_str s p =? npos)%Z = true <-> exists pre post, s = pre ++ p ++ post.
Proof.
  intros Hsize. unfold find_str. pose proof (index_str_spec p s) as H.
  destruct (index_str p s) as [i|]; cbn [pos_of].
  - destruct H as (post & Hd & Hl). unfold str_size in Hsize.
    destruct (Z.eqb_spec (Z.of_nat i) npos) as [|_]; [lia|].
    split; [intros _|done]. exists (take i s), post.
    by rewrite <- Hd, take_drop.
  - rewrite Z.eqb_refl. split; [done|]. intros (pre & post & Heq). by destruct (H pre post).
Qed.

Lemma substr_length (s t : std_string) (pos n : Z) :
  substr s pos n = Ok t -> length t <= length s.
Proof.
  unfold substr. destruct (str_size s <? pos)%Z; [done|].
  intros [= <-]. rewrite length_take, length_drop. lia.
Qed.

(** ** [trim]: what is removed and what is left *)

Lemma strip_left_decomp (s : std_string) :
  exists pre, s = pre ++ strip_left s /\ all_space pre
    /\ forall c, head (strip_left s) = Some c -> is_trim_space c = false.
Proof.
  induction s as [|x s (pre & Hs & Hpre & Hhd)]; [by exists []|].
  cbn [strip_left]. destruct (is_trim_space x) eqn:Hx.
  - exists (x :: pre). split; [by rewrite Hs at 1|]. split; [|done].
    unfold all_space in *. cbn [forallb]. by rewrite Hx.
  - exists []. split; [done|]. split; [done|]. by intros c [= <-].
Qed.

Lemma strip_right_decomp (s : std_string) :
  exists post, s = strip_right s ++ post /\ all_space post
    /\ forall c, last (strip_right s) = Some c -> is_trim_space c = false.
Proof.
  induction s as [|x s (post & Hs & Hpost & Hlast)]; [by exists []|].
  cbn [strip_right]. destruct (strip_right s) as [|y t] eqn:Ht.
  - destruct (is_trim_space x) eqn:Hx.
    + exists (x :: post). split; [by rewrite Hs at 1|]. split; [|done].
      unfold all_space in *. cbn [forallb]. by rewrite Hx.
    + exists post. split; [by rewrite Hs at 1|]. split; [done|].
      intros c Hc. cbn in Hc. by injection Hc as <-.
  - exists post. split; [simpl; by f_equal|]. split; [done|].
    intros c Hc. apply Hlast. rewrite last_cons in Hc.
    destruct (last (y :: t)) eqn:E; [done|]. by apply last_None in E.
Qed.

Lemma strip_left_fix (t : std_string) :
  (forall c, head t = Some c -> is_trim_space c = false) -> strip_left t = t.
Proof.
  destruct t as [|x t]; [done|]. intros H. cbn [strip_left].
  by rewrite (H x eq_refl).
Qed.

Lemma strip_right_fix (t : std_string) :
  (forall c, last t = Some c -> is_trim_space c = false) -> strip_right t = t.
Proof.
  induction t as [|x t IH]; [done|]. intros H. cbn [strip_right].
  destruct t as [|y t].
  - cbn [strip_right]. by rewrite (H x eq_refl).
  - rewrite IH; [done|]. intros c Hc. apply H. by rewrite last_cons, Hc.
Qed.

Lemma strip_right_head (s : std_string) (c : char) :
  head (strip_right s) = Some c -> head s = Some c.
Proof.
  destruct (strip_right_decomp s) as (post & Hs & _).
  intros Hc. rewrite Hs. by destruct (strip_right s).
Qed.

(** X8: [trim] returns the input without its leading and trailing white
    space (space, tab, CR, LF): what it removes on both sides is white
    space only, what it returns neither begins nor ends with white space,
    and trimming the result again changes nothing. *)
Theorem X8_trim_characterised (s : std_string) :
  (str_size s < npos)%Z ->
  exists pre t post,
    trim s = Ok t /\ s = pre ++ t ++ post
    /\ all_space pre /\ all_space post
    /\ (forall c, head t = Some c -> is_trim_space c = false)
    /\ (forall c, last t = Some c -> is_trim_space c = false)
    /\ trim t = Ok t.
Proof.
  intros Hsize. rewrite trim_eq_spec by done. unfold trim_spec.
  destruct (strip_left_decomp s) as (pre & Hs & Hpre & Hhd).
  destruct (strip_right_decomp (strip_left s)) as (post & Hu & Hpost & Hlast).
  exists pre, (strip_right (strip_left s)), post.
  assert (Hhd' : forall c, head (strip_right (strip_left s)) = Some c ->
                           is_trim_space c = false).
  { intros c Hc. apply Hhd. by apply strip_right_head. }
  repeat split; try done.
  - by rewrite <- Hu.
  - rewrite trim_eq_spec.
    + unfold trim_spec. rewrite (strip_left_fix _ Hhd'). by rewrite (strip_right_fix _ Hlast).
    + pose proof (trim_spec_length s). unfold trim_spec, str_size in *. lia.
Qed.

Lemma X8_trim_characterised_witness :
  exists pre t post,
    trim ([SP; TAB] ++ lit "a b" ++ [CR; LF]) = Ok t
    /\ [SP; TAB] ++ lit "a b" ++ [CR; LF] = pre ++ t ++ post
    /\ trim t = Ok t.
Proof.
  destruct (X8_trim_characterised ([SP; TAB] ++ lit "a b" ++ [CR; LF]))
    as (pre & t & post & H1 & H2 & _ & _ & _ & _ & H3).
  - vm_compute. reflexivity.
  - by exists pre, t, post.
Defined.

(** ** HttpResponse: content type tests *)

(** X9: [isJson] holds exactly when the text ["application/json"] occurs
    somewhere in the stored [content-type] value, whatever stands before
    or after it (parameters, or more letters of another media type), and
    it is false when the header is absent. *)
Theorem X9_isJson_substring (r : HttpResponse.t) :
  (str_size (HttpResponse.getHeader "content-type" r) < npos)%Z ->
  (HttpResponse.isJson r = true
   <-> exists pre post,
         HttpResponse.headers_ r !! lit "content-type"
         = Some (pre ++ lit "application/json" ++ post))
  /\ (HttpResponse.headers_ r !! lit "content-type" = None ->
      HttpResponse.isJson r = false /\ HttpResponse.isXml r = false
      /\ HttpResponse.isHtml r = false).
Proof.
  intros Hsize. unfold HttpResponse.isJson, HttpResponse.isXml, HttpResponse.isHtml,
    HttpResponse.getContentType in *.
  rewrite find_str_contains by done.
  unfold HttpResponse.getHeader in *.
  change (toLower (lit "content-type")) with (lit "content-type") in *.
  destruct (HttpResponse.headers_ r !! lit "content-type") as [v|].
  - split; [|done]. split.
    + intros (pre & post & ->). by exists pre, post.
    + intros (pre & post & [= ->]). by exists pre, post.
  - split; [|by intros _].
    split.
    + intros (pre & post & Heq). by destruct pre.
    + by intros (pre & post & ?).
Qed.

Lemma X9_isJson_substring_witness :
  HttpResponse.isJson
    (HttpResponse.mk 200 "OK"
       {[ lit "content-type" := lit "application/json; charset=utf-8" ]} [] [])
  = true.
Proof.
  destruct (X9_isJson_substring
    (HttpResponse.mk 200 "OK"
       {[ lit "content-type" := lit "application/json; charset=utf-8" ]} [] []))
    as [H _].
  - vm_compute. reflexivity.
  - apply H. exists [], (lit "; charset=utf-8"). vm_compute. reflexivity.
Defined.

(** ** URL: the path and the host *)

Lemma In_take (c : char) (n : nat) (s : std_string) : In c (take n s) -> In c s.
Proof. intros H. rewrite <- (take_drop n s). apply in_or_app. by left. Qed.

Lemma parse_scheme_temp_length (url temp : std_string) (res0 res : URL.t) :
  URL.parse_scheme res0 url = Ok (res, temp) -> length temp <= length url.
Proof.
  unfold URL.parse_scheme.
  destruct (negb (find_str url "://" =? npos)%Z); [|by intros [= <- <-]].
  repeat step_bind. apply substr_length in E0.
  destruct (str_eqb _ _); by intros [= <- <-].
Qed.

Lemma host_port_no_slash (temp a : std_string) :
  (str_size temp < npos)%Z ->
  URL.host_port temp = Ok a -> ~ In "/"%char a.
Proof.
  intros Hsize. unfold URL.host_port.
  destruct (find_char_spec temp "/" Hsize) as [[-> Hn]|(i & tl & -> & Hne & Hl & Hd & Hn)].
  - rewrite Z.eqb_refl. by intros [= <-].
  - destruct (Z.eqb_spec (Z.of_nat i) npos) as [|_]; [done|]. cbn [negb].
    rewrite substr_zero_take by lia. by intros [= <-].
Qed.

Lemma parse_authority_host (res res' : URL.t) (a : std_string) :
  (str_size a < npos)%Z ->
  URL.parse_authority res a = Ok res' ->
  ~ In ":"%char (URL.host res') /\ forall c, In c (URL.host res') -> In c a.
Proof.
  intros Hsize. unfold URL.parse_authority.
  destruct (find_char_spec a ":" Hsize) as [[-> Hn]|(i & tl & -> & Hne & Hl & Hd & Hn)].
  - rewrite Z.eqb_refl. by intros [= <-].
  - destruct (Z.eqb_spec (Z.of_nat i) npos) as [|_]; [done|]. cbn [negb].
    rewrite substr_zero_take by lia. cbn [bind].
    repeat step_bind. intros [= <-]. cbn.
    split; [done|]. intros c. apply In_take.
Qed.

Lemma parse_path_path (res u : URL.t) (temp : std_string) :
  (str_size temp < npos)%Z ->
  URL.parse_path res temp = Ok u ->
  (exists rest, URL.path u = "/"%char :: rest) /\ ~ In "?"%char (URL.path u).
Proof.
  intros Hsize. unfold URL.parse_path.
  destruct (find_char_spec temp "/" Hsize) as [[-> Hn]|(i & tl & -> & Hne & Hl & Hd & Hn)].
  { rewrite Z.eqb_refl. intros [= <-]. cbn. split; [by eexists|].
    intros [?|[]]; discriminate. }
  destruct (Z.eqb_spec (Z.of_nat i) npos) as [|_]; [done|]. cbn [negb].
  rewrite substr_from_drop by (done || lia). cbn [bind]. rewrite Hd.
  assert (Hrest : (str_size ("/"%char :: tl) < npos)%Z).
  { rewrite <- Hd. unfold str_size in *. rewrite length_drop. lia. }
  assert (Htake : forall k, k <> 0 -> exists rest, take k ("/"%char :: tl) = "/"%char :: rest).
  { intros [|k] Hk; [done|]. by eexists. }
  destruct (find_char_spec ("/"%char :: tl) "?" Hrest)
    as [[-> Hnq]|(j & tlq & -> & Hneq & Hlq & Hdq & Hnq)].
  - rewrite Z.eqb_refl. cbn [negb].
    destruct (find_char_spec ("/"%char :: tl) "#" Hrest)
      as [[-> Hnf]|(k & tlf & -> & Hnef & Hlf & Hdf & Hnf)].
    + rewrite Z.eqb_refl. cbn [negb]. intros [= <-]. cbn. split; [by eexists|done].
    + destruct (Z.eqb_spec (Z.of_nat k) npos) as [|_]; [done|]. cbn [negb].
      rewrite substr_zero_take by lia. cbn [bind]. step_bind. intros [= <-]. cbn.
      split.
      * apply Htake. intros ->. discriminate.
      * intros Hin. by apply Hnq, (In_take _ k).
  - destruct (Z.eqb_spec (Z.of_nat j) npos) as [|_]; [done|]. cbn [negb].
    rewrite substr_zero_take by lia. cbn [bind].
    assert (Hpath : (exists rest, take j ("/"%char :: tl) = "/"%char :: rest)
                    /\ ~ In "?"%char (take j ("/"%char :: tl))).
    { split; [|done]. apply Htake. intros ->. discriminate. }
    destruct (negb (find_char ("/"%char :: tl) "#" =? npos)%Z);
      repeat step_bind; by intros [= <-].
Qed.

(** X10: whenever [URL::parse] returns, the path begins with ['/'] and
    contains no ['?'], and the host contains neither ['/'] nor [':']. *)
Theorem X10_url_path_and_host (url : std_string) (u : URL.t) :
  (str_size url < npos)%Z ->
  URL.parse url = Ok u ->
  (exists rest, URL.path u = "/"%char :: rest)
  /\ ~ In "?"%char (URL.path u)
  /\ ~ In "/"%char (URL.host u)
  /\ ~ In ":"%char (URL.host u).
Proof.
  intros Hsize. unfold URL.parse.
  destruct (URL.parse_scheme URL.init url) as [[res temp]| |] eqn:Hs;
    cbn [bind fst snd]; try discriminate.
  destruct (URL.host_port temp) as [a| |] eqn:Ha; cbn [bind]; try discriminate.
  destruct (URL.parse_authority res a) as [res'| |] eqn:Hauth; cbn [bind];
    try discriminate.
  intros Hp.
  apply parse_scheme_temp_length in Hs.
  assert (Htemp : (str_size temp < npos)%Z) by (unfold str_size in *; lia).
  assert (Hasize : (str_size a < npos)%Z).
  { unfold URL.host_port in Ha. destruct (negb _) in Ha.
    - apply substr_length in Ha. unfold str_size in *. lia.
    - by injection Ha as <-. }
  apply (host_port_no_slash _ _ Htemp) in Ha.
  apply (parse_authority_host _ _ _ Hasize) in Hauth as [Hcolon Hsub].
  pose proof (parse_path_keeps _ _ _ Hp) as (_ & _ & Hhost).
  apply (parse_path_path _ _ _ Htemp) in Hp as [Hslash Hq].
  rewrite Hhost. repeat split; try done.
  intros Hin. by apply Ha, Hsub.
Qed.

Lemma X10_url_path_and_host_witness :
  exists rest, URL.path (URL.mk "http" "h" 8080 "/a/b" "x=1" "")  = "/"%char :: rest.
Proof.
  destruct (X10_url_path_and_host (lit "http://h:8080/a/b?x=1")
              (URL.mk "http" "h" 8080 "/a/b" "x=1" "")) as [H _].
  - vm_compute. reflexivity.
  - vm_compute. reflexivity.
  - exact H.
Defined.

(** ** Iteration over a map *)

Lemma str_ltb_asym (a b : std_string) : str_ltb a b = true -> str_ltb b a = false.
Proof.
  revert b. induction a as [|x a IH]; intros [|y b]; cbn [str_ltb]; try done.
  intros H. apply orb_true_iff in H as [H|[H1 H2]%andb_true_iff].
  - apply Z.ltb_lt in H. apply orb_false_iff. split.
    + apply Z.ltb_ge. lia.
    + apply andb_false_iff. left. apply Z.eqb_neq. lia.
  - apply Z.eqb_eq in H1. apply orb_false_iff. split.
    + apply Z.ltb_ge. lia.
    + apply andb_false_iff. right. by apply IH.
Qed.

Global Instance key_le_total : Total key_le.
Proof.
  intros p q. unfold key_le.
  destruct (str_ltb (fst q) (fst p)) eqn:E; [right|by left].
  by apply str_ltb_asym.
Qed.

Lemma map_items_perm (m : gmap (list ascii) (list ascii)) :
  Permutation (map_items m) (map_to_list m).
Proof. apply merge_sort_Permutation. Qed.

Lemma map_items_length (m : gmap (list ascii) (list ascii)) :
  length (map_items m) = size m.
Proof. by rewrite (Permutation_length (map_items_perm m)), length_map_to_list. Qed.

Lemma map_items_lookup (m : gmap (list ascii) (list ascii)) (k v : std_string) :
  In (k, v) (map_items m) <-> m !! k = Some v.
Proof.
  rewrite <- list_elem_of_In, (map_items_perm m). apply elem_of_map_to_list.
Qed.

(** ** UrlEncoder: [buildQueryString] *)

Lemma mem_char_In (c : char) (s : std_string) : mem_char c s = true <-> In c s.
Proof.
  unfold mem_char. rewrite existsb_exists. split.
  - intros (x & Hx & Heq). apply char_eqb_eq in Heq. by subst.
  - intros H. exists c. split; [done|apply char_eqb_refl].
Qed.

Lemma buildQueryString_loop_next (params : list (list ascii * list ascii)) :
  forall oss : std_string,
    UrlEncoder.buildQueryString_loop params false oss
    = oss ++ flat_map (fun kv => lit "&" ++ query_pair kv) params.
Proof.
  induction params as [|kv rest IH]; intros oss; cbn [UrlEncoder.buildQueryString_loop].
  - by rewrite app_nil_r.
  - rewrite IH. cbn [negb flat_map]. unfold query_pair. by rewrite <- !app_assoc.
Qed.

Lemma buildQueryString_loop_join (params : list (list ascii * list ascii)) :
  UrlEncoder.buildQueryString_loop params true []
  = join_with "&" (map query_pair params).
Proof.
  destruct params as [|kv rest]; [reflexivity|].
  cbn [map UrlEncoder.buildQueryString_loop negb]. rewrite join_with_cons.
  rewrite buildQueryString_loop_next. cbn [app]. fold (query_pair kv). f_equal.
  induction rest as [|kv' rest IH]; [reflexivity|].
  cbn [flat_map map]. by rewrite IH.
Qed.

Lemma encode_no_separator (s : std_string) (ch : char) :
  ch = "="%char \/ ch = "&"%char \/ ch = "?"%char -> ~ In ch (UrlEncoder.encode s).
Proof.
  intros Hch Hin. unfold UrlEncoder.encode in Hin.
  apply in_flat_map in Hin as (c & _ & Hc).
  apply (encode_char_alphabet c) in Hc.
  destruct Hch as [-> | [-> | ->]]; (destruct Hc as [Hc|Hc]; [by vm_compute in Hc|discriminate]).
Qed.

Lemma filter_char_absent (ch : char) (s : std_string) :
  ~ In ch s -> filter (fun c => c = ch) s = [].
Proof.
  induction s as [|x s IH]; intros Hn; [done|].
  rewrite filter_cons. destruct (decide (x = ch)) as [->|_].
  - destruct Hn. by left.
  - apply IH. intros H. apply Hn. by right.
Qed.

Lemma query_pair_equals (kv : list ascii * list ascii) :
  filter (fun c => c = "="%char) (query_pair kv) = ["="%char]
  /\ filter (fun c => c = "&"%char) (query_pair kv) = [].
Proof.
  unfold query_pair. rewrite !filter_app.
  rewrite !(filter_char_absent _ (UrlEncoder.encode _))
    by (apply encode_no_separator; auto).
  by split.
Qed.

Lemma flat_pairs_count (kvs : list (list ascii * list ascii)) :
  length (filter (fun c => c = "="%char)
            (flat_map (fun q => lit "&" ++ q) (map query_pair kvs))) = length kvs
  /\ length (filter (fun c => c = "&"%char)
               (flat_map (fun q => lit "&" ++ q) (map query_pair kvs))) = length kvs.
Proof.
  induction kvs as [|kv kvs [IH1 IH2]]; [by split|].
  cbn [map flat_map]. rewrite !filter_app, !length_app.
  destruct (query_pair_equals kv) as [-> ->]. rewrite IH1, IH2.
  by split.
Qed.

Lemma join_pairs_count (kvs : list (list ascii * list ascii)) :
  length (filter (fun c => c = "="%char) (join_with "&" (map query_pair kvs)))
  = length kvs
  /\ length (filter (fun c => c = "&"%char) (join_with "&" (map query_pair kvs)))
     = pred (length kvs).
Proof.
  destruct kvs as [|kv kvs]; [by split|].
  cbn [map]. rewrite join_with_cons, !filter_app, !length_app.
  destruct (query_pair_equals kv) as [-> ->].
  destruct (flat_pairs_count kvs) as [-> ->]. by split.
Qed.

(** X11: [buildQueryString] writes one [key=value] entry for every entry
    of the map, key and value percent-encoded, the entries in the order of
    their keys and separated by ['&']; an empty map gives the empty
    string, and the output has exactly one ['='] per entry and one ['&']
    between two entries, so it can be split again without ambiguity. *)
Theorem X11_buildQueryString_entries (params : gmap (list ascii) (list ascii)) :
  UrlEncoder.buildQueryString params
  = join_with "&" (map query_pair (map_items params))
  /\ (forall k v, In (k, v) (map_items params) <-> params !! k = Some v)
  /\ Sorted key_le (map_items params)
  /\ length (filter (fun c => c = "="%char) (UrlEncoder.buildQueryString params))
     = size params
  /\ length (filter (fun c => c = "&"%char) (UrlEncoder.buildQueryString params))
     = pred (size params)
  /\ (params = ∅ -> UrlEncoder.buildQueryString params = []).
Proof.
  unfold UrlEncoder.buildQueryString. rewrite buildQueryString_loop_join.
  split; [done|]. split; [apply map_items_lookup|].
  split; [apply Sorted_merge_sort, _|].
  destruct (join_pairs_count (map_items params)) as [H1 H2].
  rewrite H1, H2, map_items_length. repeat split.
  intros ->. reflexivity.
Qed.

Lemma X11_buildQueryString_entries_witness :
  UrlEncoder.buildQueryString ∅ = [].
Proof.
  destruct (X11_buildQueryString_entries ∅) as (_ & _ & _ & _ & _ & H).
  by apply H.
Defined.

(** ** RequestBuilder: query parameters *)

Lemma add_query_params_more (kvs : list (list ascii * list ascii)) :
  forall b : RequestBuilder.t,
    In "?"%char (RequestBuilder.url_ b) ->
    (str_size (RequestBuilder.url_ b
               ++ flat_map (fun kv => lit "&" ++ query_pair kv) kvs) < npos)%Z ->
    RequestBuilder.url_ (add_query_params kvs b)
    = RequestBuilder.url_ b ++ flat_map (fun kv => lit "&" ++ query_pair kv) kvs.
Proof.
  induction kvs as [|kv kvs IH]; intros b Hq Hsize.
  - cbn. by rewrite app_nil_r.
  - unfold add_query_params in *. cbn [fold_left flat_map] in *.
    assert (Hurl : RequestBuilder.url_
                     (RequestBuilder.addQueryParam (fst kv) (snd kv) b)
                   = RequestBuilder.url_ b ++ lit "&" ++ query_pair kv).
    { unfold RequestBuilder.addQueryParam. cbn [RequestBuilder.url_].
      assert (Hb : (str_size (RequestBuilder.url_ b) < npos)%Z).
      { rewrite str_size_app in Hsize.
        pose proof (str_size_nonneg
          ((lit "&" ++ query_pair kv) ++ flat_map (fun kv => lit "&" ++ query_pair kv) kvs)).
        lia. }
      destruct (find_char_spec (RequestBuilder.url_ b) "?" Hb) as [[_ Hn]|(i & tl & _ & Hne & _)];
        [done|].
      apply Z.eqb_neq in Hne. by rewrite Hne. }
    rewrite IH.
    + rewrite Hurl. by rewrite <- !app_assoc.
    + rewrite Hurl. apply in_or_app. by left.
    + rewrite Hurl. by rewrite <- !app_assoc in *.
Qed.

Lemma add_query_params_url
    (kvs : list (list ascii * list ascii)) (b : RequestBuilder.t) :
  kvs <> [] ->
  (str_size (RequestBuilder.url_ b ++ lit "?"
             ++ join_with "&" (map query_pair kvs)) < npos)%Z ->
  RequestBuilder.url_ (add_query_params kvs b)
  = RequestBuilder.url_ b
    ++ (if mem_char "?" (RequestBuilder.url_ b) then lit "&" else lit "?")
    ++ join_with "&" (map query_pair kvs).
Proof.
  intros Hkvs Hsize.
  destruct kvs as [|kv kvs]; [done|]. clear Hkvs.
  cbn [map] in *. rewrite join_with_cons in *.
  assert (Hflat : flat_map (fun q => lit "&" ++ q) (map query_pair kvs)
                  = flat_map (fun kv => lit "&" ++ query_pair kv) kvs).
  { clear. induction kvs as [|kv' kvs IH]; [done|]. cbn [map flat_map]. by rewrite IH. }
  rewrite Hflat in *.
  assert (Hb : (str_size (RequestBuilder.url_ b) < npos)%Z).
  { rewrite str_size_app in Hsize.
    pose proof (str_size_nonneg
      (lit "?" ++ query_pair kv ++ flat_map (fun kv => lit "&" ++ query_pair kv) kvs)).
    lia. }
  set (sep := if mem_char "?" (RequestBuilder.url_ b) then lit "&" else lit "?").
  assert (Hsep : length sep = 1) by (unfold sep; by destruct (mem_char _ _)).
  assert (Hurl : RequestBuilder.url_
                   (RequestBuilder.addQueryParam (fst kv) (snd kv) b)
                 = RequestBuilder.url_ b ++ sep ++ query_pair kv).
  { unfold RequestBuilder.addQueryParam, sep. cbn [RequestBuilder.url_].
    destruct (find_char_spec (RequestBuilder.url_ b) "?" Hb)
      as [[-> Hn]|(i & tl & _ & Hne & _ & Hd & _)].
    - rewrite Z.eqb_refl. cbn [negb].
      destruct (mem_char "?" (RequestBuilder.url_ b)) eqn:Hm; [|done].
      by apply mem_char_In in Hm.
    - apply Z.eqb_neq in Hne. rewrite Hne. cbn [negb].
      assert (Hin : In "?"%char (RequestBuilder.url_ b)).
      { rewrite <- (take_drop i (RequestBuilder.url_ b)), Hd.
        apply in_or_app. right. by left. }
      apply mem_char_In in Hin. by rewrite Hin. }
  unfold add_query_params. cbn [fold_left].
  fold (add_query_params kvs (RequestBuilder.addQueryParam (fst kv) (snd kv) b)).
  rewrite add_query_params_more.
  + rewrite Hurl. by rewrite <- !app_assoc.
  + rewrite Hurl. unfold sep.
    destruct (mem_char "?" (RequestBuilder.url_ b)) eqn:Hm.
    * apply in_or_app. left. by apply mem_char_In.
    * apply in_or_app. right. by left.
  + rewrite Hurl. rewrite <- !app_assoc.
    unfold str_size in *. rewrite !length_app in *.
    change (length (lit "?")) with 1 in Hsize. lia.
Qed.

(** X12: a sequence of one or more [addQueryParam] calls appends to the
    URL the encoded [key=value] entries in the order of the calls, joined
    with ['&'], after a ['?'] when the URL had none and after a ['&'] when
    it already had one; nothing else of the builder changes. *)
Theorem X12_addQueryParam_sequence
    (kvs : list (list ascii * list ascii)) (b : RequestBuilder.t) :
  kvs <> [] ->
  (str_size (RequestBuilder.url_ b ++ lit "?"
             ++ join_with "&" (map query_pair kvs)) < npos)%Z ->
  RequestBuilder.url_ (add_query_params kvs b)
  = RequestBuilder.url_ b
    ++ (if mem_char "?" (RequestBuilder.url_ b) then lit "&" else lit "?")
    ++ join_with "&" (map query_pair kvs)
  /\ RequestBuilder.headers_ (add_query_params kvs b) = RequestBuilder.headers_ b
  /\ RequestBuilder.body_ (add_query_params kvs b) = RequestBuilder.body_ b
  /\ RequestBuilder.cookies_ (add_query_params kvs b) = RequestBuilder.cookies_ b.
Proof.
  intros Hkvs Hsize. split; [by apply add_query_params_url|].
  clear. revert b. unfold add_query_params.
  induction kvs as [|kv kvs IH]; intros b; [done|].
  cbn [fold_left]. destruct (IH (RequestBuilder.addQueryParam (fst kv) (snd kv) b))
    as (-> & -> & ->). done.
Qed.

Lemma X12_addQueryParam_sequence_witness :
  RequestBuilder.url_
    (add_query_params [(lit "q", lit "a b"); (lit "n", lit "1")]
                      (RequestBuilder.make GET "http://h/p"))
  = lit "http://h/p?q=a%20b&n=1".
Proof.
  destruct (X12_addQueryParam_sequence [(lit "q", lit "a b"); (lit "n", lit "1")]
              (RequestBuilder.make GET "http://h/p")) as [H _].
  - discriminate.
  - vm_compute. reflexivity.
  - rewrite H. vm_compute. reflexivity.
Defined.

(** ** FormData *)

(** X13: the multipart body always ends with the closing line
    [--boundary--] and is therefore never empty, so [setFormData] always
    sets [Content-Length], to the length of that body, next to a
    [Content-Type] that announces the same boundary; adding a field under
    a name that is already there replaces the earlier value and leaves the
    boundary alone. *)
Theorem X13_formdata_body_and_headers (f : FormData.t) (b : RequestBuilder.t) :
  (exists parts,
     FormData.encode f
     = parts ++ lit "--" ++ FormData.getBoundary f ++ lit "--" ++ [CR; LF]
     /\ parts = flat_map (FormData.encode_field (FormData.getBoundary f))
                         (map_items (FormData.fields_ f)))
  /\ FormData.encode f <> []
  /\ RequestBuilder.body_ (RequestBuilder.setFormData f b) = FormData.encode f
  /\ RequestBuilder.headers_ (RequestBuilder.setFormData f b) !! lit "Content-Type"
     = Some (lit "multipart/form-data; boundary=" ++ FormData.getBoundary f)
  /\ RequestBuilder.headers_ (RequestBuilder.setFormData f b) !! lit "Content-Length"
     = Some (to_string (str_size (FormData.encode f)))
  /\ (forall name v1 v2,
        FormData.encode (FormData.addField name v2 (FormData.addField name v1 f))
        = FormData.encode (FormData.addField name v2 f))
  /\ (forall name v, FormData.getBoundary (FormData.addField name v f)
                     = FormData.getBoundary f).
Proof.
  assert (Hne : FormData.encode f <> []).
  { unfold FormData.encode. intros H. apply (f_equal length) in H.
    rewrite !length_app in H. simpl in H. lia. }
  split; [by eexists|]. split; [done|].
  unfold RequestBuilder.setFormData.
  split; [apply setBody_body|].
  rewrite setBody_headers, bool_decide_eq_false_2 by done.
  split; [|split; [|split]].
  - rewrite lookup_insert_ne by discriminate. cbn. by rewrite lookup_insert_eq.
  - by rewrite lookup_insert_eq.
  - intros name v1 v2. unfold FormData.encode, FormData.addField. cbn.
    by rewrite insert_insert_eq.
  - done.
Qed.

(** ** base64Encode *)

Lemma uchar_val_range (c : char) : (0 <= uchar_val c < 256)%Z.
Proof.
  assert (H : (0 <=? uchar_val c)%Z && (uchar_val c <? 256)%Z = true).
  { revert c. apply for_all_chars_spec. vm_compute. reflexivity. }
  apply andb_true_iff in H as [H1%Z.leb_le H2%Z.ltb_lt]. lia.
Qed.

Lemma int_wrap_mod (z : Z) : (int_wrap z mod 2 ^ 32 = z mod 2 ^ 32)%Z.
Proof.
  unfold int_wrap. change (2 ^ 32)%Z with 4294967296%Z.
  change (2 ^ 31)%Z with 2147483648%Z. Z.div_mod_to_equations. lia.
Qed.

Lemma base64_shift_in_mod (val : Z) (c : char) :
  (base64_shift_in val c mod 2 ^ 32 = (val * 256 + uchar_val c) mod 2 ^ 32)%Z.
Proof.
  unfold base64_shift_in. rewrite int_wrap_mod.
  rewrite Z.add_mod by done. rewrite int_wrap_mod.
  rewrite <- Z.add_mod by done. by rewrite Z.shiftl_mul_pow2.
Qed.

Lemma six_bits (v k : Z) :
  (0 <= k)%Z -> Z.land (Z.shiftr v k) 63 = ((v / 2 ^ k) mod 64)%Z.
Proof.
  intros Hk. rewrite Z.shiftr_div_pow2 by done.
  change 63%Z with (Z.ones 6). by rewrite Z.land_ones.
Qed.

Ltac low_bits :=
  change (2 ^ 32)%Z with 4294967296%Z in *;
  change (2 ^ 0)%Z with 1%Z in *; change (2 ^ 2)%Z with 4%Z in *;
  change (2 ^ 4)%Z with 16%Z in *; change (2 ^ 6)%Z with 64%Z in *;
  Z.div_mod_to_equations; lia.

Lemma base64_digit1 (val : Z) (a : char) :
  Z.land (Z.shiftr (base64_shift_in val a) 2) 63 = (uchar_val a / 4)%Z.
Proof.
  rewrite six_bits by done.
  pose proof (base64_shift_in_mod val a) as H1. pose proof (uchar_val_range a).
  generalize dependent (base64_shift_in val a). generalize dependent (uchar_val a).
  intros x Hx v1 H1. low_bits.
Qed.

Lemma base64_digit2 (val : Z) (a b : char) :
  Z.land (Z.shiftr (base64_shift_in (base64_shift_in val a) b) 4) 63
  = (uchar_val a mod 4 * 16 + uchar_val b / 16)%Z.
Proof.
  rewrite six_bits by done.
  pose proof (base64_shift_in_mod val a) as H1.
  pose proof (base64_shift_in_mod (base64_shift_in val a) b) as H2.
  pose proof (uchar_val_range a). pose proof (uchar_val_range b).
  generalize dependent (base64_shift_in (base64_shift_in val a) b).
  generalize dependent (base64_shift_in val a).
  generalize dependent (uchar_val a). generalize dependent (uchar_val b).
  intros y Hy x Hx v1 H1 v2 H2. low_bits.
Qed.

Lemma base64_digit3 (v1 : Z) (b c : char) :
  Z.land (Z.shiftr (base64_shift_in (base64_shift_in v1 b) c) 6) 63
  = (uchar_val b mod 16 * 4 + uchar_val c / 64)%Z.
Proof.
  rewrite six_bits by done.
  pose proof (base64_shift_in_mod v1 b) as H2.
  pose proof (base64_shift_in_mod (base64_shift_in v1 b) c) as H3.
  pose proof (uchar_val_range b). pose proof (uchar_val_range c).
  generalize dependent (base64_shift_in (base64_shift_in v1 b) c).
  generalize dependent (base64_shift_in v1 b).
  generalize dependent (uchar_val b). generalize dependent (uchar_val c).
  intros z Hz y Hy v2 H2 v3 H3. low_bits.
Qed.

Lemma base64_digit4 (v2 : Z) (c : char) :
  Z.land (Z.shiftr (base64_shift_in v2 c) 0) 63 = (uchar_val c mod 64)%Z.
Proof.
  rewrite six_bits by done.
  pose proof (base64_shift_in_mod v2 c) as H3. pose proof (uchar_val_range c).
  generalize dependent (base64_shift_in v2 c). generalize dependent (uchar_val c).
  intros z Hz v3 H3. low_bits.
Qed.

Lemma base64_tail1 (val : Z) (a : char) :
  Z.land (Z.shiftr (int_wrap (Z.shiftl (base64_shift_in val a) 8)) 4) 63
  = (uchar_val a mod 4 * 16)%Z.
Proof.
  rewrite six_bits by done.
  pose proof (base64_shift_in_mod val a) as H1. pose proof (uchar_val_range a).
  assert (Hw : (int_wrap (Z.shiftl (base64_shift_in val a) 8) mod 2 ^ 32
                = (base64_shift_in val a * 256) mod 2 ^ 32)%Z)
    by (by rewrite int_wrap_mod, Z.shiftl_mul_pow2).
  generalize dependent (int_wrap (Z.shiftl (base64_shift_in val a) 8)).
  generalize dependent (base64_shift_in val a). generalize dependent (uchar_val a).
  intros x Hx v1 H1 w Hw. low_bits.
Qed.

Lemma base64_tail2 (v1 : Z) (b : char) :
  Z.land (Z.shiftr (int_wrap (Z.shiftl (base64_shift_in v1 b) 8)) 6) 63
  = (uchar_val b mod 16 * 4)%Z.
Proof.
  rewrite six_bits by done.
  pose proof (base64_shift_in_mod v1 b) as H2. pose proof (uchar_val_range b).
  assert (Hw : (int_wrap (Z.shiftl (base64_shift_in v1 b) 8) mod 2 ^ 32
                = (base64_shift_in v1 b * 256) mod 2 ^ 32)%Z)
    by (by rewrite int_wrap_mod, Z.shiftl_mul_pow2).
  generalize dependent (int_wrap (Z.shiftl (base64_shift_in v1 b) 8)).
  generalize dependent (base64_shift_in v1 b). generalize dependent (uchar_val b).
  intros y Hy v2 H2 w Hw. low_bits.
Qed.

Lemma base64_while_stop (fuel : nat) (val valb : Z) (e : std_string) :
  (valb < 0)%Z -> base64_while fuel val valb e = Ok (valb, e).
Proof.
  intros H. apply Z.leb_gt in H. destruct fuel; cbn [base64_while]; by rewrite H.
Qed.

Lemma base64_while_step (fuel : nat) (val valb : Z) (e : std_string) :
  (0 <= valb)%Z ->
  base64_while (S fuel) val valb e
  = base64_while fuel val (int_wrap (valb - 6))
      (e ++ [base64_char (Z.land (Z.shiftr val valb) 63)]).
Proof. intros H. apply Z.leb_le in H. cbn [base64_while]. by rewrite H. Qed.

Lemma base64_for_cons (c : char) (rest : std_string) (val valb : Z) (e : std_string) :
  base64_for (c :: rest) val valb e
  = bind (base64_while (Z.to_nat (int_wrap (valb + 8) + 1)) (base64_shift_in val c)
            (int_wrap (valb + 8)) e)
         (fun st => base64_for rest (base64_shift_in val c) (fst st) (snd st)).
Proof. reflexivity. Qed.

(** The three positions of the loop: after one, two and three bytes of a
    group. *)
Lemma base64_for_first (a : char) (rest : std_string) (val : Z) (e : std_string) :
  base64_for (a :: rest) val (-6) e
  = base64_for rest (base64_shift_in val a) (-4)
      (e ++ [base64_char (Z.land (Z.shiftr (base64_shift_in val a) 2) 63)]).
Proof.
  rewrite base64_for_cons. change (int_wrap (-6 + 8)) with 2%Z.
  change (Z.to_nat (2 + 1)) with 3.
  rewrite base64_while_step by lia. change (int_wrap (2 - 6)) with (-4)%Z.
  rewrite base64_while_stop by lia. reflexivity.
Qed.

Lemma base64_for_second (b : char) (rest : std_string) (val : Z) (e : std_string) :
  base64_for (b :: rest) val (-4) e
  = base64_for rest (base64_shift_in val b) (-2)
      (e ++ [base64_char (Z.land (Z.shiftr (base64_shift_in val b) 4) 63)]).
Proof.
  rewrite base64_for_cons. change (int_wrap (-4 + 8)) with 4%Z.
  change (Z.to_nat (4 + 1)) with 5.
  rewrite base64_while_step by lia. change (int_wrap (4 - 6)) with (-2)%Z.
  rewrite base64_while_stop by lia. reflexivity.
Qed.

Lemma base64_for_third (c : char) (rest : std_string) (val : Z) (e : std_string) :
  base64_for (c :: rest) val (-2) e
  = base64_for rest (base64_shift_in val c) (-6)
      ((e ++ [base64_char (Z.land (Z.shiftr (base64_shift_in val c) 6) 63)])
       ++ [base64_char (Z.land (Z.shiftr (base64_shift_in val c) 0) 63)]).
Proof.
  rewrite base64_for_cons. change (int_wrap (-2 + 8)) with 6%Z.
  change (Z.to_nat (6 + 1)) with 7.
  rewrite base64_while_step by lia. change (int_wrap (6 - 6)) with 0%Z.
  rewrite base64_while_step by lia. change (int_wrap (0 - 6)) with (-6)%Z.
  rewrite base64_while_stop by lia. reflexivity.
Qed.

Lemma base64_pad_stop (fuel : nat) (e : std_string) :
  (str_size e mod 4 = 0)%Z -> base64_pad fuel e = Ok e.
Proof. intros H. destruct fuel; cbn [base64_pad]; by rewrite H. Qed.

Lemma base64_pad_step (fuel : nat) (e : std_string) :
  (str_size e mod 4 <> 0)%Z ->
  base64_pad (S fuel) e = base64_pad fuel (e ++ ["="%char]).
Proof.
  intros H. apply Z.eqb_neq in H. cbn [base64_pad]. by rewrite H.
Qed.

Lemma base64_pad_spec (e : std_string) :
  ((str_size e mod 4 = 0)%Z -> base64_pad 4 e = Ok e)
  /\ ((str_size e mod 4 = 3)%Z -> base64_pad 4 e = Ok (e ++ ["="%char]))
  /\ ((str_size e mod 4 = 2)%Z -> base64_pad 4 e = Ok (e ++ ["="%char; "="%char])).
Proof.
  split; [apply base64_pad_stop|]. split; intros H.
  - rewrite base64_pad_step by lia. apply base64_pad_stop.
    rewrite str_size_app. change (str_size ["="%char]) with 1%Z.
    Z.div_mod_to_equations. lia.
  - rewrite (base64_pad_step 3) by lia. rewrite (base64_pad_step 2).
    + rewrite base64_pad_stop; [by rewrite <- app_assoc|].
      rewrite !str_size_app. change (str_size ["="%char]) with 1%Z.
      Z.div_mod_to_equations. lia.
    + rewrite str_size_app. change (str_size ["="%char]) with 1%Z.
      Z.div_mod_to_equations. lia.
Qed.

Lemma base64_finish_eq (val valb : Z) (e : std_string) :
  base64_finish (val, valb, e)
  = base64_pad 4
      (if (-6 <? valb)%Z then
         e ++ [base64_char
                 (Z.land (Z.shiftr (int_wrap (Z.shiftl val 8)) (int_wrap (valb + 8))) 63)]
       else e).
Proof. reflexivity. Qed.

Lemma base64_encode_from (n : nat) :
  forall (input : std_string) (val : Z) (e : std_string),
    length input <= n -> (str_size e mod 4 = 0)%Z ->
    bind (base64_for input val (-6) e) base64_finish = Ok (e ++ base64_spec input).
Proof.
  induction n as [n IH] using lt_wf_ind. intros input val e Hn He.
  destruct input as [|a [|b [|c rest]]].
  - cbn [base64_for bind]. rewrite base64_finish_eq.
    change (-6 <? -6)%Z with false. cbv iota.
    rewrite base64_pad_stop by done. by rewrite app_nil_r.
  - rewrite base64_for_first. cbn [base64_for bind]. rewrite base64_finish_eq.
    change (-6 <? -4)%Z with true. cbv iota.
    change (int_wrap (-4 + 8)) with 4%Z.
    rewrite base64_digit1, base64_tail1.
    rewrite (proj2 (proj2 (base64_pad_spec _))).
    + cbn [base64_spec]. by rewrite <- !app_assoc.
    + rewrite !str_size_app. unfold str_size at 2 3. cbn [length].
      Z.div_mod_to_equations. lia.
  - rewrite base64_for_first, base64_for_second. cbn [base64_for bind].
    rewrite base64_finish_eq.
    change (-6 <? -2)%Z with true. cbv iota.
    change (int_wrap (-2 + 8)) with 6%Z.
    rewrite base64_digit1, base64_digit2, base64_tail2.
    rewrite (proj1 (proj2 (base64_pad_spec _))).
    + cbn [base64_spec]. by rewrite <- !app_assoc.
    + rewrite !str_size_app. unfold str_size at 2 3 4. cbn [length].
      Z.div_mod_to_equations. lia.
  - rewrite base64_for_first, base64_for_second, base64_for_third.
    rewrite base64_digit1, base64_digit2, base64_digit3, base64_digit4.
    rewrite (IH (length rest)).
    + cbn [base64_spec]. by rewrite <- !app_assoc.
    + simpl in Hn. lia.
    + lia.
    + rewrite !str_size_app. unfold str_size at 2 3 4 5. cbn [length].
      Z.div_mod_to_equations. lia.
Qed.

Lemma base64Encode_eq_spec (input : std_string) :
  base64Encode input = Ok (base64_spec input).
Proof.
  change (base64Encode input) with (bind (base64_for input 0 (-6) []) base64_finish).
  by rewrite (base64_encode_from (length input)).
Qed.

Lemma base64_spec_length (n : nat) :
  forall input : std_string,
    length input <= n ->
    length (base64_spec input) = 4 * ((length input + 2) / 3).
Proof.
  induction n as [n IH] using lt_wf_ind. intros input Hn.
  destruct input as [|a [|b [|c rest]]]; try reflexivity.
  cbn [base64_spec]. rewrite length_app, (IH (length rest)) by (simpl in *; lia).
  cbn [length].
  replace (S (S (S (length rest))) + 2) with (length rest + 2 + 1 * 3) by lia.
  rewrite Nat.div_add by lia. lia.
Qed.

(** X14: [base64Encode] computes the Base64 encoding of RFC 4648: every
    three bytes give four characters of the alphabet, a rest of one or two
    bytes gives two or three characters followed by ['='] padding, and the
    output of [n] bytes has [4 * ceil(n / 3)] characters; the overflow of
    its [int] accumulator never shows in the result. *)
Theorem X14_base64Encode_rfc4648 (input : std_string) :
  base64Encode input = Ok (base64_spec input)
  /\ length (base64_spec input) = 4 * ((length input + 2) / 3).
Proof.
  split; [apply base64Encode_eq_spec|].
  by apply (base64_spec_length (length input)).
Qed.

(** X15: [setBasicAuth(user, pass)] never fails and sets [Authorization]
    to ["Basic "] followed by the Base64 encoding of [user:pass], on a
    request and on a builder alike, and [build()] carries the header of
    the builder into the request. *)
Theorem X15_basic_auth_header (username password : std_string)
    (r : HttpRequest.t) (b : RequestBuilder.t) :
  (exists r', HttpRequest.setBasicAuth username password r = Ok r'
     /\ HttpRequest.getHeader "Authorization" r'
        = lit "Basic " ++ base64_spec (username ++ lit ":" ++ password))
  /\ (exists b', RequestBuilder.setBasicAuth username password b = Ok b'
        /\ RequestBuilder.headers_ b' !! lit "Authorization"
           = Some (lit "Basic " ++ base64_spec (username ++ lit ":" ++ password))
        /\ HttpRequest.getHeader "Authorization" (RequestBuilder.build b')
           = lit "Basic " ++ base64_spec (username ++ lit ":" ++ password)).
Proof.
  unfold HttpRequest.setBasicAuth, RequestBuilder.setBasicAuth.
  rewrite base64Encode_eq_spec. cbn [bind]. split.
  - eexists. split; [reflexivity|].
    unfold HttpRequest.getHeader, HttpRequest.setHeader. cbn.
    by rewrite lookup_insert_eq.
  - eexists. split; [reflexivity|]. split.
    + cbn. by rewrite lookup_insert_eq.
    + unfold HttpRequest.getHeader. rewrite build_headers. cbn.
      destruct (bool_decide (RequestBuilder.cookies_ b = [])).
      * by rewrite lookup_insert_eq.
      * rewrite lookup_insert_ne by discriminate. by rewrite lookup_insert_eq.
Qed.

(** ** Cookie: [parse] reads back what [toString] writes *)

Lemma toString_attrs (c : Cookie.t) :
  Cookie.toString c
  = (Cookie.name c ++ lit "=" ++ Cookie.value c)
    ++ flat_map (fun a => lit "; " ++ a) (cookie_attrs c).
Proof.
  unfold Cookie.toString, cookie_attrs.
  destruct (bool_decide (Cookie.domain c = [])), (bool_decide (Cookie.path c = [])),
    (Cookie.secure c), (Cookie.httpOnly c), (bool_decide (Cookie.sameSite c = []));
    cbn [negb app flat_map]; rewrite <- ?app_assoc, ?app_nil_r; reflexivity.
Qed.

Lemma split_on_no_delim (d : char) (a : std_string) :
  ~ In d a -> split_on d a = [a].
Proof.
  induction a as [|x a IH]; intros Hn; [done|].
  cbn [split_on]. destruct (char_eqb x d) eqn:E.
  - apply char_eqb_eq in E as ->. destruct Hn. by left.
  - rewrite IH; [done|]. intros H. apply Hn. by right.
Qed.

Lemma split_on_app (d : char) (a b : std_string) :
  ~ In d a -> split_on d (a ++ d :: b) = a :: split_on d b.
Proof.
  induction a as [|x a IH]; intros Hn.
  - cbn [app split_on]. by rewrite char_eqb_refl.
  - cbn [app split_on]. destruct (char_eqb x d) eqn:E.
    + apply char_eqb_eq in E as ->. destruct Hn. by left.
    + rewrite IH; [done|]. intros H. apply Hn. by right.
Qed.

Lemma split_on_joined (d : char) (attrs : list (list ascii)) :
  d <> SP ->
  forall first : std_string,
    ~ In d first -> Forall (fun a => ~ In d a) attrs ->
    split_on d (first ++ flat_map (fun a => d :: SP :: a) attrs)
    = first :: map (fun a => SP :: a) attrs.
Proof.
  intros Hd. induction attrs as [|a attrs IH]; intros first Hf Ha.
  - cbn [flat_map map]. rewrite app_nil_r. by apply split_on_no_delim.
  - cbn [flat_map map]. inversion_clear Ha as [|? ? Ha1 Ha2].
    change ((d :: SP :: a) ++ flat_map (fun a0 => d :: SP :: a0) attrs)
      with (d :: ((SP :: a) ++ flat_map (fun a0 => d :: SP :: a0) attrs)).
    rewrite split_on_app by done. f_equal. apply IH; [|done].
    intros [E|H]; [by destruct Hd|done].
Qed.

Lemma index_char_app (c : char) (a b : std_string) :
  ~ In c a -> index_char c (a ++ c :: b) = Some (length a).
Proof.
  induction a as [|x a IH]; intros Hn.
  - cbn [app index_char]. by rewrite char_eqb_refl.
  - cbn [app index_char]. destruct (char_eqb x c) eqn:E.
    + apply char_eqb_eq in E as ->. destruct Hn. by left.
    + rewrite IH; [done|]. intros H. apply Hn. by right.
Qed.

Lemma strip_right_app (a b : std_string) :
  strip_right b <> [] -> strip_right (a ++ b) = a ++ strip_right b.
Proof.
  intros Hb. induction a as [|x a IH]; [done|].
  cbn [app strip_right]. rewrite IH.
  destruct (a ++ strip_right b) as [|y t] eqn:E; [|done].
  apply app_eq_nil in E as [_ E]. done.
Qed.

(** A written attribute, with the space that follows the [';'], is
    trimmed back to itself. *)
Lemma trim_spec_attr (p v : std_string) (x : char) :
  is_trim_space x = false -> strip_right v = v -> v <> [] ->
  trim_spec (SP :: (x :: p) ++ v) = (x :: p) ++ v.
Proof.
  intros Hx Hv Hne. unfold trim_spec.
  change (strip_left (SP :: (x :: p) ++ v)) with (strip_left ((x :: p) ++ v)).
  cbn [app strip_left]. rewrite Hx.
  change (x :: p ++ v) with ((x :: p) ++ v).
  rewrite strip_right_app; rewrite Hv; done.
Qed.

Lemma name_value_spec_written (n v : std_string) (c : Cookie.t) :
  ~ In "="%char n -> trim_spec n = n -> trim_spec v = v ->
  name_value_spec (n ++ lit "=" ++ v) c = Cookie.set_name_value n v c.
Proof.
  intros Hn Htn Htv. unfold name_value_spec.
  change (n ++ lit "=" ++ v) with (n ++ "="%char :: v).
  rewrite index_char_app by done.
  rewrite take_app_length.
  replace (drop (S (length n)) (n ++ "="%char :: v)) with v.
  - by rewrite Htn, Htv.
  - change (n ++ "="%char :: v) with (n ++ ["="%char] ++ v).
    rewrite app_assoc. rewrite drop_app_length'; [done|].
    rewrite length_app. simpl. lia.
Qed.

Lemma attribute_spec_domain (v : std_string) (c : Cookie.t) :
  strip_right v = v -> v <> [] ->
  attribute_spec c (SP :: lit "Domain=" ++ v) = Cookie.set_domain v c.
Proof.
  intros Hv Hne. unfold attribute_spec.
  change (SP :: lit "Domain=" ++ v) with (SP :: ("D"%char :: lit "omain=") ++ v).
  rewrite (trim_spec_attr (lit "omain=") v "D"%char) by done. reflexivity.
Qed.

Lemma attribute_spec_path (v : std_string) (c : Cookie.t) :
  strip_right v = v -> v <> [] ->
  attribute_spec c (SP :: lit "Path=" ++ v) = Cookie.set_path v c.
Proof.
  intros Hv Hne. unfold attribute_spec.
  change (SP :: lit "Path=" ++ v) with (SP :: ("P"%char :: lit "ath=") ++ v).
  rewrite (trim_spec_attr (lit "ath=") v "P"%char) by done. reflexivity.
Qed.

Lemma attribute_spec_sameSite (v : std_string) (c : Cookie.t) :
  strip_right v = v -> v <> [] ->
  attribute_spec c (SP :: lit "SameSite=" ++ v) = Cookie.set_sameSite v c.
Proof.
  intros Hv Hne. unfold attribute_spec.
  change (SP :: lit "SameSite=" ++ v) with (SP :: ("S"%char :: lit "ameSite=") ++ v).
  rewrite (trim_spec_attr (lit "ameSite=") v "S"%char) by done. reflexivity.
Qed.

Lemma attribute_spec_secure (c : Cookie.t) :
  attribute_spec c (SP :: lit "Secure") = Cookie.set_secure true c.
Proof. reflexivity. Qed.

Lemma attribute_spec_httpOnly (c : Cookie.t) :
  attribute_spec c (SP :: lit "HttpOnly") = Cookie.set_httpOnly true c.
Proof. reflexivity. Qed.

Lemma cookie_attrs_no_semicolon (c : Cookie.t) :
  cookie_well_formed c -> Forall (fun a => ~ In ";"%char a) (cookie_attrs c).
Proof.
  intros (_ & _ & _ & _ & _ & Hd & _ & Hp & _ & Hs & _).
  assert (Hpre : forall p v : std_string,
            ~ In ";"%char p -> ~ In ";"%char v -> ~ In ";"%char (p ++ v)).
  { intros p v Hp' Hv H. apply in_app_or in H as [H|H]; tauto. }
  assert (Hlit : forall s : string, existsb (char_eqb ";") (lit s) = false ->
                                    ~ In ";"%char (lit s)).
  { intros s Hs' H. apply mem_char_In in H. unfold mem_char in H. congruence. }
  unfold cookie_attrs. repeat apply Forall_app_2;
    repeat match goal with
           | |- Forall _ (if ?b then _ else _) => destruct b
           end;
    repeat constructor; try apply Hpre; try done; by apply Hlit.
Qed.

(** X16: [Cookie::parse] reads back every cookie that [toString] writes,
    provided no field holds a [';'], the name holds no ['='], name and
    value have no white space around them and the attribute values none at
    their end. *)
Theorem X16_cookie_toString_parse_roundtrip (c : Cookie.t) :
  cookie_well_formed c ->
  (str_size (Cookie.toString c) < npos)%Z ->
  Cookie.parse (Cookie.toString c) = Ok c.
Proof.
  intros Hwf Hsize. rewrite Cookie_parse_eq_spec by done. f_equal.
  unfold cookie_parse_spec. rewrite toString_attrs.
  pose proof (cookie_attrs_no_semicolon c Hwf) as Hattrs.
  destruct Hwf as (Hn1 & Hn2 & Hn3 & Hv1 & Hv2 & _ & Hd & _ & Hp & _ & Hs).
  change (flat_map (fun a => lit "; " ++ a) (cookie_attrs c))
    with (flat_map (fun a => ";"%char :: SP :: a) (cookie_attrs c)).
  rewrite split_on_joined; [|discriminate| |done].
  2:{ intros H. apply in_app_or in H as [H|H]; [done|].
      destruct H as [H|H]; [discriminate|done]. }
  rewrite name_value_spec_written by done.
  unfold cookie_attrs. rewrite !map_app, !fold_left_app.
  destruct c as [n v d p s h ss].
  cbn [Cookie.name Cookie.value Cookie.domain Cookie.path Cookie.secure
       Cookie.httpOnly Cookie.sameSite] in *.
  repeat case_bool_decide; subst; destruct s, h; cbn [map fold_left];
    rewrite ?attribute_spec_domain, ?attribute_spec_path, ?attribute_spec_secure,
      ?attribute_spec_httpOnly, ?attribute_spec_sameSite by done;
    reflexivity.
Qed.

Lemma X16_cookie_toString_parse_roundtrip_witness :
  Cookie.parse (Cookie.toString (Cookie.mk "sid" "a=b c" "example.com" "/" true false "Lax"))
  = Ok (Cookie.mk "sid" "a=b c" "example.com" "/" true false "Lax").
Proof.
  apply X16_cookie_toString_parse_roundtrip.
  - unfold cookie_well_formed. cbn [Cookie.name Cookie.value Cookie.domain Cookie.path
      Cookie.sameSite].
    repeat split;
      try (intros H; apply mem_char_In in H; vm_compute in H; discriminate);
      vm_compute; reflexivity.
  - vm_compute. reflexivity.
Defined.

(** ** HttpClient: [parseHeaders] *)

Lemma trim_spec_head (s : std_string) (c : char) :
  head (trim_spec s) = Some c -> is_trim_space c = false.
Proof.
  unfold trim_spec. intros H. apply strip_right_head in H.
  destruct (strip_left_decomp s) as (_ & _ & _ & Hhd). by apply Hhd.
Qed.

Lemma trim_spec_last (s : std_string) (c : char) :
  last (trim_spec s) = Some c -> is_trim_space c = false.
Proof.
  unfold trim_spec.
  destruct (strip_right_decomp (strip_left s)) as (_ & _ & _ & Hlast). apply Hlast.
Qed.

Lemma trimmed_strip_right (v : std_string) : trim_spec v = v -> strip_right v = v.
Proof.
  intros H. apply strip_right_fix. intros c Hc. apply (trim_spec_last v). by rewrite H.
Qed.

Lemma In_strip_left (c : char) (s : std_string) : In c (strip_left s) -> In c s.
Proof.
  destruct (strip_left_decomp s) as (pre & Hs & _). intros H.
  rewrite Hs. apply in_or_app. by right.
Qed.

Lemma In_strip_right (c : char) (s : std_string) : In c (strip_right s) -> In c s.
Proof.
  destruct (strip_right_decomp s) as (post & Hs & _). intros H.
  rewrite Hs. apply in_or_app. by left.
Qed.

Lemma In_trim_spec (c : char) (s : std_string) : In c (trim_spec s) -> In c s.
Proof. unfold trim_spec. intros H. by apply In_strip_left, In_strip_right. Qed.

Lemma strip_right_cons (x : char) (b : std_string) :
  is_trim_space x = false -> strip_right (x :: b) = x :: strip_right b.
Proof. intros Hx. cbn [strip_right]. destruct (strip_right b); by rewrite ?Hx. Qed.

Lemma strip_right_space (a b : std_string) :
  all_space b -> strip_right (a ++ b) = strip_right a.
Proof.
  intros Hb. induction a as [|x a IH].
  - cbn [app]. induction b as [|y b IHb]; [done|].
    unfold all_space in *. cbn [forallb] in Hb.
    apply andb_true_iff in Hb as [Hy Hb].
    cbn [strip_right]. rewrite (IHb Hb). cbn [strip_right]. by rewrite Hy.
  - cbn [app strip_right]. by rewrite IH.
Qed.

(** The line of a header, as [getline] hands it over, is trimmed to the
    key, the colon and, when there is a value, a space and the value. *)
Lemma trim_spec_header_line (k v : std_string) :
  trim_spec k = k -> trim_spec v = v ->
  trim_spec (k ++ lit ": " ++ v ++ [CR])
  = k ++ ":"%char :: (if bool_decide (v = []) then [] else SP :: v).
Proof.
  intros Hk Hv. unfold trim_spec at 1.
  assert (Hleft : strip_left (k ++ lit ": " ++ v ++ [CR]) = k ++ lit ": " ++ v ++ [CR]).
  { apply strip_left_fix. intros c Hc. destruct k as [|x k].
    - cbn in Hc. by injection Hc as <-.
    - cbn in Hc. injection Hc as <-. apply (trim_spec_head (x :: k)). by rewrite Hk. }
  rewrite Hleft.
  change (k ++ lit ": " ++ v ++ [CR]) with (k ++ ":"%char :: (SP :: v) ++ [CR]).
  assert (Hrest : strip_right (":"%char :: (SP :: v) ++ [CR])
                  = ":"%char :: (if bool_decide (v = []) then [] else SP :: v)).
  { rewrite strip_right_cons by reflexivity. f_equal.
    rewrite strip_right_space by reflexivity.
    case_bool_decide as Hnil; [by subst|].
    change (SP :: v) with ([SP] ++ v).
    rewrite strip_right_app; rewrite (trimmed_strip_right v Hv); done. }
  rewrite strip_right_app; rewrite Hrest; done.
Qed.

Lemma parse_header_line_field (k v : std_string) (r : HttpResponse.t) :
  ~ In ":"%char k -> trim_spec k = k -> trim_spec v = v ->
  (str_size (k ++ lit ": " ++ v ++ [CR]) < npos)%Z ->
  HttpClient.parse_header_line (k ++ lit ": " ++ v ++ [CR]) r
  = HttpResponse.setHeader k v r.
Proof.
  intros Hcolon Hk Hv Hsize. unfold HttpClient.parse_header_line.
  rewrite trim_eq_spec by done. cbn [bind].
  pose proof (trim_spec_length (k ++ lit ": " ++ v ++ [CR])) as Hlen.
  rewrite trim_spec_header_line in * by done.
  set (tail := if bool_decide (v = []) then [] else SP :: v) in *.
  assert (Htail : trim_spec tail = v).
  { unfold tail. case_bool_decide; [by subst|]. exact Hv. }
  rewrite bool_decide_eq_false_2 by (by destruct k).
  assert (Hline : (str_size (k ++ ":"%char :: tail) < npos)%Z)
    by (unfold str_size in *; lia).
  unfold find_char. rewrite index_char_app by done. cbn [pos_of].
  assert (Hklen : length k < length (k ++ ":"%char :: tail))
    by (rewrite length_app; simpl; lia).
  unfold str_size in Hline.
  destruct (Z.eqb_spec (Z.of_nat (length k)) npos) as [|_]; [lia|]. cbn [negb].
  rewrite substr_zero_take by lia. rewrite take_app_length. cbn [bind].
  rewrite trim_eq_spec by (unfold str_size; lia). rewrite Hk. cbn [bind].
  replace (Z.of_nat (length k) + 1)%Z with (Z.of_nat (S (length k))) by lia.
  rewrite substr_from_drop by (unfold str_size; lia).
  replace (drop (S (length k)) (k ++ ":"%char :: tail)) with tail.
  2:{ change (k ++ ":"%char :: tail) with (k ++ [":"%char] ++ tail).
      rewrite app_assoc, drop_app_length'; [done|]. rewrite length_app. simpl. lia. }
  cbn [bind]. rewrite trim_eq_spec.
  - rewrite Htail. reflexivity.
  - rewrite length_app in Hline. unfold str_size. simpl in Hline. lia.
Qed.

Lemma parse_header_line_other (line : std_string) (r : HttpResponse.t) :
  ~ In ":"%char line -> (str_size line < npos)%Z ->
  HttpClient.parse_header_line line r = Ok r.
Proof.
  intros Hcolon Hsize. unfold HttpClient.parse_header_line.
  rewrite trim_eq_spec by done. cbn [bind].
  case_bool_decide; [done|].
  assert (Hsize' : (str_size (trim_spec line) < npos)%Z).
  { pose proof (trim_spec_length line). unfold str_size in *. lia. }
  destruct (find_char_spec (trim_spec line) ":" Hsize')
    as [[-> _]|(i & tl & _ & _ & _ & Hd & _)].
  - by rewrite Z.eqb_refl.
  - destruct Hcolon. apply In_trim_spec.
    rewrite <- (take_drop i (trim_spec line)), Hd. apply in_or_app. right. by left.
Qed.

Lemma getline_split_app (d : char) (line rest : std_string) :
  ~ In d line -> getline_split d (line ++ d :: rest) = (line, rest).
Proof.
  induction line as [|x line IH]; intros Hn.
  - cbn. by rewrite char_eqb_refl.
  - cbn [app getline_split]. destruct (char_eqb x d) eqn:E.
    + apply char_eqb_eq in E as ->. destruct Hn. by left.
    + rewrite IH; [done|]. intros H. apply Hn. by right.
Qed.

Lemma parse_header_lines_line (fuel : nat) (line rest : std_string)
    (r : HttpResponse.t) :
  ~ In LF line ->
  HttpClient.parse_header_lines (S fuel) (line ++ LF :: rest) r
  = bind (HttpClient.parse_header_line line r)
         (fun r' => HttpClient.parse_header_lines fuel rest r').
Proof.
  intros Hn. cbn [HttpClient.parse_header_lines]. unfold getline.
  destruct (line ++ LF :: rest) eqn:E; [by destruct line|].
  rewrite <- E. by rewrite getline_split_app.
Qed.

Lemma set_headers_cons (kv : list ascii * list ascii)
    (kvs : list (list ascii * list ascii)) (r : HttpResponse.t) :
  set_headers (kv :: kvs) r
  = bind (HttpResponse.setHeader (fst kv) (snd kv) r) (set_headers kvs).
Proof.
  unfold set_headers. cbn [fold_left bind].
  destruct (setHeader_spec (fst kv) (snd kv) r) as (r' & -> & _). reflexivity.
Qed.

Lemma parse_header_fields (kvs : list (list ascii * list ascii)) :
  forall (fuel : nat) (r : HttpResponse.t),
    Forall header_field_ok kvs ->
    length (flat_map header_line kvs ++ [CR; LF]) <= fuel ->
    (str_size (flat_map header_line kvs ++ [CR; LF]) < npos)%Z ->
    HttpClient.parse_header_lines fuel (flat_map header_line kvs ++ [CR; LF]) r
    = set_headers kvs r.
Proof.
  induction kvs as [|kv kvs IH]; intros fuel r Hok Hfuel Hsize.
  - cbn [flat_map app] in *. destruct fuel as [|fuel]; [simpl in Hfuel; lia|].
    change [CR; LF] with ([CR] ++ LF :: []).
    rewrite (parse_header_lines_line fuel [CR] [] r)
      by (intros [H|[]]; discriminate).
    rewrite parse_header_line_other; [|intros [H|[]]; discriminate|done].
    cbn [bind]. by destruct fuel.
  - destruct kv as [k v].
    apply Forall_cons in Hok as [(Hk1 & Hk2 & Hk3 & Hv1 & Hv2) Hoks].
    cbn [flat_map] in *.
    change (header_line (k, v)) with (k ++ lit ": " ++ v ++ [CR; LF]) in *.
    cbn [fst snd] in *.
    assert (Heq : ((k ++ lit ": " ++ v ++ [CR; LF]) ++ flat_map header_line kvs)
                  ++ [CR; LF]
                  = (k ++ lit ": " ++ v ++ [CR])
                    ++ LF :: (flat_map header_line kvs ++ [CR; LF])).
    { rewrite <- !app_assoc. reflexivity. }
    rewrite Heq in *.
    destruct fuel as [|fuel]; [rewrite length_app in Hfuel; simpl in Hfuel; lia|].
    rewrite parse_header_lines_line.
    2:{ intros H. apply in_app_or in H as [H|H]; [done|].
        change (lit ": " ++ v ++ [CR]) with ([":"%char; SP] ++ v ++ [CR]) in H.
        apply in_app_or in H as [H|H]; [destruct H as [H|[H|[]]]; discriminate|].
        apply in_app_or in H as [H|[H|[]]]; [done|discriminate]. }
    rewrite str_size_app in Hsize.
    pose proof (str_size_nonneg (LF :: flat_map header_line kvs ++ [CR; LF])).
    rewrite parse_header_line_field by (done || lia).
    rewrite set_headers_cons. cbn [fst snd].
    destruct (setHeader_spec k v r) as (r' & -> & _). cbn [bind].
    apply IH; [done| |].
    + rewrite length_app in Hfuel. simpl in Hfuel. simpl. lia.
    + pose proof (str_size_nonneg (k ++ lit ": " ++ v ++ [CR])).
      unfold str_size in *. simpl length in *. lia.
Qed.

(** X17: [parseHeaders] on a block of headers (a status line without
    [':'], one [key: value] line per header, an empty line, each ended by
    CR LF) stores exactly the headers of the block, in their order, as
    [setHeader] does: the status line and the empty line are skipped, and
    every key and value arrives as written when it holds no line feed, the
    key holds no [':'] and neither has white space around it. *)
Theorem X17_parseHeaders_block (status : std_string)
    (kvs : list (list ascii * list ascii)) (r : HttpResponse.t) :
  ~ In ":"%char status -> ~ In LF status ->
  Forall header_field_ok kvs ->
  (str_size (header_text status kvs) < npos)%Z ->
  HttpClient.parseHeaders (header_text status kvs) r = set_headers kvs r.
Proof.
  intros Hs1 Hs2 Hok Hsize. unfold HttpClient.parseHeaders, header_text in *.
  assert (Heq : status ++ [CR; LF] ++ flat_map header_line kvs ++ [CR; LF]
                = (status ++ [CR]) ++ LF :: (flat_map header_line kvs ++ [CR; LF])).
  { rewrite <- !app_assoc. reflexivity. }
  rewrite Heq in *.
  assert (Hlen : length ((status ++ [CR]) ++ LF :: (flat_map header_line kvs ++ [CR; LF]))
                 = S (length (status ++ [CR])
                      + length (flat_map header_line kvs ++ [CR; LF]))).
  { rewrite length_app. simpl. lia. }
  rewrite Hlen. rewrite parse_header_lines_line.
  2:{ intros H. apply in_app_or in H as [H|[H|[]]]; [done|discriminate]. }
  unfold str_size in Hsize. rewrite Hlen in Hsize.
  rewrite parse_header_line_other.
  - cbn [bind]. apply parse_header_fields; [done|lia|unfold str_size; lia].
  - intros H. apply in_app_or in H as [H|[H|[]]]; [done|discriminate].
  - unfold str_size. lia.
Qed.

Lemma X17_parseHeaders_block_witness :
  HttpClient.parseHeaders
    (header_text "HTTP/1.1 200 OK"
       [(lit "Content-Type", lit "text/html"); (lit "Set-Cookie", lit "a=1; Path=/")])
    HttpResponse.init
  = set_headers
      [(lit "Content-Type", lit "text/html"); (lit "Set-Cookie", lit "a=1; Path=/")]
      HttpResponse.init.
Proof.
  apply X17_parseHeaders_block.
  - intros H. apply mem_char_In in H. vm_compute in H. discriminate.
  - intros H. apply mem_char_In in H. vm_compute in H. discriminate.
  - repeat constructor;
      try (intros H; apply mem_char_In in H; vm_compute in H; discriminate);
      vm_compute; reflexivity.
  - vm_compute. reflexivity.
Defined.

(** ** [std::to_string] and [std::stoull] agree *)

Lemma read_digits_uint (d : Decimal.uint) :
  forall (acc : Z) (n : nat) (rest : std_string),
    (forall c, head rest = Some c -> digit_val c = None) ->
    read_digits digit_val 10 acc n (lit (NilEmpty.string_of_uint d) ++ rest)
    = (n + Decimal.nb_digits d, uint_val acc d).
Proof.
  induction d; intros acc n rest Hrest;
    try (cbn [NilEmpty.string_of_uint lit list_ascii_of_string app read_digits
              uint_val Decimal.nb_digits];
         change (lit (NilEmpty.string_of_uint d))
           with (list_ascii_of_string (NilEmpty.string_of_uint d)) in IHd;
         cbn [digit_val]; 
         match goal with
         | |- context [digit_val ?c] =>
             let v := eval vm_compute in (digit_val c) in
             change (digit_val c) with v
         end;
         cbv iota; rewrite IHd by done; f_equal; lia).
  cbn [NilEmpty.string_of_uint lit list_ascii_of_string app uint_val Decimal.nb_digits].
  destruct rest as [|c rest]; cbn [read_digits].
  - f_equal. lia.
  - rewrite (Hrest c eq_refl). f_equal. lia.
Qed.

Lemma uint_val_of_lu (d : Decimal.uint) :
  forall d' : Decimal.uint,
    uint_val (Z.of_N (Unsigned.of_lu d')) d = Z.of_N (Unsigned.of_lu (Decimal.revapp d d')).
Proof.
  induction d; intros d'; cbn [uint_val Decimal.revapp]; [done|..];
    rewrite <- IHd; f_equal; cbn [Unsigned.of_lu]; lia.
Qed.

Lemma uint_val_to_uint (n : N) : uint_val 0 (N.to_uint n) = Z.of_N n.
Proof.
  rewrite <- (DecimalN.Unsigned.of_to n) at 2.
  unfold N.of_uint. rewrite Unsigned.of_uint_alt. unfold Decimal.rev.
  by rewrite <- uint_val_of_lu.
Qed.

Lemma to_uint_head (n : N) :
  exists c rest,
    lit (NilZero.string_of_uint (N.to_uint n)) = c :: rest
    /\ NilZero.string_of_uint (N.to_uint n) = NilEmpty.string_of_uint (N.to_uint n)
    /\ isspace c = false /\ char_eqb c "-" = false /\ char_eqb c "+" = false
    /\ 0 < Decimal.nb_digits (N.to_uint n).
Proof.
  assert (Hnn : N.to_uint n <> Decimal.Nil).
  { destruct n; [discriminate|]. apply Unsigned.to_uint_nonnil. }
  destruct (N.to_uint n); [done|..]; eexists _, _;
    (split; [reflexivity|]); (split; [reflexivity|]);
    repeat split; cbn [Decimal.nb_digits]; lia.
Qed.

Lemma parse_decimal_to_string (z : Z) :
  (0 <= z)%Z -> parse_decimal (to_string z) = Some (false, z).
Proof.
  intros Hz. unfold parse_decimal, to_string.
  destruct (to_uint_head (Z.to_N z)) as (c & rest & Hs & Hnil & Hsp & Hm & Hp & Hnb).
  rewrite Hs. cbn [skip_space]. rewrite Hsp. cbn [take_sign]. rewrite Hm, Hp.
  rewrite <- Hs, Hnil.
  rewrite <- (app_nil_r (lit (NilEmpty.string_of_uint (N.to_uint (Z.to_N z))))).
  rewrite read_digits_uint by done.
  rewrite uint_val_to_uint, Z2N.id by done.
  destruct (Decimal.nb_digits (N.to_uint (Z.to_N z))); [lia|reflexivity].
Qed.

Lemma to_string_digits (z : Z) (c : char) :
  In c (to_string z) -> digit_val c <> None.
Proof.
  unfold to_string.
  destruct (to_uint_head (Z.to_N z)) as (_ & _ & _ & -> & _).
  induction (N.to_uint (Z.to_N z)); cbn; try done;
    (intros [<-|H]; [by vm_compute|by apply IHu]).
Qed.

(** X18: [std::to_string] and [std::stoull] agree, so the
    [Content-Length] that [setBody] writes for a body that is not empty is
    read by [getContentLength], on a response that carries it, as the
    length of that body. *)
Theorem X18_content_length_written_and_read
    (body : std_string) (b : RequestBuilder.t) (r : HttpResponse.t) :
  body <> [] -> (str_size body <= ULLONG_MAX)%Z ->
  exists v r',
    RequestBuilder.headers_ (RequestBuilder.setBody body b) !! lit "Content-Length"
    = Some v
    /\ stoull v = Ok (str_size body)
    /\ HttpResponse.setHeader "Content-Length" v r = Ok r'
    /\ HttpResponse.getContentLength r' = Ok (str_size body).
Proof.
  intros Hne Hmax.
  assert (Hstoull : stoull (to_string (str_size body)) = Ok (str_size body)).
  { unfold stoull. rewrite parse_decimal_to_string by apply str_size_nonneg.
    apply Z.leb_le in Hmax. by rewrite Hmax. }
  destruct (setHeader_spec "Content-Length" (to_string (str_size body)) r)
    as (r' & Hr' & Hh & _).
  exists (to_string (str_size body)), r'.
  split; [rewrite setBody_headers, bool_decide_eq_false_2 by done;
          apply lookup_insert_eq|].
  split; [done|]. split; [done|].
  unfold HttpResponse.getContentLength, HttpResponse.getHeader.
  rewrite toLower_content_length, Hh.
  change (toLower (lit "Content-Length")) with (lit "content-length").
  rewrite lookup_insert_eq.
  rewrite bool_decide_eq_false_2.
  - cbn [negb]. by rewrite Hstoull.
  - unfold to_string. destruct (to_uint_head (Z.to_N (str_size body)))
      as (c & rest & -> & _). discriminate.
Qed.

Lemma X18_content_length_written_and_read_witness :
  exists v r',
    RequestBuilder.headers_
      (RequestBuilder.setBody "hello world" (RequestBuilder.make POST "http://h/"))
      !! lit "Content-Length" = Some v
    /\ stoull v = Ok 11%Z
    /\ HttpResponse.setHeader "Content-Length" v HttpResponse.init = Ok r'
    /\ HttpResponse.getContentLength r' = Ok 11%Z.
Proof.
  apply (X18_content_length_written_and_read (lit "hello world")
           (RequestBuilder.make POST "http://h/") HttpResponse.init).
  - discriminate.
  - vm_compute. discriminate.
Defined.

(** ** URL: [parse] reads back a URL written from its parts *)

Lemma find_char_app (a b : std_string) (c : char) :
  (str_size (a ++ c :: b) < npos)%Z -> ~ In c a ->
  find_char (a ++ c :: b) c = Z.of_nat (length a)
  /\ (Z.of_nat (length a) =? npos)%Z = false.
Proof.
  intros Hsize Hn. unfold find_char. rewrite index_char_app by done.
  split; [done|]. apply Z.eqb_neq. unfold str_size in Hsize.
  rewrite length_app in Hsize. lia.
Qed.

Lemma index_str_app (x : char) (p a b : std_string) :
  ~ In x a -> index_str (x :: p) (a ++ (x :: p) ++ b) = Some (length a).
Proof.
  intros Hn.
  assert (H : prefixb (x :: p) ((x :: p) ++ b) = true)
    by (apply prefixb_spec; by exists b).
  set (t := (x :: p) ++ b) in *.
  induction a as [|y a IH].
  - cbn [app length]. destruct t; cbn [index_str]; by rewrite H.
  - cbn [app index_str prefixb length].
    destruct (char_eqb x y) eqn:E.
    + apply char_eqb_eq in E as ->. destruct Hn. by left.
    + cbn [andb]. rewrite IH; [done|]. intros H'. apply Hn. by right.
Qed.

Lemma substr_zero_app (a b : std_string) :
  substr (a ++ b) 0 (Z.of_nat (length a)) = Ok a.
Proof.
  rewrite substr_zero_take by (rewrite length_app; lia).
  by rewrite take_app_length.
Qed.

Lemma substr_from_app (a b : std_string) (k : Z) :
  (str_size (a ++ b) < npos)%Z -> k = Z.of_nat (length a) ->
  substr_from (a ++ b) k = Ok b.
Proof.
  intros Hsize ->. rewrite substr_from_drop by (done || rewrite length_app; lia).
  by rewrite drop_app_length.
Qed.

Lemma parse_scheme_written (scheme rest : std_string) :
  (str_size (scheme ++ lit "://" ++ rest) < npos)%Z ->
  ~ In ":"%char scheme ->
  URL.parse_scheme URL.init (scheme ++ lit "://" ++ rest)
  = Ok (if str_eqb scheme "https"
        then URL.set_port 443 (URL.set_scheme scheme URL.init)
        else URL.set_scheme scheme URL.init, rest).
Proof.
  intros Hsize Hn. unfold URL.parse_scheme, find_str.
  pose proof (index_str_app ":" (lit "//") scheme rest Hn) as Hidx.
  change (":"%char :: lit "//") with (lit "://") in Hidx.
  rewrite Hidx. cbn [pos_of].
  assert (Hlen : (Z.of_nat (length scheme) + 3 <= str_size (scheme ++ lit "://" ++ rest))%Z).
  { unfold str_size. rewrite !length_app. simpl. lia. }
  destruct (Z.eqb_spec (Z.of_nat (length scheme)) npos) as [|_]; [lia|]. cbn [negb].
  rewrite substr_zero_app. cbn [bind].
  change (scheme ++ lit "://" ++ rest) with (scheme ++ (lit "://" ++ rest)).
  rewrite app_assoc in *.
  rewrite (substr_from_app (scheme ++ lit "://") rest)
    by (done || rewrite length_app; simpl; lia).
  cbn [bind URL.scheme URL.set_scheme]. by destruct (str_eqb scheme "https").
Qed.

Lemma host_port_written (hp rest : std_string) :
  (str_size (hp ++ "/"%char :: rest) < npos)%Z -> ~ In "/"%char hp ->
  URL.host_port (hp ++ "/"%char :: rest) = Ok hp.
Proof.
  intros Hsize Hn. unfold URL.host_port.
  destruct (find_char_app hp rest "/" Hsize Hn) as [-> ->]. cbn [negb].
  apply substr_zero_app.
Qed.

Lemma parse_authority_written (res : URL.t) (host port : std_string) :
  (str_size (host ++ ":"%char :: port) < npos)%Z -> ~ In ":"%char host ->
  URL.parse_authority res (host ++ ":"%char :: port)
  = bind (stoi port) (fun n => Ok (URL.set_port n (URL.set_host host res))).
Proof.
  intros Hsize Hn. unfold URL.parse_authority.
  destruct (find_char_app host port ":" Hsize Hn) as [-> ->]. cbn [negb].
  rewrite substr_zero_app. cbn [bind].
  change (host ++ ":"%char :: port) with (host ++ [":"%char] ++ port) in *.
  rewrite app_assoc in *.
  rewrite (substr_from_app (host ++ [":"%char]) port)
    by (done || rewrite length_app; simpl; lia).
  reflexivity.
Qed.

Lemma parse_path_written (res : URL.t) (hp path query fragment : std_string) :
  (str_size (hp ++ path ++ lit "?" ++ query ++ lit "#" ++ fragment) < npos)%Z ->
  ~ In "/"%char hp -> (exists rest, path = "/"%char :: rest) ->
  ~ In "?"%char path -> ~ In "#"%char path -> ~ In "#"%char query ->
  URL.parse_path res (hp ++ path ++ lit "?" ++ query ++ lit "#" ++ fragment)
  = Ok (URL.set_fragment fragment (URL.set_query query (URL.set_path path res))).
Proof.
  intros Hsize Hhp [rest ->] Hq Hf Hfq. unfold URL.parse_path.
  set (t := ("/"%char :: rest) ++ lit "?" ++ query ++ lit "#" ++ fragment) in *.
  assert (Ht : hp ++ t = hp ++ "/"%char :: (rest ++ lit "?" ++ query ++ lit "#" ++ fragment))
    by reflexivity.
  assert (Htsize : (str_size t < npos)%Z).
  { rewrite str_size_app in Hsize. pose proof (str_size_nonneg hp). lia. }
  rewrite Ht in Hsize |- *.
  destruct (find_char_app hp _ "/" Hsize Hhp) as [-> ->]. cbn [negb].
  rewrite <- Ht in Hsize |- *.
  rewrite (substr_from_app hp t) by done. cbn [bind].
  assert (Hq' : t = ("/"%char :: rest) ++ "?"%char :: (query ++ lit "#" ++ fragment))
    by reflexivity.
  assert (Hf' : t = (("/"%char :: rest) ++ lit "?" ++ query) ++ "#"%char :: fragment)
    by (unfold t; by rewrite <- !app_assoc).
  assert (Hfn : ~ In "#"%char (("/"%char :: rest) ++ lit "?" ++ query)).
  { intros H. apply in_app_or in H as [H|H]; [done|].
    apply in_app_or in H as [[H|[]]|H]; [discriminate|done]. }
  pose proof Htsize as Hs1. rewrite Hq' in Hs1.
  destruct (find_char_app _ _ "?" Hs1 Hq) as [Hqpos Hqne].
  pose proof Htsize as Hs2. rewrite Hf' in Hs2.
  destruct (find_char_app _ _ "#" Hs2 Hfn) as [Hfpos Hfne].
  rewrite <- Hq' in Hqpos. rewrite <- Hf' in Hfpos.
  rewrite Hqpos, Hfpos, Hqne, Hfne. cbn [negb].
  rewrite Hq' at 1. rewrite substr_zero_app. cbn [bind].
  assert (Hmid : t = (("/"%char :: rest) ++ lit "?") ++ query ++ ("#"%char :: fragment))
    by (unfold t; by rewrite <- !app_assoc).
  assert (Hwrap : wrap (Z.of_nat (length (("/"%char :: rest) ++ lit "?" ++ query))
                        - Z.of_nat (length ("/"%char :: rest)) - 1)
                  = str_size query).
  { assert (Hb : (Z.of_nat (length rest) + Z.of_nat (length query) + 3
                  < size_t_modulus)%Z).
    { clear -Htsize Hmid. unfold str_size, npos in Htsize.
      rewrite Hmid, !length_app in Htsize. simpl length in Htsize. lia. }
    unfold wrap, str_size. rewrite !length_app. simpl length.
    rewrite Z.mod_small; lia. }
  rewrite Hwrap.
  replace (Z.of_nat (length ("/"%char :: rest)) + 1)%Z
    with (str_size (("/"%char :: rest) ++ lit "?"))
    by (unfold str_size; rewrite length_app; simpl; lia).
  rewrite Hmid at 1. rewrite substr_middle. cbn [bind].
  assert (Hfrag : substr_from t
                    (Z.of_nat (length (("/"%char :: rest) ++ lit "?" ++ query)) + 1)
                  = Ok fragment).
  { assert (Hf'' : t = ((("/"%char :: rest) ++ lit "?" ++ query) ++ ["#"%char])
                       ++ fragment)
      by (unfold t; rewrite <- !app_assoc; reflexivity).
    rewrite Hf'' at 1. apply substr_from_app; [by rewrite <- Hf''|].
    rewrite (length_app _ ["#"%char]). simpl. lia. }
  by rewrite Hfrag.
Qed.

(** X19: [URL::parse] reads back a URL written as
    [scheme://host:port/path?query#fragment]: it returns exactly the parts
    the text was written from, provided the scheme has no [':'], the host
    no [':'] or ['/'], the port is between 0 and [INT_MAX], the path
    begins with ['/'] and has no ['?'] or ['#'], and the query has no
    ['#']. *)
Theorem X19_url_parse_reads_back (u : URL.t) :
  url_well_formed u ->
  (str_size (url_text u) < npos)%Z ->
  URL.parse (url_text u) = Ok u.
Proof.
  intros (Hs & Hh1 & Hh2 & Hport & Hpath & Hp1 & Hp2 & Hq) Hsize.
  destruct u as [scheme host port path query fragment].
  cbn [URL.scheme URL.host URL.port URL.path URL.query URL.fragment] in *.
  unfold url_text in *.
  cbn [URL.scheme URL.host URL.port URL.path URL.query URL.fragment] in *.
  unfold URL.parse.
  rewrite parse_scheme_written by done. cbn [bind fst snd].
  set (res := if str_eqb scheme "https"
              then URL.set_port 443 (URL.set_scheme scheme URL.init)
              else URL.set_scheme scheme URL.init).
  assert (Hres : URL.scheme res = scheme /\ URL.host res = [] /\ URL.path res = []
                 /\ URL.query res = [] /\ URL.fragment res = []).
  { unfold res. by destruct (str_eqb scheme "https"). }
  set (hp := host ++ lit ":" ++ to_string port).
  assert (Hhp : ~ In "/"%char hp).
  { unfold hp. intros H. apply in_app_or in H as [H|H]; [done|].
    apply in_app_or in H as [[H|[]]|H]; [discriminate|].
    by apply to_string_digits in H. }
  assert (Htemp : host ++ lit ":" ++ to_string port ++ path ++ lit "?" ++ query
                  ++ lit "#" ++ fragment
                  = hp ++ path ++ lit "?" ++ query ++ lit "#" ++ fragment)
    by (unfold hp; by rewrite <- !app_assoc).
  assert (Hsize' : (str_size (hp ++ path ++ lit "?" ++ query ++ lit "#" ++ fragment)
                    < npos)%Z).
  { rewrite <- Htemp. rewrite str_size_app in Hsize.
    pose proof (str_size_nonneg scheme). rewrite str_size_app in Hsize.
    change (str_size (lit "://")) with 3%Z in Hsize. lia. }
  rewrite Htemp.
  destruct Hpath as [rest Hpath].
  assert (Hhost_port : URL.host_port (hp ++ path ++ lit "?" ++ query ++ lit "#" ++ fragment)
                       = Ok hp).
  { clear -Hpath Hsize' Hhp. subst path.
    apply host_port_written; [exact Hsize'|done]. }
  rewrite Hhost_port. cbn [bind].
  assert (Hhpsize : (str_size hp < npos)%Z).
  { rewrite str_size_app in Hsize'.
    pose proof (str_size_nonneg (path ++ lit "?" ++ query ++ lit "#" ++ fragment)). lia. }
  unfold hp at 1. change (host ++ lit ":" ++ to_string port)
    with (host ++ ":"%char :: to_string port).
  rewrite parse_authority_written by done.
  assert (Hstoi : stoi (to_string port) = Ok port).
  { unfold stoi. rewrite parse_decimal_to_string by lia.
    assert (H1 : (INT_MIN <=? port)%Z = true) by (apply Z.leb_le; unfold INT_MIN; lia).
    assert (H2 : (port <=? INT_MAX)%Z = true) by (apply Z.leb_le; lia).
    by rewrite H1, H2. }
  rewrite Hstoi. cbn [bind].
  rewrite parse_path_written by (done || by exists rest).
  destruct Hres as (Hr1 & Hr2 & Hr3 & Hr4 & Hr5).
  destruct res as [s0 h0 p0 pa0 q0 f0]. cbn in *. by subst.
Qed.

Lemma X19_url_parse_reads_back_witness :
  URL.parse (url_text (URL.mk "https" "api.example.com" 8080 "/v1/users" "page=1" "top"))
  = Ok (URL.mk "https" "api.example.com" 8080 "/v1/users" "page=1" "top").
Proof.
  apply X19_url_parse_reads_back.
  - unfold url_well_formed.
    cbn [URL.scheme URL.host URL.port URL.path URL.query URL.fragment].
    repeat split;
      try (intros H; apply mem_char_In in H; vm_compute in H; discriminate);
      try (vm_compute; discriminate).
    by eexists.
  - vm_compute. reflexivity.
Defined.

(** ** RequestBuilder and URL: added parameters come back as the query *)

Lemma find_char_absent (s : std_string) (c : char) :
  ~ In c s -> find_char s c = npos.
Proof.
  intros Hn. unfold find_char. pose proof (index_char_spec c s) as H.
  destruct (index_char c s) as [i|]; [|done].
  destruct H as (tl & Hd & _). destruct Hn.
  rewrite <- (take_drop i s), Hd. apply in_or_app. right. by left.
Qed.

Lemma parse_path_written_query (res : URL.t) (hp path query : std_string) :
  (str_size (hp ++ path ++ lit "?" ++ query) < npos)%Z ->
  ~ In "/"%char hp -> (exists rest, path = "/"%char :: rest) ->
  ~ In "?"%char path -> ~ In "#"%char path -> ~ In "#"%char query ->
  URL.parse_path res (hp ++ path ++ lit "?" ++ query)
  = Ok (URL.set_query query (URL.set_path path res)).
Proof.
  intros Hsize Hhp [rest ->] Hq Hf Hfq. unfold URL.parse_path.
  set (t := ("/"%char :: rest) ++ lit "?" ++ query) in *.
  assert (Ht : hp ++ t = hp ++ "/"%char :: (rest ++ lit "?" ++ query)) by reflexivity.
  assert (Htsize : (str_size t < npos)%Z).
  { rewrite str_size_app in Hsize. pose proof (str_size_nonneg hp). lia. }
  rewrite Ht in Hsize |- *.
  destruct (find_char_app hp _ "/" Hsize Hhp) as [-> ->]. cbn [negb].
  rewrite <- Ht in Hsize |- *.
  rewrite (substr_from_app hp t) by done. cbn [bind].
  assert (Hq' : t = ("/"%char :: rest) ++ "?"%char :: query) by reflexivity.
  pose proof Htsize as Hs1. rewrite Hq' in Hs1.
  destruct (find_char_app _ _ "?" Hs1 Hq) as [Hqpos Hqne].
  rewrite <- Hq' in Hqpos. rewrite Hqpos, Hqne. cbn [negb].
  rewrite (find_char_absent t "#").
  2:{ unfold t. intros H. apply in_app_or in H as [H|H]; [done|].
      apply in_app_or in H as [[H|[]]|H]; [discriminate|done]. }
  rewrite Z.eqb_refl. cbn [negb].
  rewrite Hq' at 1. rewrite substr_zero_app. cbn [bind].
  assert (Hmid : t = (("/"%char :: rest) ++ lit "?") ++ query)
    by (unfold t; by rewrite <- !app_assoc).
  rewrite Hmid at 1. rewrite substr_from_app; [done|by rewrite <- Hmid|].
  rewrite length_app. simpl. lia.
Qed.

Lemma encode_alphabet (s : std_string) (ch : char) :
  In ch (UrlEncoder.encode s) -> mem_char ch unreserved_set = true \/ ch = "%"%char.
Proof.
  unfold UrlEncoder.encode. intros Hch.
  apply in_flat_map in Hch as (c & _ & Hc). by apply (encode_char_alphabet c).
Qed.

Lemma join_pairs_alphabet (kvs : list (list ascii * list ascii)) (ch : char) :
  In ch (join_with "&" (map query_pair kvs)) ->
  mem_char ch unreserved_set = true \/ ch = "%"%char \/ ch = "="%char \/ ch = "&"%char.
Proof.
  assert (Hpair : forall kv, In ch (query_pair kv) ->
            mem_char ch unreserved_set = true \/ ch = "%"%char \/ ch = "="%char
            \/ ch = "&"%char).
  { intros kv H. unfold query_pair in H.
    apply in_app_or in H as [H|H]; [destruct (encode_alphabet _ _ H); auto|].
    apply in_app_or in H as [[H|[]]|H]; [auto|destruct (encode_alphabet _ _ H); auto]. }
  destruct kvs as [|kv kvs]; [done|]. cbn [map]. rewrite join_with_cons.
  intros H. apply in_app_or in H as [H|H]; [by apply (Hpair kv)|].
  apply in_flat_map in H as (q & Hq & H).
  apply in_map_iff in Hq as (kv' & <- & _).
  apply in_app_or in H as [[H|[]]|H]; [auto|by apply (Hpair kv')].
Qed.

Lemma URL_parse_written_authority (scheme host pathtail : std_string) (port : Z) :
  (str_size (scheme ++ lit "://" ++ host ++ lit ":" ++ to_string port ++ pathtail)
   < npos)%Z ->
  ~ In ":"%char scheme -> ~ In ":"%char host -> ~ In "/"%char host ->
  (0 <= port <= INT_MAX)%Z -> (exists rest, pathtail = "/"%char :: rest) ->
  URL.parse (scheme ++ lit "://" ++ host ++ lit ":" ++ to_string port ++ pathtail)
  = URL.parse_path
      (URL.set_port port
         (URL.set_host host
            (if str_eqb scheme "https"
             then URL.set_port 443 (URL.set_scheme scheme URL.init)
             else URL.set_scheme scheme URL.init)))
      ((host ++ lit ":" ++ to_string port) ++ pathtail).
Proof.
  intros Hsize Hs Hh1 Hh2 Hport [rest ->]. unfold URL.parse.
  rewrite parse_scheme_written by done. cbn [bind fst snd].
  set (hp := host ++ lit ":" ++ to_string port).
  assert (Hhp : ~ In "/"%char hp).
  { unfold hp. intros H. apply in_app_or in H as [H|H]; [done|].
    apply in_app_or in H as [[H|[]]|H]; [discriminate|].
    by apply to_string_digits in H. }
  assert (Htemp : host ++ lit ":" ++ to_string port ++ "/"%char :: rest
                  = hp ++ "/"%char :: rest)
    by (unfold hp; by rewrite <- !app_assoc).
  assert (Hsize' : (str_size (hp ++ "/"%char :: rest) < npos)%Z).
  { rewrite <- Htemp. rewrite str_size_app in Hsize.
    pose proof (str_size_nonneg scheme). rewrite str_size_app in Hsize.
    change (str_size (lit "://")) with 3%Z in Hsize. lia. }
  rewrite Htemp. rewrite host_port_written by done. cbn [bind].
  assert (Hhpsize : (str_size hp < npos)%Z).
  { rewrite str_size_app in Hsize'.
    pose proof (str_size_nonneg ("/"%char :: rest)). lia. }
  unfold hp at 1. change (host ++ lit ":" ++ to_string port)
    with (host ++ ":"%char :: to_string port).
  rewrite parse_authority_written by done.
  assert (Hstoi : stoi (to_string port) = Ok port).
  { unfold stoi. rewrite parse_decimal_to_string by lia.
    assert (H1 : (INT_MIN <=? port)%Z = true) by (apply Z.leb_le; unfold INT_MIN; lia).
    assert (H2 : (port <=? INT_MAX)%Z = true) by (apply Z.leb_le; lia).
    by rewrite H1, H2. }
  rewrite Hstoi. reflexivity.
Qed.

(** X20: the parameters that [addQueryParam] adds to a URL
    [scheme://host:port/path] come back from [URL::parse] as its query:
    the parsed URL has the scheme, host, port and path of the builder's
    URL, the encoded entries joined with ['&'] as query, and no
    fragment. *)
Theorem X20_added_params_are_the_query
    (u : URL.t) (kvs : list (list ascii * list ascii)) (b : RequestBuilder.t) :
  url_well_formed u ->
  ~ In "?"%char (URL.scheme u) -> ~ In "?"%char (URL.host u) ->
  RequestBuilder.url_ b = url_base u ->
  kvs <> [] ->
  (str_size (url_base u ++ lit "?" ++ join_with "&" (map query_pair kvs)) < npos)%Z ->
  URL.parse (RequestBuilder.url_ (add_query_params kvs b))
  = Ok (URL.mk (URL.scheme u) (URL.host u) (URL.port u) (URL.path u)
               (join_with "&" (map query_pair kvs)) []).
Proof.
  intros (Hs & Hh1 & Hh2 & Hport & Hpath & Hp1 & Hp2 & _) Hqs Hqh Hurl Hkvs Hsize.
  rewrite add_query_params_url by (done || by rewrite Hurl).
  rewrite Hurl.
  assert (Hnoq : mem_char "?" (url_base u) = false).
  { destruct (mem_char "?" (url_base u)) eqn:Hm; [|done].
    apply mem_char_In in Hm. unfold url_base in Hm.
    apply in_app_or in Hm as [H|H]; [done|].
    apply in_app_or in H as [H|H];
      [by apply mem_char_In in H; vm_compute in H|].
    apply in_app_or in H as [H|H]; [done|].
    apply in_app_or in H as [[H|[]]|H]; [discriminate|].
    apply in_app_or in H as [H|H]; [by apply to_string_digits in H|done]. }
  rewrite Hnoq.
  set (q := join_with "&" (map query_pair kvs)) in *.
  assert (Hq : ~ In "#"%char q).
  { intros H. apply join_pairs_alphabet in H as [H|[H|[H|H]]];
      [by vm_compute in H|discriminate..]. }
  destruct u as [scheme host port path query fragment].
  unfold url_base in *.
  cbn [URL.scheme URL.host URL.port URL.path URL.query URL.fragment] in *.
  assert (Heq : (scheme ++ lit "://" ++ host ++ lit ":" ++ to_string port ++ path)
                ++ lit "?" ++ q
                = scheme ++ lit "://" ++ host ++ lit ":" ++ to_string port
                  ++ (path ++ lit "?" ++ q))
    by (by rewrite <- !app_assoc).
  rewrite Heq in *.
  rewrite URL_parse_written_authority; try done.
  2:{ destruct Hpath as [rest ->]. by eexists. }
  assert (Hhp : ~ In "/"%char (host ++ lit ":" ++ to_string port)).
  { intros H. apply in_app_or in H as [H|H]; [done|].
    apply in_app_or in H as [[H|[]]|H]; [discriminate|].
    by apply to_string_digits in H. }
  rewrite parse_path_written_query; try done.
  - by destruct (str_eqb scheme "https").
  - rewrite <- !app_assoc. rewrite !str_size_app in *.
    pose proof (str_size_nonneg scheme). change (str_size (lit "://")) with 3%Z in *.
    lia.
Qed.

Lemma X20_added_params_are_the_query_witness :
  URL.parse
    (RequestBuilder.url_
       (add_query_params [(lit "q", lit "a b"); (lit "n", lit "1")]
          (RequestBuilder.make GET "http://example.com:80/search")))
  = Ok (URL.mk "http" "example.com" 80 "/search" "q=a%20b&n=1" "").
Proof.
  apply (X20_added_params_are_the_query
           (URL.mk "http" "example.com" 80 "/search" "" "")
           [(lit "q", lit "a b"); (lit "n", lit "1")]
           (RequestBuilder.make GET "http://example.com:80/search")).
  - unfold url_well_formed.
    cbn [URL.scheme URL.host URL.port URL.path URL.query URL.fragment].
    repeat split;
      try (intros H; apply mem_char_In in H; vm_compute in H; discriminate);
      try (vm_compute; discriminate);
      try (by eexists); try (by intros []); try (vm_compute; lia).
  - intros H; apply mem_char_In in H; vm_compute in H; discriminate.
  - intros H; apply mem_char_In in H; vm_compute in H; discriminate.
  - vm_compute. reflexivity.
  - discriminate.
  - vm_compute. reflexivity.
Defined.

(** ** Cookie: what [parse] returns is in normal form *)

Lemma split_on_segments (d : char) (s : std_string) :
  Forall (fun a => ~ In d a) (split_on d s).
Proof.
  induction s as [|c s IH]; cbn [split_on].
  - constructor; [by intros []|constructor].
  - destruct (char_eqb c d) eqn:Hc.
    + constructor; [by intros []|done].
    + assert (Hcd : c <> d).
      { intros ->. unfold char_eqb in Hc. by rewrite Ascii.eqb_refl in Hc. }
      destruct (split_on d s) as [|seg segs].
      * constructor; [|constructor]. intros [H|[]]. by apply Hcd.
      * apply Forall_cons in IH as [H1 H2]. constructor; [|done].
        intros [H|H]; [by apply Hcd|done].
Qed.

Lemma trim_spec_idem (s : std_string) : trim_spec (trim_spec s) = trim_spec s.
Proof.
  unfold trim_spec at 1.
  rewrite strip_left_fix by apply trim_spec_head.
  apply strip_right_fix, trim_spec_last.
Qed.

Lemma In_drop (c : char) (n : nat) (s : std_string) : In c (drop n s) -> In c s.
Proof. intros H. rewrite <- (take_drop n s). apply in_or_app. by right. Qed.

Lemma strip_right_drop (k : nat) (t : std_string) :
  (forall c, last t = Some c -> is_trim_space c = false) ->
  strip_right (drop k t) = drop k t.
Proof.
  intros Ht. apply strip_right_fix. intros c Hc. apply Ht.
  rewrite <- (take_drop k t), last_app. by rewrite Hc.
Qed.

Lemma name_value_spec_well_formed (seg : std_string) :
  ~ In ";"%char seg -> cookie_well_formed (name_value_spec seg Cookie.init).
Proof.
  intros Hseg. unfold name_value_spec.
  pose proof (index_char_spec "=" seg) as Hi.
  destruct (index_char "=" seg) as [i|].
  - destruct Hi as (tl & _ & Hno & _).
    unfold cookie_well_formed, Cookie.set_name_value, Cookie.init.
    cbn [Cookie.name Cookie.value Cookie.domain Cookie.path Cookie.sameSite].
    repeat split; try (by intros []); try done; try apply trim_spec_idem.
    + intros H. by apply In_trim_spec, In_take in H.
    + intros H. by apply In_trim_spec in H.
    + intros H. by apply In_trim_spec, In_drop in H.
  - unfold cookie_well_formed, Cookie.init.
    cbn [Cookie.name Cookie.value Cookie.domain Cookie.path Cookie.sameSite].
    repeat split; by intros [].
Qed.

Lemma attribute_spec_well_formed (c : Cookie.t) (seg : std_string) :
  ~ In ";"%char seg -> cookie_well_formed c -> cookie_well_formed (attribute_spec c seg).
Proof.
  intros Hseg Hwf. unfold attribute_spec, strip_prefix.
  assert (Hin : forall k, ~ In ";"%char (drop k (trim_spec seg))).
  { intros k H. by apply In_drop, In_trim_spec in H. }
  assert (Hsr : forall k, strip_right (drop k (trim_spec seg)) = drop k (trim_spec seg)).
  { intros k. apply strip_right_drop, trim_spec_last. }
  destruct c as [n v d p s h ss].
  unfold cookie_well_formed in *.
  cbn [Cookie.name Cookie.value Cookie.domain Cookie.path Cookie.sameSite] in Hwf.
  destruct Hwf as (? & ? & ? & ? & ? & ? & ? & ? & ? & ? & ?).
  destruct (prefixb "Domain=" (trim_spec seg));
    [|destruct (prefixb "Path=" (trim_spec seg));
      [|destruct (prefixb "SameSite=" (trim_spec seg));
        [|destruct (str_eqb (trim_spec seg) "Secure");
          [|destruct (str_eqb (trim_spec seg) "HttpOnly")]]]];
    cbn [Cookie.set_domain Cookie.set_path Cookie.set_sameSite Cookie.set_secure
         Cookie.set_httpOnly Cookie.name Cookie.value Cookie.domain Cookie.path
         Cookie.sameSite];
    repeat split; try done; try apply Hin; try apply Hsr.
Qed.

Lemma cookie_parse_spec_well_formed (s : std_string) :
  cookie_well_formed (cookie_parse_spec s).
Proof.
  unfold cookie_parse_spec. pose proof (split_on_segments ";" s) as Hsegs.
  destruct (split_on ";" s) as [|first rest].
  - apply (name_value_spec_well_formed []). by intros [].
  - apply Forall_cons in Hsegs as [Hfirst Hrest].
    pose proof (name_value_spec_well_formed first Hfirst) as Hwf.
    revert Hwf. generalize (name_value_spec first Cookie.init).
    induction rest as [|seg rest IH]; intros c Hwf; cbn [fold_left]; [done|].
    apply Forall_cons in Hrest as [Hseg Hrest].
    apply IH; [done|]. by apply attribute_spec_well_formed.
Qed.

(** X21: what [Cookie::parse] returns is in normal form.  For every
    input the returned cookie has no [';'] in a field, no ['='] in its
    name, no white space around name and value and none at the end of an
    attribute value; so writing it with [toString] and parsing that text
    gives the same cookie again. *)
Theorem X21_cookie_parse_normal_form (s : std_string) :
  (str_size s < npos)%Z ->
  (forall c, Cookie.parse s = Ok c -> (str_size (Cookie.toString c) < npos)%Z) ->
  exists c, Cookie.parse s = Ok c /\ cookie_well_formed c
            /\ Cookie.parse (Cookie.toString c) = Ok c.
Proof.
  intros Hsize Hsize'. exists (cookie_parse_spec s).
  pose proof (Cookie_parse_eq_spec s Hsize) as Hparse.
  pose proof (cookie_parse_spec_well_formed s) as Hwf.
  split; [done|]. split; [done|].
  specialize (Hsize' _ Hparse).
  rewrite Cookie_parse_eq_spec by done. f_equal.
  unfold cookie_parse_spec at 1. rewrite toString_attrs.
  pose proof (cookie_attrs_no_semicolon _ Hwf) as Hattrs.
  destruct Hwf as (Hn1 & Hn2 & Hn3 & Hv1 & Hv2 & _ & Hd & _ & Hp & _ & Hs).
  change (flat_map (fun a => lit "; " ++ a) (cookie_attrs (cookie_parse_spec s)))
    with (flat_map (fun a => ";"%char :: SP :: a) (cookie_attrs (cookie_parse_spec s))).
  rewrite split_on_joined; [|discriminate| |done].
  2:{ intros H. apply in_app_or in H as [H|H]; [done|].
      destruct H as [H|H]; [discriminate|done]. }
  rewrite name_value_spec_written by done.
  unfold cookie_attrs. rewrite !map_app, !fold_left_app.
  destruct (cookie_parse_spec s) as [n v d p sec h ss].
  cbn [Cookie.name Cookie.value Cookie.domain Cookie.path Cookie.secure
       Cookie.httpOnly Cookie.sameSite] in *.
  repeat case_bool_decide; subst; destruct sec, h; cbn [map fold_left];
    rewrite ?attribute_spec_domain, ?attribute_spec_path, ?attribute_spec_secure,
      ?attribute_spec_httpOnly, ?attribute_spec_sameSite by done;
    reflexivity.
Qed.

Lemma X21_cookie_parse_normal_form_witness :
  exists c, Cookie.parse "  sid = abc ;Secure;  Path=/x  ; Domain=a.b;junk" = Ok c
            /\ cookie_well_formed c
            /\ Cookie.parse (Cookie.toString c) = Ok c.
Proof.
  apply (X21_cookie_parse_normal_form "  sid = abc ;Secure;  Path=/x  ; Domain=a.b;junk").
  - vm_compute. reflexivity.
  - intros c H. vm_compute in H. injection H as <-. vm_compute. reflexivity.
Defined.

(** ** HttpClient: [parseHeaders] on arbitrary text *)

Lemma response_extends_refl (r : HttpResponse.t) : response_extends r r.
Proof.
  unfold response_extends. repeat split; try done.
  - exists []. by rewrite app_nil_r.
  - by left.
Qed.

Lemma response_extends_trans (r1 r2 r3 : HttpResponse.t) :
  response_extends r1 r2 -> response_extends r2 r3 -> response_extends r1 r3.
Proof.
  intros (H1 & H2 & H3 & [cs1 H4] & H5 & H6) (G1 & G2 & G3 & [cs2 G4] & G5 & G6).
  unfold response_extends. repeat split; try congruence.
  - exists (cs1 ++ cs2). by rewrite G4, H4, <- app_assoc.
  - intros k Hk. by apply G5, H5.
  - intros k Hk. destruct (G6 k Hk) as [Hk'|Hk']; [by apply H6|by right].
Qed.

Lemma setHeader_extends (key value : std_string) (r : HttpResponse.t) :
  exists r', HttpResponse.setHeader key value r = Ok r' /\ response_extends r r'.
Proof.
  destruct (setHeader_spec key value r) as (r' & Hr' & Hh & Hc & Hs & Hm & Hb).
  exists r'. split; [done|]. unfold response_extends.
  repeat split; try done.
  - by eexists.
  - intros k Hk. rewrite Hh.
    destruct (decide (toLower key = k)) as [<-|Hne].
    + by rewrite lookup_insert_eq.
    + by rewrite lookup_insert_ne.
  - intros k. rewrite Hh.
    destruct (decide (toLower key = k)) as [<-|Hne].
    + intros _. right. apply toLower_idempotent.
    + rewrite lookup_insert_ne by done. by left.
Qed.

Lemma parse_header_line_extends (line : std_string) (r : HttpResponse.t) :
  exists r', HttpClient.parse_header_line line r = Ok r' /\ response_extends r r'.
Proof.
  unfold HttpClient.parse_header_line.
  destruct (trim_returns line) as [l ->]. cbn [bind].
  case_bool_decide; [exists r; split; [done|apply response_extends_refl]|].
  destruct (negb (find_char l ":" =? npos)%Z) eqn:Hpos;
    [|exists r; split; [done|apply response_extends_refl]].
  apply neqb_npos, find_char_found in Hpos.
  destruct (substr_returns l 0 (find_char l ":")) as [k ->]; [lia|]. cbn [bind].
  destruct (trim_returns k) as [key ->]. cbn [bind].
  destruct (substr_returns l (find_char l ":" + 1) npos) as [v Hv]; [lia|].
  unfold substr_from. rewrite Hv. cbn [bind].
  destruct (trim_returns v) as [value ->]. cbn [bind].
  apply setHeader_extends.
Qed.

Lemma parse_header_lines_extends (fuel : nat) :
  forall (iss : std_string) (r : HttpResponse.t),
    length iss <= fuel ->
    exists r', HttpClient.parse_header_lines fuel iss r = Ok r'
               /\ response_extends r r'.
Proof.
  induction fuel as [|fuel IH]; intros iss r Hfuel.
  - destruct iss; [|simpl in Hfuel; lia].
    exists r. split; [done|apply response_extends_refl].
  - destruct iss as [|c iss]; [exists r; split; [done|apply response_extends_refl]|].
    cbn [HttpClient.parse_header_lines getline].
    pose proof (getline_split_length LF (c :: iss)) as [_ Hrest].
    destruct (getline_split LF (c :: iss)) as [line rest].
    destruct (parse_header_line_extends line r) as (r1 & -> & H1). cbn [bind].
    destruct (IH rest r1) as (r2 & -> & H2); [simpl in *; lia|].
    exists r2. split; [done|]. by apply (response_extends_trans r r1 r2).
Qed.

(** X22: [parseHeaders] returns for every text, whatever its lines look
    like, and never throws; it leaves the status code, the status message
    and the body of the response as they are, keeps every header and
    every cookie that was there, and every key it adds to the header map
    is in lower case. *)
Theorem X22_parseHeaders_total (headerText : std_string) (r : HttpResponse.t) :
  exists r', HttpClient.parseHeaders headerText r = Ok r' /\ response_extends r r'.
Proof. unfold HttpClient.parseHeaders. by apply parse_header_lines_extends. Qed.

(** ** RequestBuilder: form bodies *)

Lemma buildQueryString_nonempty (params : gmap (list ascii) (list ascii)) :
  params <> ∅ -> UrlEncoder.buildQueryString params <> [].
Proof.
  intros Hne. unfold UrlEncoder.buildQueryString. rewrite buildQueryString_loop_join.
  pose proof (map_items_length params) as Hlen.
  destruct (map_items params) as [|kv kvs].
  - destruct Hne. apply map_size_empty_iff. by rewrite <- Hlen.
  - cbn [map]. rewrite join_with_cons. unfold query_pair.
    by destruct (UrlEncoder.encode (fst kv)).
Qed.

(** X23: [setFormUrlEncoded] stores the query string of the parameters as
    body under the content type [application/x-www-form-urlencoded], and
    touches no other header than [Content-Type] and [Content-Length].
    With one parameter or more [Content-Length] is the length of that
    body; with none the body is empty and a [Content-Length] set before
    is left as it was. *)
Theorem X23_setFormUrlEncoded
    (params : gmap (list ascii) (list ascii)) (b : RequestBuilder.t) :
  RequestBuilder.body_ (RequestBuilder.setFormUrlEncoded params b)
  = join_with "&" (map query_pair (map_items params))
  /\ RequestBuilder.headers_ (RequestBuilder.setFormUrlEncoded params b)
       !! lit "Content-Type"
     = Some (lit "application/x-www-form-urlencoded")
  /\ (params <> ∅ ->
      RequestBuilder.headers_ (RequestBuilder.setFormUrlEncoded params b)
        !! lit "Content-Length"
      = Some (to_string
                (str_size (RequestBuilder.body_
                             (RequestBuilder.setFormUrlEncoded params b)))))
  /\ (params = ∅ ->
      RequestBuilder.body_ (RequestBuilder.setFormUrlEncoded params b) = []
      /\ RequestBuilder.headers_ (RequestBuilder.setFormUrlEncoded params b)
           !! lit "Content-Length"
         = RequestBuilder.headers_ b !! lit "Content-Length")
  /\ (forall k, k <> lit "Content-Type" -> k <> lit "Content-Length" ->
        RequestBuilder.headers_ (RequestBuilder.setFormUrlEncoded params b) !! k
        = RequestBuilder.headers_ b !! k)
  /\ RequestBuilder.url_ (RequestBuilder.setFormUrlEncoded params b)
     = RequestBuilder.url_ b
  /\ RequestBuilder.cookies_ (RequestBuilder.setFormUrlEncoded params b)
     = RequestBuilder.cookies_ b.
Proof.
  unfold RequestBuilder.setFormUrlEncoded.
  rewrite setBody_body, setBody_headers.
  assert (Hbody : UrlEncoder.buildQueryString params
                  = join_with "&" (map query_pair (map_items params))).
  { unfold UrlEncoder.buildQueryString. by rewrite buildQueryString_loop_join. }
  split; [done|].
  unfold RequestBuilder.setContentType, RequestBuilder.addHeader.
  cbn [RequestBuilder.headers_ getContentTypeString].
  split.
  { case_bool_decide.
    - by rewrite lookup_insert_eq.
    - rewrite lookup_insert_ne by done. by rewrite lookup_insert_eq. }
  split.
  { intros Hne. rewrite bool_decide_eq_false_2 by by apply buildQueryString_nonempty.
    by rewrite lookup_insert_eq. }
  split.
  { intros ->. split; [done|].
    change (UrlEncoder.buildQueryString ∅) with (@nil ascii).
    rewrite bool_decide_eq_true_2 by done. by rewrite lookup_insert_ne. }
  split.
  { intros k Hk1 Hk2. case_bool_decide.
    - by rewrite lookup_insert_ne.
    - by rewrite !lookup_insert_ne. }
  unfold RequestBuilder.setBody.
  by destruct (negb (bool_decide (UrlEncoder.buildQueryString params = []))).
Qed.
